(** * Boardly whiteboard: the scene engine of [App.tsx]

    A shallow embedding of the drawing core of the React component
    (geometry kernel, shape paths, airbrush sampler, hit testing, the
    pointer reducer, the snapshot history and the persisted record),
    followed by the properties the specification states about it.

    JavaScript numbers are modelled by [number]: a finite value carries a
    real, and arithmetic on finite values is exact real arithmetic
    (rounding, overflow and the sign of zero are not represented); the
    three non-finite values follow the IEEE rules the language uses. *)

From Stdlib Require Import Reals Lra Lia ZArith List String Bool.
Import ListNotations.
Local Open Scope string_scope.
Local Open Scope list_scope.

(** ** JavaScript numbers *)

Inductive number : Type :=
| Fin (r : R)
| PInf
| NInf
| NaN.

Declare Scope js_scope.
Delimit Scope js_scope with js.
Bind Scope js_scope with number.

Definition Rsign (r : R) : comparison :=
  if Rlt_dec r 0 then Lt else if Rlt_dec 0 r then Gt else Eq.

Definition nsign (a : number) : comparison :=
  match a with
  | Fin r => Rsign r
  | PInf => Gt
  | NInf => Lt
  | NaN => Eq
  end.

Definition sign_mul (s1 s2 : comparison) : comparison :=
  match s1, s2 with
  | Eq, _ | _, Eq => Eq
  | Lt, Lt | Gt, Gt => Gt
  | _, _ => Lt
  end.

(** The infinity of a given sign; an undetermined sign gives NaN. *)
Definition signed_inf (s : comparison) : number :=
  match s with
  | Gt => PInf
  | Lt => NInf
  | Eq => NaN
  end.

Definition isFinite (a : number) : bool :=
  match a with
  | Fin _ => true
  | _ => false
  end.

Definition nneg (a : number) : number :=
  match a with
  | Fin r => Fin (- r)
  | PInf => NInf
  | NInf => PInf
  | NaN => NaN
  end.

Definition nadd (a b : number) : number :=
  match a, b with
  | NaN, _ | _, NaN => NaN
  | Fin r, Fin s => Fin (r + s)
  | PInf, NInf | NInf, PInf => NaN
  | PInf, _ | _, PInf => PInf
  | NInf, _ | _, NInf => NInf
  end.

Definition nsub (a b : number) : number := nadd a (nneg b).

Definition nmul (a b : number) : number :=
  match a, b with
  | NaN, _ | _, NaN => NaN
  | Fin r, Fin s => Fin (r * s)
  | _, _ => signed_inf (sign_mul (nsign a) (nsign b))
  end.

(** [a / b].  A zero divisor gives an infinity or NaN, never an
    exception; zero counts as positive zero. *)
Definition ndiv (a b : number) : number :=
  match a, b with
  | NaN, _ | _, NaN => NaN
  | Fin r, Fin s =>
      if Req_dec_T s 0 then signed_inf (Rsign r) else Fin (r / s)
  | Fin _, _ => Fin 0
  | _, Fin s => signed_inf (sign_mul (nsign a) (if Rlt_dec s 0 then Lt else Gt))
  | _, _ => NaN
  end.

Definition nlt (a b : number) : bool :=
  match a, b with
  | NaN, _ | _, NaN => false
  | Fin r, Fin s => if Rlt_dec r s then true else false
  | NInf, NInf | PInf, _ => false
  | NInf, _ => true
  | Fin _, PInf => true
  | Fin _, NInf => false
  end.

Definition nle (a b : number) : bool :=
  match a, b with
  | NaN, _ | _, NaN => false
  | Fin r, Fin s => if Rle_dec r s then true else false
  | NInf, _ | _, PInf => true
  | PInf, _ => false
  | Fin _, NInf => false
  end.

Definition ngt (a b : number) : bool := nlt b a.
Definition nge (a b : number) : bool := nle b a.

Infix "+" := nadd : js_scope.
Infix "-" := nsub : js_scope.
Infix "*" := nmul : js_scope.
Infix "/" := ndiv : js_scope.
Infix "<?" := nlt (at level 70) : js_scope.
Infix "<=?" := nle (at level 70) : js_scope.
Infix ">?" := ngt (at level 70) : js_scope.
Infix ">=?" := nge (at level 70) : js_scope.

(** The [Math] object: the functions the component calls. *)
Module Math.

Definition PI : number := Fin Rtrigo1.PI.

Definition min (a b : number) : number :=
  match a, b with
  | NaN, _ | _, NaN => NaN
  | Fin r, Fin s => Fin (Rmin r s)
  | NInf, _ | _, NInf => NInf
  | PInf, c | c, PInf => c
  end.

Definition max (a b : number) : number :=
  match a, b with
  | NaN, _ | _, NaN => NaN
  | Fin r, Fin s => Fin (Rmax r s)
  | PInf, _ | _, PInf => PInf
  | NInf, c | c, NInf => c
  end.

Definition floor (a : number) : number :=
  match a with
  | Fin r => Fin (IZR (Zfloor r))
  | _ => a
  end.

Definition sqrt (a : number) : number :=
  match a with
  | Fin r => if Rlt_dec r 0 then NaN else Fin (R_sqrt.sqrt r)
  | PInf => PInf
  | _ => NaN
  end.

Definition cos (a : number) : number :=
  match a with
  | Fin r => Fin (Rtrigo_def.cos r)
  | _ => NaN
  end.

Definition sin (a : number) : number :=
  match a with
  | Fin r => Fin (Rtrigo_def.sin r)
  | _ => NaN
  end.

End Math.

(** A loop counter [i] as a number. *)
Definition ofNat (i : nat) : number := Fin (INR i).

(** ** Data model *)

Inductive Brush : Type := Pencil | Marker | Highlighter | Airbrush.

Inductive Tool : Type := ToolPen | ToolEraser | ToolSelect | ToolShape.

(** The [tool] field of a stroke style: ["pen" | "eraser"]. *)
Inductive StrokeTool : Type := Pen | Eraser.

Inductive ShapeType : Type :=
| Rect | Ellipse | Triangle | Star | Line | Pentagon | Tree | Umbrella | Heart.

Module Point.
Record t : Type := mk { x : number; y : number }.
End Point.

Module StrokeStyle.
Record t : Type := mk {
  tool : StrokeTool;
  brush : Brush;
  color : string;
  size : number
}.
End StrokeStyle.

(** One airbrush particle [{x, y, r, a}]. *)
Module Dot.
Record t : Type := mk { x : number; y : number; r : number; a : number }.
End Dot.

(** [dots] is an optional property: [None] is [undefined]. *)
Module StrokeElement.
Record t : Type := mk {
  id : string;
  points : list Point.t;
  style : StrokeStyle.t;
  dots : option (list Dot.t)
}.
End StrokeElement.

Module ShapeElement.
Record t : Type := mk {
  id : string;
  shape : ShapeType;
  x1 : number;
  y1 : number;
  x2 : number;
  y2 : number;
  color : string;
  size : number
}.
End ShapeElement.

(** [Element = StrokeElement | ShapeElement]; the [kind] field is the tag. *)
Inductive Element : Type :=
| Stroke (s : StrokeElement.t)
| Shape (s : ShapeElement.t).

Definition Scene : Type := list Element.

Definition elementId (el : Element) : string :=
  match el with
  | Stroke s => StrokeElement.id s
  | Shape s => ShapeElement.id s
  end.

(** ** Geometry kernel *)

Local Open Scope js_scope.

Definition dist (a b : Point.t) : number :=
  let dx := Point.x a - Point.x b in
  let dy := Point.y a - Point.y b in
  Math.sqrt (dx * dx + dy * dy).

Module NRect.
Record t : Type := mk {
  left : number;
  top : number;
  right : number;
  bottom : number;
  w : number;
  h : number
}.
End NRect.

Definition normalizeRect (x1 y1 x2 y2 : number) : NRect.t :=
  let left := Math.min x1 x2 in
  let top := Math.min y1 y2 in
  let right := Math.max x1 x2 in
  let bottom := Math.max y1 y2 in
  NRect.mk left top right bottom (right - left) (bottom - top).

(** The literal [1e-6]. *)
Definition epsilon : number := Fin (1 / 1000000).

Definition hitTestShape (shape : ShapeElement.t) (p : Point.t) : bool :=
  let pad := Math.max (Fin 6) (ShapeElement.size shape) in
  match ShapeElement.shape shape with
  | Line =>
      let x1 := ShapeElement.x1 shape in
      let y1 := ShapeElement.y1 shape in
      let x2 := ShapeElement.x2 shape in
      let y2 := ShapeElement.y2 shape in
      let px := Point.x p in
      let py := Point.y p in
      let dx := x2 - x1 in
      let dy := y2 - y1 in
      let len2 := dx * dx + dy * dy in
      if len2 <? epsilon then
        let ddx := px - x1 in
        let ddy := py - y1 in
        ddx * ddx + ddy * ddy <=? (pad + Fin 2) * (pad + Fin 2)
      else
        let t := ((px - x1) * dx + (py - y1) * dy) / len2 in
        let t := Math.max (Fin 0) (Math.min (Fin 1) t) in
        let cx := x1 + t * dx in
        let cy := y1 + t * dy in
        let ddx := px - cx in
        let ddy := py - cy in
        ddx * ddx + ddy * ddy <=? (pad + Fin 2) * (pad + Fin 2)
  | Ellipse =>
      let r := normalizeRect (ShapeElement.x1 shape) (ShapeElement.y1 shape)
                 (ShapeElement.x2 shape) (ShapeElement.y2 shape) in
      let x := Point.x p in
      let y := Point.y p in
      let cx := NRect.left r + NRect.w r / Fin 2 in
      let cy := NRect.top r + NRect.h r / Fin 2 in
      let rx := Math.max (Fin 1) (NRect.w r / Fin 2) + pad in
      let ry := Math.max (Fin 1) (NRect.h r / Fin 2) + pad in
      let nx := (x - cx) / rx in
      let ny := (y - cy) / ry in
      nx * nx + ny * ny <=? Fin 1
  | _ =>
      let r := normalizeRect (ShapeElement.x1 shape) (ShapeElement.y1 shape)
                 (ShapeElement.x2 shape) (ShapeElement.y2 shape) in
      let x := Point.x p in
      let y := Point.y p in
      (x >=? NRect.left r - pad) && (x <=? NRect.right r + pad)
      && (y >=? NRect.top r - pad) && (y <=? NRect.bottom r + pad)
  end.

(** ** Shape paths

    The 2D context is write-only for [drawShape]; the calls it makes are
    recorded in order. *)

Inductive CanvasCall : Type :=
| save
| restore
| set_globalCompositeOperation (v : string)
| set_strokeStyle (v : string)
| set_lineWidth (v : number)
| set_lineJoin (v : string)
| set_lineCap (v : string)
| beginPath
| moveTo (x y : number)
| lineTo (x y : number)
| closePath
| stroke
| strokeRect (x y w h : number)
| ellipse (x y radiusX radiusY rotation startAngle endAngle : number)
| quadraticCurveTo (cpx cpy x y : number)
| bezierCurveTo (cp1x cp1y cp2x cp2y x y : number)
| arc (x y radius startAngle endAngle : number) (counterclockwise : bool).

(** Body of the pentagon loop, [i = 0 .. 4]. *)
Definition pentagonVertex (cx cy rad : number) (i : nat) : CanvasCall :=
  let ang := nneg Math.PI / Fin 2 + (ofNat i * Fin 2 * Math.PI) / Fin 5 in
  let x := cx + Math.cos ang * rad in
  let y := cy + Math.sin ang * rad in
  if Nat.eqb i 0 then moveTo x y else lineTo x y.

(** Body of the star loop, [i = 0 .. 9]. *)
Definition starVertex (cx cy outer inner : number) (i : nat) : CanvasCall :=
  let ang := nneg Math.PI / Fin 2 + (ofNat i * Math.PI) / Fin 5 in
  let rad := if Nat.eqb (i mod 2) 0 then outer else inner in
  let x := cx + Math.cos ang * rad in
  let y := cy + Math.sin ang * rad in
  if Nat.eqb i 0 then moveTo x y else lineTo x y.

(** Body of the umbrella's scallop loop, [i = 0 .. 3]. *)
Definition scallop (left seg canopyBottom scallopDepth : number) (i : nat)
  : CanvasCall :=
  let x0 := left + ofNat i * seg in
  let x1 := x0 + seg in
  let xm := (x0 + x1) / Fin 2 in
  quadraticCurveTo xm (canopyBottom + scallopDepth) x1 canopyBottom.

Definition drawShape (el : ShapeElement.t) : list CanvasCall :=
  let r := normalizeRect (ShapeElement.x1 el) (ShapeElement.y1 el)
             (ShapeElement.x2 el) (ShapeElement.y2 el) in
  let prologue :=
    [ save;
      set_globalCompositeOperation "source-over";
      set_strokeStyle (ShapeElement.color el);
      set_lineWidth (Math.max (Fin 1) (ShapeElement.size el));
      set_lineJoin "round";
      set_lineCap "round" ] in
  let cx := NRect.left r + NRect.w r / Fin 2 in
  let cy := NRect.top r + NRect.h r / Fin 2 in
  prologue ++
  match ShapeElement.shape el with
  | Line =>
      [ beginPath;
        moveTo (ShapeElement.x1 el) (ShapeElement.y1 el);
        lineTo (ShapeElement.x2 el) (ShapeElement.y2 el);
        stroke;
        restore ]
  | Rect =>
      [ strokeRect (NRect.left r) (NRect.top r) (NRect.w r) (NRect.h r);
        restore ]
  | Ellipse =>
      [ beginPath;
        ellipse cx cy (Math.max (Fin 1) (NRect.w r / Fin 2))
          (Math.max (Fin 1) (NRect.h r / Fin 2))
          (Fin 0) (Fin 0) (Math.PI * Fin 2);
        stroke;
        restore ]
  | Triangle =>
      let x1 := NRect.left r + NRect.w r / Fin 2 in
      let y1 := NRect.top r in
      let x2 := NRect.left r in
      let y2 := NRect.bottom r in
      let x3 := NRect.right r in
      let y3 := NRect.bottom r in
      [ beginPath; moveTo x1 y1; lineTo x2 y2; lineTo x3 y3;
        closePath; stroke; restore ]
  | Pentagon =>
      let rad := Math.max (Fin 6) (Math.min (NRect.w r) (NRect.h r) / Fin 2) in
      [ beginPath ] ++ map (pentagonVertex cx cy rad) (seq 0 5)
      ++ [ closePath; stroke; restore ]
  | Star =>
      let outer := Math.max (Fin 6) (Math.min (NRect.w r) (NRect.h r) / Fin 2) in
      let inner := outer * Fin (5 / 10) in
      [ beginPath ] ++ map (starVertex cx cy outer inner) (seq 0 10)
      ++ [ closePath; stroke; restore ]
  | Tree =>
      let trunkH := Math.max (Fin 6) (NRect.h r * Fin (18 / 100)) in
      let trunkW := Math.max (Fin 6) (NRect.w r * Fin (18 / 100)) in
      let topY := NRect.top r in
      let baseY := NRect.bottom r - trunkH in
      let tx := cx - trunkW / Fin 2 in
      let ty := baseY in
      [ beginPath; moveTo cx topY; lineTo (NRect.left r) baseY;
        lineTo (NRect.right r) baseY; closePath; stroke;
        strokeRect tx ty trunkW trunkH;
        restore ]
  | Umbrella =>
      let x := NRect.left r in
      let y := NRect.top r in
      let w := Math.max (Fin 12) (NRect.w r) in
      let h := Math.max (Fin 12) (NRect.h r) in
      let left := x + w * Fin (12 / 100) in
      let right := x + w * Fin (88 / 100) in
      let top := y + h * Fin (10 / 100) in
      let canopyBottom := y + h * Fin (55 / 100) in
      let scallopDepth :=
        Math.min (h * Fin (9 / 100)) ((right - left) * Fin (7 / 100)) in
      let scallops := 4%nat in
      let seg := (right - left) / ofNat scallops in
      let stemTop := canopyBottom in
      let stemBottom := y + h * Fin (86 / 100) in
      let hookR := Math.min w h * Fin (12 / 100) in
      let hookCx := cx + hookR in
      let hookCy := Math.min (y + h * Fin (94 / 100)) (stemBottom + hookR) in
      [ beginPath; moveTo left canopyBottom;
        quadraticCurveTo cx top right canopyBottom ]
      ++ map (scallop left seg canopyBottom scallopDepth) (seq 0 scallops)
      ++ [ stroke;
           beginPath; moveTo cx (top + h * Fin (6 / 100));
           lineTo cx canopyBottom; stroke;
           beginPath; moveTo cx stemTop; lineTo cx stemBottom; stroke;
           beginPath;
           arc hookCx hookCy hookR Math.PI (Math.PI * Fin (155 / 100)) false;
           stroke;
           restore ]
  | Heart =>
      let x := NRect.left r in
      let y := NRect.top r in
      let w := Math.max (Fin 12) (NRect.w r) in
      let h := Math.max (Fin 12) (NRect.h r) in
      let cx2 := x + w / Fin 2 in
      let bottomY := y + h in
      let topY := y + h * Fin (30 / 100) in
      let dipY := y + h * Fin (22 / 100) in
      [ beginPath;
        moveTo cx2 bottomY;
        bezierCurveTo (x + w * Fin (5 / 100)) (y + h * Fin (75 / 100))
          x (y + h * Fin (50 / 100))
          (x + w * Fin (25 / 100)) topY;
        bezierCurveTo (x + w * Fin (20 / 100)) (y + h * Fin (6 / 100))
          (cx2 - w * Fin (18 / 100)) (y + h * Fin (6 / 100))
          cx2 dipY;
        bezierCurveTo (cx2 + w * Fin (18 / 100)) (y + h * Fin (6 / 100))
          (x + w * Fin (80 / 100)) (y + h * Fin (6 / 100))
          (x + w * Fin (75 / 100)) topY;
        bezierCurveTo (x + w) (y + h * Fin (50 / 100))
          (x + w * Fin (95 / 100)) (y + h * Fin (75 / 100))
          cx2 bottomY;
        closePath; stroke; restore ]
  end.

(** ** JSON values

    What [JSON.stringify] writes and [JSON.parse] reads back.  Object
    members keep their order, which is the order in which the properties
    were created. *)

#[local] Set Warnings "-register-all".

Inductive json : Type :=
| JNull
| JBool (b : bool)
| JNumber (r : R)
| JString (s : string)
| JArray (items : list json)
| JObject (members : list (string * json)).

(** A number is written as itself when finite and as [null] otherwise. *)
Definition numberJSON (a : number) : json :=
  match a with
  | Fin r => JNumber r
  | _ => JNull
  end.

Definition brushText (b : Brush) : string :=
  match b with
  | Pencil => "pencil"
  | Marker => "marker"
  | Highlighter => "highlighter"
  | Airbrush => "airbrush"
  end.

Definition strokeToolText (t : StrokeTool) : string :=
  match t with
  | Pen => "pen"
  | Eraser => "eraser"
  end.

Definition shapeTypeText (k : ShapeType) : string :=
  match k with
  | Rect => "rect"
  | Ellipse => "ellipse"
  | Triangle => "triangle"
  | Star => "star"
  | Line => "line"
  | Pentagon => "pentagon"
  | Tree => "tree"
  | Umbrella => "umbrella"
  | Heart => "heart"
  end.

Definition pointJSON (p : Point.t) : json :=
  JObject [("x", numberJSON (Point.x p)); ("y", numberJSON (Point.y p))].

Definition dotJSON (d : Dot.t) : json :=
  JObject [("x", numberJSON (Dot.x d)); ("y", numberJSON (Dot.y d));
           ("r", numberJSON (Dot.r d)); ("a", numberJSON (Dot.a d))].

Definition styleJSON (st : StrokeStyle.t) : json :=
  JObject [("tool", JString (strokeToolText (StrokeStyle.tool st)));
           ("brush", JString (brushText (StrokeStyle.brush st)));
           ("color", JString (StrokeStyle.color st));
           ("size", numberJSON (StrokeStyle.size st))].

(** An [undefined] property is left out. *)
Definition strokeJSON (s : StrokeElement.t) : json :=
  JObject ([("id", JString (StrokeElement.id s));
            ("kind", JString "stroke");
            ("points", JArray (map pointJSON (StrokeElement.points s)));
            ("style", styleJSON (StrokeElement.style s))]
           ++ match StrokeElement.dots s with
              | Some ds => [("dots", JArray (map dotJSON ds))]
              | None => []
              end).

Definition shapeJSON (s : ShapeElement.t) : json :=
  JObject [("id", JString (ShapeElement.id s));
           ("kind", JString "shape");
           ("shape", JString (shapeTypeText (ShapeElement.shape s)));
           ("x1", numberJSON (ShapeElement.x1 s));
           ("y1", numberJSON (ShapeElement.y1 s));
           ("x2", numberJSON (ShapeElement.x2 s));
           ("y2", numberJSON (ShapeElement.y2 s));
           ("color", JString (ShapeElement.color s));
           ("size", numberJSON (ShapeElement.size s))].

Definition elementJSON (el : Element) : json :=
  match el with
  | Stroke s => strokeJSON s
  | Shape s => shapeJSON s
  end.

Definition sceneJSON (scene : Scene) : json := JArray (map elementJSON scene).

(** Reading a parsed value at the type the component casts it to
    ([as Element[]]).  The cast checks nothing; a value that is not laid
    out as an element has no counterpart in [Element] and reads as [None]. *)

Fixpoint traverse {A B : Type} (f : A -> option B) (l : list A)
  : option (list B) :=
  match l with
  | [] => Some []
  | a :: l' =>
      match f a, traverse f l' with
      | Some b, Some bs => Some (b :: bs)
      | _, _ => None
      end
  end.

Definition asNumber (j : json) : option number :=
  match j with
  | JNumber r => Some (Fin r)
  | _ => None
  end.

Definition asBrush (s : string) : option Brush :=
  if String.eqb s "pencil" then Some Pencil
  else if String.eqb s "marker" then Some Marker
  else if String.eqb s "highlighter" then Some Highlighter
  else if String.eqb s "airbrush" then Some Airbrush
  else None.

Definition asStrokeTool (s : string) : option StrokeTool :=
  if String.eqb s "pen" then Some Pen
  else if String.eqb s "eraser" then Some Eraser
  else None.

Definition asShapeType (s : string) : option ShapeType :=
  if String.eqb s "rect" then Some Rect
  else if String.eqb s "ellipse" then Some Ellipse
  else if String.eqb s "triangle" then Some Triangle
  else if String.eqb s "star" then Some Star
  else if String.eqb s "line" then Some Line
  else if String.eqb s "pentagon" then Some Pentagon
  else if String.eqb s "tree" then Some Tree
  else if String.eqb s "umbrella" then Some Umbrella
  else if String.eqb s "heart" then Some Heart
  else None.

(** The lookup [o.key] on a parsed object (a parsed object has each key
    once), and on any parsed value. *)
Fixpoint member (key : string) (members : list (string * json)) : option json :=
  match members with
  | [] => None
  | (k, v) :: rest => if String.eqb k key then Some v else member key rest
  end.

Definition getMember (j : json) (key : string) : option json :=
  match j with
  | JObject members => member key members
  | _ => None
  end.

(** The readers look a member up by its name: the order of the members
    of the stored object does not matter, and members the component never
    reads are passed over. *)
Definition asPoint (j : json) : option Point.t :=
  match getMember j "x", getMember j "y" with
  | Some jx, Some jy =>
      match asNumber jx, asNumber jy with
      | Some x, Some y => Some (Point.mk x y)
      | _, _ => None
      end
  | _, _ => None
  end.

Definition asDot (j : json) : option Dot.t :=
  match getMember j "x", getMember j "y", getMember j "r", getMember j "a" with
  | Some jx, Some jy, Some jr, Some ja =>
      match asNumber jx, asNumber jy, asNumber jr, asNumber ja with
      | Some x, Some y, Some r, Some a => Some (Dot.mk x y r a)
      | _, _, _, _ => None
      end
  | _, _, _, _ => None
  end.

Definition asStyle (j : json) : option StrokeStyle.t :=
  match getMember j "tool", getMember j "brush",
        getMember j "color", getMember j "size" with
  | Some (JString t), Some (JString b), Some (JString c), Some js =>
      match asStrokeTool t, asBrush b, asNumber js with
      | Some t', Some b', Some s' => Some (StrokeStyle.mk t' b' c s')
      | _, _, _ => None
      end
  | _, _, _, _ => None
  end.

Definition asStroke (j : json) : option StrokeElement.t :=
  match getMember j "id", getMember j "points", getMember j "style" with
  | Some (JString i), Some (JArray ps), Some st =>
      match traverse asPoint ps, asStyle st with
      | Some ps', Some st' =>
          match getMember j "dots" with
          | None => Some (StrokeElement.mk i ps' st' None)
          | Some (JArray ds) =>
              match traverse asDot ds with
              | Some ds' => Some (StrokeElement.mk i ps' st' (Some ds'))
              | None => None
              end
          | Some _ => None
          end
      | _, _ => None
      end
  | _, _, _ => None
  end.

Definition asShape (j : json) : option ShapeElement.t :=
  match getMember j "id", getMember j "shape", getMember j "color" with
  | Some (JString i), Some (JString k), Some (JString c) =>
      match getMember j "x1", getMember j "y1", getMember j "x2",
            getMember j "y2", getMember j "size" with
      | Some jx1, Some jy1, Some jx2, Some jy2, Some js =>
          match asShapeType k, asNumber jx1, asNumber jy1,
                asNumber jx2, asNumber jy2, asNumber js with
          | Some k', Some a1, Some b1, Some a2, Some b2, Some s' =>
              Some (ShapeElement.mk i k' a1 b1 a2 b2 c s')
          | _, _, _, _, _, _ => None
          end
      | _, _, _, _, _ => None
      end
  | _, _, _ => None
  end.

Definition asElement (j : json) : option Element :=
  match getMember j "kind" with
  | Some (JString k) =>
      if String.eqb k "stroke" then option_map Stroke (asStroke j)
      else if String.eqb k "shape" then option_map Shape (asShape j)
      else None
  | _ => None
  end.

Definition asScene (items : list json) : option Scene :=
  traverse asElement items.

(** ** Component state

    The [useState] cells and [useRef] boxes of [App] that the scene engine
    reads or writes, the item stored under [STORAGE_KEY], and the number of
    [Math.random()] calls made so far. *)

Inductive DragMode : Type := ModeNone | ModeMove.

Module Anchors.
Record t : Type := mk { x1 : number; y1 : number; x2 : number; y2 : number }.
End Anchors.

Module DragRef.
Record t : Type := mk {
  mode : DragMode;
  id : string;
  start : Point.t;
  orig : Anchors.t
}.
End DragRef.

(** The text stored under [STORAGE_KEY], seen through [JSON.parse]:
    either it parses to a value or parsing throws. *)
Inductive StorageItem : Type :=
| TextOf (j : json)
| Unparsable.

Record State : Type := mkState {
  tool : Tool;
  shapeTypeRef : ShapeType;
  brush : Brush;
  color : string;
  size : number;
  elements : Scene;
  history : list Scene;
  historyIndex : Z;
  selectedId : option string;
  activeStrokeRef : option StrokeElement.t;
  activeShapeRef : option ShapeElement.t;
  dragRef : DragRef.t;
  localStorage : option StorageItem;
  randomCalls : nat
}.

Definition withElements (v : Scene) (s : State) : State :=
  mkState (tool s) (shapeTypeRef s) (brush s) (color s) (size s) v (history s) (historyIndex s) (selectedId s) (activeStrokeRef s) (activeShapeRef s) (dragRef s) (localStorage s) (randomCalls s).

Definition withHistory (v : list Scene) (s : State) : State :=
  mkState (tool s) (shapeTypeRef s) (brush s) (color s) (size s) (elements s) v (historyIndex s) (selectedId s) (activeStrokeRef s) (activeShapeRef s) (dragRef s) (localStorage s) (randomCalls s).

Definition withHistoryIndex (v : Z) (s : State) : State :=
  mkState (tool s) (shapeTypeRef s) (brush s) (color s) (size s) (elements s) (history s) v (selectedId s) (activeStrokeRef s) (activeShapeRef s) (dragRef s) (localStorage s) (randomCalls s).

Definition withSelectedId (v : option string) (s : State) : State :=
  mkState (tool s) (shapeTypeRef s) (brush s) (color s) (size s) (elements s) (history s) (historyIndex s) v (activeStrokeRef s) (activeShapeRef s) (dragRef s) (localStorage s) (randomCalls s).

Definition withActiveStrokeRef (v : option StrokeElement.t) (s : State) : State :=
  mkState (tool s) (shapeTypeRef s) (brush s) (color s) (size s) (elements s) (history s) (historyIndex s) (selectedId s) v (activeShapeRef s) (dragRef s) (localStorage s) (randomCalls s).

Definition withActiveShapeRef (v : option ShapeElement.t) (s : State) : State :=
  mkState (tool s) (shapeTypeRef s) (brush s) (color s) (size s) (elements s) (history s) (historyIndex s) (selectedId s) (activeStrokeRef s) v (dragRef s) (localStorage s) (randomCalls s).

Definition withDragRef (v : DragRef.t) (s : State) : State :=
  mkState (tool s) (shapeTypeRef s) (brush s) (color s) (size s) (elements s) (history s) (historyIndex s) (selectedId s) (activeStrokeRef s) (activeShapeRef s) v (localStorage s) (randomCalls s).

Definition withLocalStorage (v : option StorageItem) (s : State) : State :=
  mkState (tool s) (shapeTypeRef s) (brush s) (color s) (size s) (elements s) (history s) (historyIndex s) (selectedId s) (activeStrokeRef s) (activeShapeRef s) (dragRef s) v (randomCalls s).

Definition withRandomCalls (v : nat) (s : State) : State :=
  mkState (tool s) (shapeTypeRef s) (brush s) (color s) (size s) (elements s) (history s) (historyIndex s) (selectedId s) (activeStrokeRef s) (activeShapeRef s) (dragRef s) (localStorage s) v.

Definition withTool (v : Tool) (s : State) : State :=
  mkState v (shapeTypeRef s) (brush s) (color s) (size s) (elements s) (history s) (historyIndex s) (selectedId s) (activeStrokeRef s) (activeShapeRef s) (dragRef s) (localStorage s) (randomCalls s).

Definition withBrush (v : Brush) (s : State) : State :=
  mkState (tool s) (shapeTypeRef s) v (color s) (size s) (elements s) (history s) (historyIndex s) (selectedId s) (activeStrokeRef s) (activeShapeRef s) (dragRef s) (localStorage s) (randomCalls s).

Definition withSize (v : number) (s : State) : State :=
  mkState (tool s) (shapeTypeRef s) (brush s) (color s) v (elements s) (history s) (historyIndex s) (selectedId s) (activeStrokeRef s) (activeShapeRef s) (dragRef s) (localStorage s) (randomCalls s).

(** Initial values of the cells ([useState] and [useRef] arguments). *)
Definition initialState : State :=
  {| tool := ToolPen;
     shapeTypeRef := Rect;
     brush := Pencil;
     color := "#111111";
     size := Fin 6;
     elements := [];
     history := [];
     historyIndex := (-1)%Z;
     selectedId := None;
     activeStrokeRef := None;
     activeShapeRef := None;
     dragRef := DragRef.mk ModeNone "" (Point.mk (Fin 0) (Fin 0))
                  (Anchors.mk (Fin 0) (Fin 0) (Fin 0) (Fin 0));
     localStorage := None;
     randomCalls := 0%nat |}.

(** ** Pointer events *)

Module PointerEvent.
Record t : Type := mk { clientX : number; clientY : number }.
End PointerEvent.

(** The canvas element, reduced to [getBoundingClientRect()]. *)
Module Canvas.
Record t : Type := mk { left : number; top : number }.
End Canvas.

Definition getCanvasPoint (e : PointerEvent.t) (canvas : Canvas.t) : Point.t :=
  Point.mk (PointerEvent.clientX e - Canvas.left canvas)
           (PointerEvent.clientY e - Canvas.top canvas).

(** ** Loops bounded by a number

    [iterationsLe b] is the number of turns of
    [for (let i = 0; i <= b; i++)], and [iterationsLt b] of
    [for (let j = 0; j < b; j++)]; [None] when the loop never ends.  The
    counter is taken to count exactly, as it does up to [2^53]: a loop
    with a larger finite bound, which the source never leaves either, is
    not represented. *)

Definition iterationsLe (bound : number) : option nat :=
  match bound with
  | Fin b => Some (Z.to_nat (Zfloor b + 1))
  | PInf => None
  | _ => Some 0%nat
  end.

Definition iterationsLt (bound : number) : option nat :=
  match bound with
  | Fin b => Some (Z.to_nat (Zceil b))
  | PInf => None
  | _ => Some 0%nat
  end.

(** ** History snapshots *)

Definition clonePoint (p : Point.t) : Point.t :=
  Point.mk (Point.x p) (Point.y p).

Definition cloneDot (d : Dot.t) : Dot.t :=
  Dot.mk (Dot.x d) (Dot.y d) (Dot.r d) (Dot.a d).

Definition cloneStyle (st : StrokeStyle.t) : StrokeStyle.t :=
  StrokeStyle.mk (StrokeStyle.tool st) (StrokeStyle.brush st)
    (StrokeStyle.color st) (StrokeStyle.size st).

Definition cloneElement (el : Element) : Element :=
  match el with
  | Stroke s =>
      Stroke (StrokeElement.mk (StrokeElement.id s)
                (map clonePoint (StrokeElement.points s))
                (cloneStyle (StrokeElement.style s))
                (option_map (map cloneDot) (StrokeElement.dots s)))
  | Shape s =>
      Shape (ShapeElement.mk (ShapeElement.id s) (ShapeElement.shape s)
               (ShapeElement.x1 s) (ShapeElement.y1 s)
               (ShapeElement.x2 s) (ShapeElement.y2 s)
               (ShapeElement.color s) (ShapeElement.size s))
  end.

(** [structuredClone(scene)]: a fresh copy of every array and object of
    the scene.  (The [JSON] fallback is taken only where the engine has no
    [structuredClone].) *)
Definition deepCloneScene (scene : Scene) : Scene := map cloneElement scene.

(** The record [pushHistory] writes under [STORAGE_KEY]. *)
Definition persisted (snapshot : Scene) (index : Z) : json :=
  JObject [("scene", sceneJSON snapshot); ("historyIndex", JNumber (IZR index))].

(** The body of [pushHistory].  It reads the history twice: the updater
    passed to [setHistory] receives the current list ([prev], here
    [history s]), while [history] and [historyIndex] are the values of the
    render in which the calling handler was created ([closureHistory],
    [closureIndex]).  Writing to the storage is assumed to succeed (the
    code ignores a failure). *)
Definition pushHistoryFrom (closureHistory : list Scene) (closureIndex : Z)
  (nextScene : Scene) (s : State) : State :=
  let snapshot := deepCloneScene nextScene in
  let history' :=
    let prev := history s in
    let base :=
      if (0 <=? closureIndex)%Z
      then firstn (Z.to_nat (closureIndex + 1)) prev
      else [] in
    base ++ [snapshot] in
  let historyIndex' :=
    let baseLen :=
      if (0 <=? closureIndex)%Z
      then List.length (firstn (Z.to_nat (closureIndex + 1)) closureHistory)
      else 0%nat in
    Z.of_nat baseLen in
  let item :=
    persisted snapshot
      (if (0 <=? closureIndex)%Z then closureIndex + 1 else 0)%Z in
  withLocalStorage (Some (TextOf item))
    (withHistoryIndex historyIndex' (withHistory history' s)).

(** [pushHistory] called from a handler of the current render.  The
    pointer handlers are created again whenever [tool], [brush], [color],
    [size], [elements] or [selectedId] changes, the keyboard handlers
    whenever [history] or [historyIndex] changes, so this is the case after
    every commit, undo, redo, clear and load. *)
Definition pushHistory (nextScene : Scene) (s : State) : State :=
  pushHistoryFrom (history s) (historyIndex s) nextScene s.

Definition canUndo (s : State) : bool := (0 <? historyIndex s)%Z.

Definition canRedo (s : State) : bool :=
  (0 <=? historyIndex s)%Z
  && (historyIndex s <? Z.of_nat (List.length (history s)) - 1)%Z.

(** [history[i]]: [undefined] outside the array. *)
Definition historyAt (s : State) (i : Z) : option Scene :=
  if (i <? 0)%Z then None else nth_error (history s) (Z.to_nat i).

Definition undo (s : State) : State :=
  if negb (canUndo s) then s
  else
    let nextIndex := (historyIndex s - 1)%Z in
    match historyAt s nextIndex with
    | None => s
    | Some snap =>
        withSelectedId None (withElements snap (withHistoryIndex nextIndex s))
    end.

Definition redo (s : State) : State :=
  if negb (canRedo s) then s
  else
    let nextIndex := (historyIndex s + 1)%Z in
    match historyAt s nextIndex with
    | None => s
    | Some snap =>
        withSelectedId None (withElements snap (withHistoryIndex nextIndex s))
    end.

Definition clearBoard (s : State) : State :=
  withLocalStorage (Some (TextOf (persisted [] 0)))
    (withHistoryIndex 0%Z
       (withHistory [[]] (withElements [] (withSelectedId None s)))).

(** Truthiness of an optional identifier ([if (id)]): neither [null] nor
    the empty string. *)
Definition truthyId (i : option string) : option string :=
  match i with
  | Some EmptyString => None
  | _ => i
  end.

Definition deleteSelected (s : State) : State :=
  match truthyId (selectedId s) with
  | None => s
  | Some sel =>
      let next :=
        filter (fun el => negb (String.eqb (elementId el) sel)) (elements s) in
      pushHistory next (withElements next (withSelectedId None s))
  end.

(** The effect that restores the stored scene when the component mounts.
    The result is [None] when the stored array is not laid out as
    elements: the component would then hold values that [Element] does
    not describe. *)
Definition loadEffect (s : State) : option State :=
  match localStorage s with
  | None => Some s
  | Some Unparsable => Some s
  | Some (TextOf parsed) =>
      match parsed with
      | JObject members =>
          match member "scene" members with
          | Some (JArray items) =>
              match asScene items with
              | Some scene =>
                  Some (withSelectedId None
                          (withHistoryIndex 0%Z
                             (withHistory [deepCloneScene scene]
                                (withElements scene s))))
              | None => None
              end
          | _ => Some s
          end
      | _ => Some s
      end
  end.

(** The effect of the first render that seeds the history. *)
Definition seedHistory (s : State) : State :=
  if (historyIndex s =? -1)%Z && Nat.eqb (List.length (history s)) 0
  then withHistoryIndex 0%Z (withHistory [[]] s)
  else s.

(** ** Airbrush sampler and pointer handlers *)

Section Runtime.

(** [random k] is the value of the [k]-th call of [Math.random()], and
    [idText k] the identifier [makeId] builds when its call of
    [Math.random()] is the [k]-th one. *)
Variable random : nat -> R.
Variable idText : nat -> string.

Definition makeId (k : nat) : string * nat := (idText k, S k).

(** Body of the inner loop of [addAirbrushDots]: one particle around
    [(x, y)], drawn from the calls [k], [k+1] and [k+2]. *)
Definition airbrushDot (radius x y : number) (k : nat) : Dot.t :=
  let ang := Fin (random k) * Math.PI * Fin 2 in
  let r := Fin (random (k + 1)) * radius in
  let dx := Math.cos ang * r in
  let dy := Math.sin ang * r in
  let dotSize := Math.max (Fin 1) (Fin (random (k + 2)) * (radius / Fin 3)) in
  Dot.mk (x + dx) (y + dy) dotSize (Fin (20 / 100)).

(** The inner loop, [j = 0 .. count - 1]. *)
Fixpoint airbrushBurst (radius x y : number) (count k : nat) : list Dot.t :=
  match count with
  | O => []
  | S c => airbrushDot radius x y k :: airbrushBurst radius x y c (k + 3)
  end.

(** The outer loop from turn [i] on, [n] turns left. *)
Fixpoint airbrushSteps (from to : Point.t) (steps radius : number)
  (count i n k : nat) : list Dot.t :=
  match n with
  | O => []
  | S n' =>
      let t := ofNat i / steps in
      let x := Point.x from + (Point.x to - Point.x from) * t in
      let y := Point.y from + (Point.y to - Point.y from) * t in
      airbrushBurst radius x y count k
      ++ airbrushSteps from to steps radius count (S i) n' (k + 3 * count)
  end.

(** [addAirbrushDots(stroke, from, to)] with [k] calls of [Math.random()]
    made before it: the stroke with the new particles appended and the
    number of calls made after it; [None] when a loop never ends. *)
Definition addAirbrushDots (stroke : StrokeElement.t) (from to : Point.t)
  (k : nat) : option (StrokeElement.t * nat) :=
  let d := dist from to in
  let steps := Math.max (Fin 1) (Math.floor (d / Fin 2)) in
  let radius := Math.max (Fin 2) (StrokeStyle.size (StrokeElement.style stroke)) in
  let dots := match StrokeElement.dots stroke with
              | Some ds => ds
              | None => []
              end in
  let withDots ds :=
    StrokeElement.mk (StrokeElement.id stroke) (StrokeElement.points stroke)
      (StrokeElement.style stroke) (Some ds) in
  match iterationsLe steps with
  | None => None
  | Some O => Some (withDots dots, k)
  | Some (S n) =>
      match iterationsLt (Math.floor (radius * Fin (16 / 10))) with
      | None => None
      | Some count =>
          Some (withDots (dots ++ airbrushSteps from to steps radius count 0 (S n) k),
                (k + 3 * count * S n)%nat)
      end
  end.

Definition isAirbrushPen (st : StrokeStyle.t) : bool :=
  match StrokeStyle.tool st, StrokeStyle.brush st with
  | Pen, Airbrush => true
  | _, _ => false
  end.

(** The shapes of the scene, in scene order
    ([elements.filter((el) => el.kind === "shape")]). *)
Fixpoint shapesOf (scene : Scene) : list ShapeElement.t :=
  match scene with
  | [] => []
  | Shape sh :: rest => sh :: shapesOf rest
  | Stroke _ :: rest => shapesOf rest
  end.

(** [[...shapes].reverse().find((s) => hitTestShape(s, p))]. *)
Definition findHit (scene : Scene) (p : Point.t) : option ShapeElement.t :=
  find (fun sh => hitTestShape sh p) (rev (shapesOf scene)).

(** The translation of a shape by a drag, used by the preview and by the
    commit of a move. *)
Definition moveShape (id : string) (orig : Anchors.t) (dx dy : number)
  (el : Element) : Element :=
  match el with
  | Stroke _ => el
  | Shape sh =>
      if negb (String.eqb (ShapeElement.id sh) id) then el
      else Shape (ShapeElement.mk (ShapeElement.id sh) (ShapeElement.shape sh)
                    (Anchors.x1 orig + dx) (Anchors.y1 orig + dy)
                    (Anchors.x2 orig + dx) (Anchors.y2 orig + dy)
                    (ShapeElement.color sh) (ShapeElement.size sh))
  end.

Definition setDragMode (m : DragMode) (d : DragRef.t) : DragRef.t :=
  DragRef.mk m (DragRef.id d) (DragRef.start d) (DragRef.orig d).

(** [onPointerDown].  [canvas] is [canvasRef.current]; the result is
    [None] when the handler does not return.  Scheduling a repaint
    ([requestRedraw]) does not touch the state and is left out here and in
    the other handlers. *)
Definition onPointerDown (canvas : option Canvas.t) (e : PointerEvent.t)
  (s : State) : option State :=
  match canvas with
  | None => Some s
  | Some cv =>
      let p := getCanvasPoint e cv in
      match tool s with
      | ToolSelect =>
          match findHit (elements s) p with
          | Some hit =>
              Some (withDragRef
                      (DragRef.mk ModeMove (ShapeElement.id hit) p
                         (Anchors.mk (ShapeElement.x1 hit) (ShapeElement.y1 hit)
                            (ShapeElement.x2 hit) (ShapeElement.y2 hit)))
                      (withSelectedId (Some (ShapeElement.id hit)) s))
          | None =>
              Some (withDragRef (setDragMode ModeNone (dragRef s))
                      (withSelectedId None s))
          end
      | ToolShape =>
          let (newId, k) := makeId (randomCalls s) in
          let sh := ShapeElement.mk newId (shapeTypeRef s)
                      (Point.x p) (Point.y p) (Point.x p) (Point.y p)
                      (color s) (size s) in
          Some (withRandomCalls k
                  (withActiveShapeRef (Some sh) (withSelectedId None s)))
      | _ =>
          let (newId, k) := makeId (randomCalls s) in
          let strokeTool := match tool s with ToolEraser => Eraser | _ => Pen end in
          let st := StrokeElement.mk newId [p]
                      (StrokeStyle.mk strokeTool (brush s) (color s) (size s))
                      (match tool s, brush s with
                       | ToolEraser, _ => None
                       | _, Airbrush => Some []
                       | _, _ => None
                       end) in
          if isAirbrushPen (StrokeElement.style st) then
            match addAirbrushDots st p p k with
            | None => None
            | Some (st', k') =>
                Some (withRandomCalls k' (withActiveStrokeRef (Some st') s))
            end
          else Some (withRandomCalls k (withActiveStrokeRef (Some st) s))
      end
  end.

Definition pushPoint (st : StrokeElement.t) (p : Point.t) : StrokeElement.t :=
  StrokeElement.mk (StrokeElement.id st) (StrokeElement.points st ++ [p])
    (StrokeElement.style st) (StrokeElement.dots st).

(** [st.points[st.points.length - 1]]. *)
Definition lastPoint (st : StrokeElement.t) : option Point.t :=
  nth_error (StrokeElement.points st) (List.length (StrokeElement.points st) - 1).

(** The [Stroke preview] branch of [onPointerMove]. *)
Definition extendStroke (st : StrokeElement.t) (p : Point.t) (s : State)
  : option State :=
  let st1 := pushPoint st p in
  if isAirbrushPen (StrokeElement.style st) then
    match lastPoint st with
    | None =>
        (* [dist(undefined, p)] throws after the push *)
        Some (withActiveStrokeRef (Some st1) s)
    | Some last =>
        match addAirbrushDots st1 last p (randomCalls s) with
        | None => None
        | Some (st2, k) =>
            Some (withRandomCalls k (withActiveStrokeRef (Some st2) s))
        end
    end
  else Some (withActiveStrokeRef (Some st1) s).

Definition onPointerMove (canvas : option Canvas.t) (e : PointerEvent.t)
  (s : State) : option State :=
  match canvas with
  | None => Some s
  | Some cv =>
      let p := getCanvasPoint e cv in
      match tool s, DragRef.mode (dragRef s), activeShapeRef s, activeStrokeRef s with
      | ToolSelect, ModeMove, _, _ =>
          (* the moved scene is only painted as a preview *)
          Some s
      | ToolShape, _, Some sh, _ =>
          Some (withActiveShapeRef
                  (Some (ShapeElement.mk (ShapeElement.id sh) (ShapeElement.shape sh)
                           (ShapeElement.x1 sh) (ShapeElement.y1 sh)
                           (Point.x p) (Point.y p)
                           (ShapeElement.color sh) (ShapeElement.size sh)))
                  s)
      | ToolPen, _, _, Some st | ToolEraser, _, _, Some st => extendStroke st p s
      | _, _, _, _ => Some s
      end
  end.

(** [onPointerUp], which also serves [pointercancel].  In the move branch
    [getCanvasPoint(e, canvasRef.current!)] throws when there is no canvas,
    after the drag mode has been reset. *)
Definition onPointerUp (canvas : option Canvas.t) (e : PointerEvent.t)
  (s : State) : State :=
  match tool s, DragRef.mode (dragRef s), activeShapeRef s, activeStrokeRef s with
  | ToolSelect, ModeMove, _, _ =>
      let s1 := withDragRef (setDragMode ModeNone (dragRef s)) s in
      match truthyId (selectedId s), canvas with
      | Some id, Some cv =>
          let p := getCanvasPoint e cv in
          let dx := Point.x p - Point.x (DragRef.start (dragRef s)) in
          let dy := Point.y p - Point.y (DragRef.start (dragRef s)) in
          let next := map (moveShape id (DragRef.orig (dragRef s)) dx dy) (elements s) in
          pushHistory next (withElements next s1)
      | _, _ => s1
      end
  | ToolShape, _, Some sh, _ =>
      let next := elements s ++ [Shape sh] in
      pushHistory next (withElements next (withActiveShapeRef None s))
  | ToolPen, _, _, Some st | ToolEraser, _, _, Some st =>
      let next := elements s ++ [Stroke st] in
      pushHistory next (withElements next (withActiveStrokeRef None s))
  | _, _, _, _ => s
  end.

(** [bindPointerEvents]: the listeners attached to the canvas.  Nothing is
    attached when there is no canvas; [pointercancel] runs the handler of
    [pointerup]. *)
Inductive PointerEventType : Type :=
| pointerdown | pointermove | pointerup | pointercancel.

Definition dispatch (canvas : option Canvas.t) (ty : PointerEventType)
  (e : PointerEvent.t) (s : State) : option State :=
  match canvas with
  | None => Some s
  | Some _ =>
      match ty with
      | pointerdown => onPointerDown canvas e s
      | pointermove => onPointerMove canvas e s
      | pointerup => Some (onPointerUp canvas e s)
      | pointercancel => Some (onPointerUp canvas e s)
      end
  end.

(** A committed mutation as every call site performs it:
    [setElements(next); pushHistory(next)]. *)
Definition commit (next : Scene) (s : State) : State :=
  pushHistory next (withElements next s).

End Runtime.

(** ** Hit test with checked division

    The same computation as [hitTestShape] in which a division reports a
    zero divisor ([None]) instead of producing an infinity or NaN. *)

Definition checkedDiv (a b : number) : option number :=
  match b with
  | Fin s => if Req_dec_T s 0 then None else Some (a / b)
  | _ => Some (a / b)
  end.

Notation "'let?' x ':=' e 'in' k" :=
  (match e with Some x => k | None => None end)
  (at level 10, x name, e at level 100, k at level 200, only parsing).

Definition hitTestShapeChecked (shape : ShapeElement.t) (p : Point.t)
  : option bool :=
  let pad := Math.max (Fin 6) (ShapeElement.size shape) in
  match ShapeElement.shape shape with
  | Line =>
      let x1 := ShapeElement.x1 shape in
      let y1 := ShapeElement.y1 shape in
      let x2 := ShapeElement.x2 shape in
      let y2 := ShapeElement.y2 shape in
      let px := Point.x p in
      let py := Point.y p in
      let dx := x2 - x1 in
      let dy := y2 - y1 in
      let len2 := dx * dx + dy * dy in
      if len2 <? epsilon then
        let ddx := px - x1 in
        let ddy := py - y1 in
        Some (ddx * ddx + ddy * ddy <=? (pad + Fin 2) * (pad + Fin 2))
      else
        let? t := checkedDiv ((px - x1) * dx + (py - y1) * dy) len2 in
        let t := Math.max (Fin 0) (Math.min (Fin 1) t) in
        let cx := x1 + t * dx in
        let cy := y1 + t * dy in
        let ddx := px - cx in
        let ddy := py - cy in
        Some (ddx * ddx + ddy * ddy <=? (pad + Fin 2) * (pad + Fin 2))
  | Ellipse =>
      let r := normalizeRect (ShapeElement.x1 shape) (ShapeElement.y1 shape)
                 (ShapeElement.x2 shape) (ShapeElement.y2 shape) in
      let x := Point.x p in
      let y := Point.y p in
      let? halfW := checkedDiv (NRect.w r) (Fin 2) in
      let? halfH := checkedDiv (NRect.h r) (Fin 2) in
      let cx := NRect.left r + halfW in
      let cy := NRect.top r + halfH in
      let rx := Math.max (Fin 1) halfW + pad in
      let ry := Math.max (Fin 1) halfH + pad in
      let? nx := checkedDiv (x - cx) rx in
      let? ny := checkedDiv (y - cy) ry in
      Some (nx * nx + ny * ny <=? Fin 1)
  | _ =>
      let r := normalizeRect (ShapeElement.x1 shape) (ShapeElement.y1 shape)
                 (ShapeElement.x2 shape) (ShapeElement.y2 shape) in
      let x := Point.x p in
      let y := Point.y p in
      Some ((x >=? NRect.left r - pad) && (x <=? NRect.right r + pad)
            && (y >=? NRect.top r - pad) && (y <=? NRect.bottom r + pad))
  end.

(** ** The geometry kernel as the specification words it (section 4.1) *)

Module Spec.


Definition pointDistanceSquared (a p : Point.t) : number :=
  (Point.x p - Point.x a) * (Point.x p - Point.x a)
  + (Point.y p - Point.y a) * (Point.y p - Point.y a).

(** Squared distance from [p] to the segment: the projection parameter is
    clamped to [0, 1]; when the squared length of the segment is below the
    small epsilon it degrades to the distance to the start point. *)
Definition distanceToSegmentSquared (segStart segEnd p : Point.t) : number :=
  let dx := Point.x segEnd - Point.x segStart in
  let dy := Point.y segEnd - Point.y segStart in
  let len2 := dx * dx + dy * dy in
  if len2 <? epsilon then pointDistanceSquared segStart p
  else
    let t := Math.max (Fin 0)
               (Math.min (Fin 1)
                  (((Point.x p - Point.x segStart) * dx
                    + (Point.y p - Point.y segStart) * dy) / len2)) in
    pointDistanceSquared
      (Point.mk (Point.x segStart + t * dx) (Point.y segStart + t * dy)) p.


End Spec.

(** ** Vocabulary of the properties *)

(** The same shape dragged the other way: the two anchors exchanged. *)
Definition reverseDrag (el : ShapeElement.t) : ShapeElement.t :=
  ShapeElement.mk (ShapeElement.id el) (ShapeElement.shape el)
    (ShapeElement.x2 el) (ShapeElement.y2 el)
    (ShapeElement.x1 el) (ShapeElement.y1 el)
    (ShapeElement.color el) (ShapeElement.size el).


(** A run of commits, one per document of the list, in order. *)
Definition commitAll (docs : list Scene) (s : State) : State :=
  fold_left (fun st doc => commit doc st) docs s.

(** The two gesture states that hold an in-progress element. *)
Inductive InProgress (s : State) : Element -> Prop :=
| Drawing (st : StrokeElement.t) :
    tool s = ToolPen \/ tool s = ToolEraser ->
    activeStrokeRef s = Some st ->
    InProgress s (Stroke st)
| ShapePreview (sh : ShapeElement.t) :
    tool s = ToolShape ->
    activeShapeRef s = Some sh ->
    InProgress s (Shape sh).

(** The slot that held the in-progress element [el] is empty. *)
Definition slotCleared (el : Element) (s : State) : Prop :=
  match el with
  | Stroke _ => activeStrokeRef s = None
  | Shape _ => activeShapeRef s = None
  end.

(** A pointer event with a coordinate that is NaN or infinite. *)
Definition malformed (e : PointerEvent.t) : Prop :=
  isFinite (PointerEvent.clientX e) = false
  \/ isFinite (PointerEvent.clientY e) = false.

(** The reading of C7: a malformed pointer-move leaves the in-progress
    stroke and shape as they were. *)
Definition rejectsMalformedMoves : Prop :=
  forall (random : nat -> R) (cv : Canvas.t)
         (e : PointerEvent.t) (s s' : State),
    malformed e ->
    onPointerMove random (Some cv) e s = Some s' ->
    activeStrokeRef s' = activeStrokeRef s
    /\ activeShapeRef s' = activeShapeRef s.

(** Inputs of the worked examples: every call of [Math.random()] gives
    one half, identifiers are the letters [a], [b], ..., the canvas sits at
    the page origin, and the state is the one after the first render. *)
Definition demoRandom : nat -> R := fun _ => (1 / 2)%R.

Definition demoIdText : nat -> string :=
  fun k => String (Ascii.ascii_of_nat (97 + k)) EmptyString.

Definition demoCanvas : Canvas.t := Canvas.mk (Fin 0) (Fin 0).

Definition firstRender : State := seedHistory initialState.



(** Centre of the normalized box of a shape, and the radius [drawShape]
    gives its pentagon and the outer points of its star. *)
Definition boxOf (el : ShapeElement.t) : NRect.t :=
  normalizeRect (ShapeElement.x1 el) (ShapeElement.y1 el)
    (ShapeElement.x2 el) (ShapeElement.y2 el).






(** The pentagon drawn by the drag [(0, 0) -> (4, 4)]. *)
Definition smallPentagon : ShapeElement.t :=
  ShapeElement.mk "a" Pentagon (Fin 0) (Fin 0) (Fin 4) (Fin 4) "#111111" (Fin 6).

(** A particle sprayed around [(x, y)] with brush radius [radius]: it lies
    strictly within [radius] of the point, its own radius is between 1 and
    the larger of 1 and [radius / 3], and its alpha is 0.20. *)
Definition sprayedAround (radius x y : R) (d : Dot.t) : Prop :=
  exists dx dy r : R,
    Dot.x d = Fin (x + dx) /\ Dot.y d = Fin (y + dy)
    /\ (dx * dx + dy * dy < radius * radius)%R
    /\ Dot.r d = Fin r /\ (1 <= r <= Rmax 1 (radius / 3))%R
    /\ Dot.a d = Fin (20 / 100).

(** The reading of C3 for the size of a particle: with thickness [t],
    every particle of the stroke has a radius of at most [t / 3]. *)
Definition dotsAsStated (t : R) (st : StrokeElement.t) : Prop :=
  forall (ds : list Dot.t) (d : Dot.t),
    StrokeElement.dots st = Some ds -> In d ds ->
    exists r : R, Dot.r d = Fin r /\ (r <= t / 3)%R.

(** A pen-airbrush stroke of thickness 2 that has just received its first
    point, the origin. *)
Definition thinStroke : StrokeElement.t :=
  StrokeElement.mk "a" [Point.mk (Fin 0) (Fin 0)]
    (StrokeStyle.mk Pen Airbrush "#111111" (Fin 2)) (Some []).

(** Scenes whose numbers are all finite. *)
Definition finitePoint (p : Point.t) : bool :=
  isFinite (Point.x p) && isFinite (Point.y p).

Definition finiteDot (d : Dot.t) : bool :=
  isFinite (Dot.x d) && isFinite (Dot.y d)
  && isFinite (Dot.r d) && isFinite (Dot.a d).

Definition finiteElement (el : Element) : bool :=
  match el with
  | Stroke s =>
      forallb finitePoint (StrokeElement.points s)
      && isFinite (StrokeStyle.size (StrokeElement.style s))
      && match StrokeElement.dots s with
         | Some ds => forallb finiteDot ds
         | None => true
         end
  | Shape s =>
      isFinite (ShapeElement.x1 s) && isFinite (ShapeElement.y1 s)
      && isFinite (ShapeElement.x2 s) && isFinite (ShapeElement.y2 s)
      && isFinite (ShapeElement.size s)
  end.

Definition finiteScene (scene : Scene) : bool := forallb finiteElement scene.

(** The value stored under [STORAGE_KEY], when it parses. *)
Definition storedValue (s : State) : option json :=
  match localStorage s with
  | Some (TextOf j) => Some j
  | _ => None
  end.

(** The shapes and states of the worked examples: the rectangle dragged
    [(10, 10) -> (50, 40)], a horizontal line, two successive documents,
    and the state in the middle of a pencil stroke begun at [(10, 10)]. *)
Definition rectA : ShapeElement.t :=
  ShapeElement.mk "r" Rect (Fin 10) (Fin 10) (Fin 50) (Fin 40) "#111111" (Fin 6).



Definition lineA : ShapeElement.t :=
  ShapeElement.mk "l" Line (Fin 0) (Fin 0) (Fin 10) (Fin 0) "#111111" (Fin 2).

Definition demoDocs : list Scene :=
  [[Shape rectA]; [Shape rectA; Shape lineA]].

Definition drawingState : State :=
  match onPointerDown demoRandom demoIdText (Some demoCanvas)
          (PointerEvent.mk (Fin 10) (Fin 10)) firstRender with
  | Some s => s
  | None => firstRender
  end.

Definition drawingStroke : StrokeElement.t :=
  StrokeElement.mk "a" [Point.mk (Fin 10 - Fin 0) (Fin 10 - Fin 0)]
    (StrokeStyle.mk Pen Pencil "#111111" (Fin 6)) None.

(** The scenario of the specification: the rectangle [(10, 10) -> (50, 40)]
    is drawn with the shape tool, clicked at [(30, 25)] with the select
    tool, dragged by [(+5, +5)] and released. *)
Definition at_ (x y : R) : PointerEvent.t := PointerEvent.mk (Fin x) (Fin y).

Definition bind (o : option State) (f : State -> option State) : option State :=
  match o with
  | Some s => f s
  | None => None
  end.

Definition afterRect : option State :=
  bind (onPointerDown demoRandom demoIdText (Some demoCanvas) (at_ 10 10)
          (withTool ToolShape firstRender))
    (fun s1 =>
       bind (onPointerMove demoRandom (Some demoCanvas) (at_ 50 40) s1)
         (fun s2 => Some (onPointerUp (Some demoCanvas) (at_ 50 40) s2))).

Definition rectDrawn : ShapeElement.t :=
  ShapeElement.mk "a" Rect (Fin 10 - Fin 0) (Fin 10 - Fin 0)
    (Fin 50 - Fin 0) (Fin 40 - Fin 0) "#111111" (Fin 6).

Definition afterDrag : option State :=
  bind afterRect
    (fun s3 =>
       bind (onPointerDown demoRandom demoIdText (Some demoCanvas) (at_ 30 25)
               (withTool ToolSelect s3))
         (fun s4 =>
            bind (onPointerMove demoRandom (Some demoCanvas) (at_ 33 28) s4)
              (fun s5 => Some (onPointerUp (Some demoCanvas) (at_ 35 30) s5)))).

Definition rectMoved : ShapeElement.t :=
  let dx := (Fin 35 - Fin 0) - (Fin 30 - Fin 0) in
  let dy := (Fin 30 - Fin 0) - (Fin 25 - Fin 0) in
  ShapeElement.mk "a" Rect
    (ShapeElement.x1 rectDrawn + dx) (ShapeElement.y1 rectDrawn + dy)
    (ShapeElement.x2 rectDrawn + dx) (ShapeElement.y2 rectDrawn + dy)
    "#111111" (Fin 6).

(** The pen stroke through [(0, 0)], [(10, 0)], [(10, 10)]. *)
Definition strokeDrawn : StrokeElement.t :=
  StrokeElement.mk "a"
    [Point.mk (Fin 0 - Fin 0) (Fin 0 - Fin 0);
     Point.mk (Fin 10 - Fin 0) (Fin 0 - Fin 0);
     Point.mk (Fin 10 - Fin 0) (Fin 10 - Fin 0)]
    (StrokeStyle.mk Pen Pencil "#111111" (Fin 6)) None.

(** ** Renderer

    The calls of [drawStroke], [drawSelection] and [redraw] on the 2D
    context: those [drawShape] makes too ([ctx]) and the further ones. *)

Inductive PaintCall : Type :=
| ctx (c : CanvasCall)
| set_globalAlpha (v : number)
| set_fillStyle (v : string)
| fill
| setLineDash (segments : list number)
| rect (x y w h : number)
| setTransform (a b c d e f : number)
| clearRect (x y w h : number).

Definition applyStrokeStyle (s : StrokeStyle.t) : list PaintCall :=
  [ ctx (set_lineJoin "round"); ctx (set_lineCap "round");
    set_globalAlpha (Fin 1) ]
  ++ match StrokeStyle.tool s with
     | Eraser =>
         [ ctx (set_globalCompositeOperation "destination-out");
           ctx (set_strokeStyle "rgba(0,0,0,1)");
           ctx (set_lineWidth (StrokeStyle.size s * Fin (125 / 100))) ]
     | Pen =>
         ctx (set_strokeStyle (StrokeStyle.color s))
         :: match StrokeStyle.brush s with
            | Pencil =>
                [ ctx (set_globalCompositeOperation "source-over");
                  set_globalAlpha (Fin 1);
                  ctx (set_lineWidth (StrokeStyle.size s)) ]
            | Marker =>
                [ ctx (set_globalCompositeOperation "source-over");
                  set_globalAlpha (Fin (75 / 100));
                  ctx (set_lineWidth (StrokeStyle.size s * Fin (135 / 100))) ]
            | Highlighter =>
                [ ctx (set_globalCompositeOperation "multiply");
                  set_globalAlpha (Fin (28 / 100));
                  ctx (set_lineWidth (StrokeStyle.size s * Fin (22 / 10))) ]
            | Airbrush =>
                [ ctx (set_globalCompositeOperation "source-over");
                  set_globalAlpha (Fin (35 / 100));
                  ctx (set_lineWidth (StrokeStyle.size s)) ]
            end
     end.

(** Body of the loop over the stored particles; [arc] is called without
    its last argument, which then is [false]. *)
Definition drawDot (d : Dot.t) : list PaintCall :=
  [ set_globalAlpha (Dot.a d);
    ctx beginPath;
    ctx (arc (Dot.x d) (Dot.y d) (Dot.r d) (Fin 0) (Math.PI * Fin 2) false);
    fill ].

Definition drawStroke (el : StrokeElement.t) : list PaintCall :=
  match StrokeElement.points el with
  | [] => []
  | p0 :: rest =>
      if isAirbrushPen (StrokeElement.style el) then
        let dots := match StrokeElement.dots el with
                    | Some ds => ds
                    | None => []
                    end in
        [ ctx save;
          ctx (set_globalCompositeOperation "source-over");
          set_fillStyle (StrokeStyle.color (StrokeElement.style el)) ]
        ++ flat_map drawDot dots
        ++ [ ctx restore ]
      else
        [ ctx save ]
        ++ applyStrokeStyle (StrokeElement.style el)
        ++ [ ctx beginPath; ctx (moveTo (Point.x p0) (Point.y p0)) ]
        ++ map (fun p => ctx (lineTo (Point.x p) (Point.y p))) rest
        ++ [ ctx stroke; ctx restore ]
  end.

(** Body of the loop over the four handles, [s = 6]. *)
Definition drawHandle (h : Point.t) : list PaintCall :=
  let s := Fin 6 in
  [ ctx beginPath;
    rect (Point.x h - s / Fin 2) (Point.y h - s / Fin 2) s s;
    fill;
    ctx stroke ].

Definition drawSelection (el : ShapeElement.t) : list PaintCall :=
  let r := normalizeRect (ShapeElement.x1 el) (ShapeElement.y1 el)
             (ShapeElement.x2 el) (ShapeElement.y2 el) in
  let handles :=
    [ Point.mk (NRect.left r) (NRect.top r);
      Point.mk (NRect.right r) (NRect.top r);
      Point.mk (NRect.right r) (NRect.bottom r);
      Point.mk (NRect.left r) (NRect.bottom r) ] in
  [ ctx save;
    ctx (set_globalCompositeOperation "source-over");
    setLineDash [Fin 6; Fin 6];
    ctx (set_lineWidth (Fin 1));
    ctx (set_strokeStyle "rgba(0,0,0,0.55)");
    ctx (strokeRect (NRect.left r - Fin 3) (NRect.top r - Fin 3)
           (NRect.w r + Fin 6) (NRect.h r + Fin 6));
    setLineDash [];
    set_fillStyle "#ffffff";
    ctx (set_strokeStyle "rgba(0,0,0,0.65)") ]
  ++ flat_map drawHandle handles
  ++ [ ctx restore ].

(** ** The drawing state of the context

    [save] pushes the current drawing state (styles, line settings,
    alpha, composite operation, dash list, transform) on the stack of the
    context and [restore] pops it, doing nothing on an empty stack.
    What the other calls do to the current state is [effect]. *)
Definition runCall {S : Type} (effect : PaintCall -> S -> S) (c : PaintCall)
  (g : S * list S) : S * list S :=
  match c with
  | ctx save => (fst g, fst g :: snd g)
  | ctx restore =>
      match snd g with
      | [] => g
      | top :: rest => (top, rest)
      end
  | _ => (effect c (fst g), snd g)
  end.

Definition runCalls {S : Type} (effect : PaintCall -> S -> S)
  (calls : list PaintCall) (g : S * list S) : S * list S :=
  fold_left (fun g c => runCall effect c g) calls g.

(** [sizeRef.current]. *)
Module SizeRef.
Record t : Type := mk { w : number; h : number; dpr : number }.
End SizeRef.

Definition drawElement (el : Element) : list PaintCall :=
  match el with
  | Stroke s => drawStroke s
  | Shape s => map ctx (drawShape s)
  end.

(** [scene.find((e) => e.kind === "shape" && e.id === selectedId)]. *)
Definition findSelected (scene : Scene) (sel : string) : option ShapeElement.t :=
  match find (fun e => match e with
                       | Shape sh => String.eqb (ShapeElement.id sh) sel
                       | Stroke _ => false
                       end) scene with
  | Some (Shape sh) => Some sh
  | _ => None
  end.

(** [redraw], with a 2D context at hand (without one it does nothing);
    [selectedId] is the one of the render that scheduled the repaint. *)
Definition redraw (sz : SizeRef.t) (selectedId : option string) (scene : Scene)
  (activeStroke : option StrokeElement.t) (activeShape : option ShapeElement.t)
  : list PaintCall :=
  [ ctx save;
    setTransform (Fin 1) (Fin 0) (Fin 0) (Fin 1) (Fin 0) (Fin 0);
    clearRect (Fin 0) (Fin 0) (SizeRef.w sz * SizeRef.dpr sz)
      (SizeRef.h sz * SizeRef.dpr sz);
    ctx restore ]
  ++ flat_map drawElement scene
  ++ match activeStroke with
     | Some st => drawStroke st
     | None => []
     end
  ++ match activeShape with
     | Some sh => map ctx (drawShape sh)
     | None => []
     end
  ++ match truthyId selectedId with
     | Some sel =>
         match findSelected scene sel with
         | Some found => drawSelection found
         | None => []
         end
     | None => []
     end.

(** The canvas set-up on a resize: [width], [height] are those of the
    container and [ratio] is [window.devicePixelRatio]. *)
Definition orElse (a b : number) : number :=
  match a with
  | NaN => b
  | Fin r => if Req_dec_T r 0 then b else a
  | _ => a
  end.

Module Backing.
Record t : Type := mk { width : number; height : number; sizeRef : SizeRef.t }.
End Backing.

Definition resize (width height ratio : number) : Backing.t :=
  let dpr := orElse ratio (Fin 1) in
  let w := Math.max (Fin 1) (Math.floor width) in
  let h := Math.max (Fin 1) (Math.floor height) in
  Backing.mk (Math.max (Fin 1) (Math.floor (w * dpr)))
    (Math.max (Fin 1) (Math.floor (h * dpr)))
    (SizeRef.mk w h dpr).

(** [clamp] *)
Definition clamp (n min max : number) : number :=
  Math.max min (Math.min max n).

(** ** Drag preview

    The scene [onPointerMove] paints while a shape is dragged (the state
    itself is left as it is until the release). *)
Definition dragPreview (cv : Canvas.t) (e : PointerEvent.t) (s : State) : Scene :=
  let p := getCanvasPoint e cv in
  let dx := Point.x p - Point.x (DragRef.start (dragRef s)) in
  let dy := Point.y p - Point.y (DragRef.start (dragRef s)) in
  let id := DragRef.id (dragRef s) in
  map (moveShape id (DragRef.orig (dragRef s)) dx dy) (elements s).

(** ** Keyboard shortcuts *)

Module KeyboardEvent.
Record t : Type := mk {
  key : string;
  ctrlKey : bool;
  metaKey : bool;
  shiftKey : bool
}.
End KeyboardEvent.

(** [toLowerCase] on the letters [A] to [Z]; the handler only compares
    the result with ["z"] and ["y"]. *)
Definition lowerAscii (c : Ascii.ascii) : Ascii.ascii :=
  let n := Ascii.nat_of_ascii c in
  if Nat.leb 65 n && Nat.leb n 90 then Ascii.ascii_of_nat (n + 32) else c.

Fixpoint toLowerCase (s : string) : string :=
  match s with
  | EmptyString => EmptyString
  | String c rest => String (lowerAscii c) (toLowerCase rest)
  end.

Definition onKey (e : KeyboardEvent.t) (s : State) : State :=
  let isMod := KeyboardEvent.ctrlKey e || KeyboardEvent.metaKey e in
  let key := KeyboardEvent.key e in
  if String.eqb key "Escape" then withSelectedId None s
  else if String.eqb key "Delete" || String.eqb key "Backspace" then
    match truthyId (selectedId s) with
    | Some _ => deleteSelected s
    | None => s
    end
  else if negb isMod then s
  else if String.eqb (toLowerCase key) "z" && negb (KeyboardEvent.shiftKey e)
  then undo s
  else if (String.eqb (toLowerCase key) "z" && KeyboardEvent.shiftKey e)
          || String.eqb (toLowerCase key) "y"
  then redo s
  else s.

(** ** The effects of the first render

    The loading effect and the seeding effect run in this order after the
    first render.  Both read the values of that render, so the seeding
    effect finds the history empty whatever was loaded, and its updates
    are applied after those of the loading effect. *)
Definition mountEffects (s : State) : option State :=
  match loadEffect s with
  | None => None
  | Some loaded =>
      if (historyIndex s =? -1)%Z && Nat.eqb (List.length (history s)) 0
      then Some (withHistoryIndex 0%Z (withHistory [[]] loaded))
      else Some loaded
  end.

(** ** Everything the user can do

    Pointer and keyboard events, the buttons of the action bar and the
    controls that pick the tool, the shape kind, the brush, the colour and
    the size.  A pointer event names the render whose listeners handle
    it; the keyboard listener and the buttons are those of the current
    render. *)

Definition withColor (v : string) (s : State) : State :=
  mkState (tool s) (shapeTypeRef s) (brush s) v (size s) (elements s)
    (history s) (historyIndex s) (selectedId s) (activeStrokeRef s)
    (activeShapeRef s) (dragRef s) (localStorage s) (randomCalls s).

Definition withShapeTypeRef (v : ShapeType) (s : State) : State :=
  mkState (tool s) v (brush s) (color s) (size s) (elements s)
    (history s) (historyIndex s) (selectedId s) (activeStrokeRef s)
    (activeShapeRef s) (dragRef s) (localStorage s) (randomCalls s).

(** The listeners stay attached until [tool], [brush], [color], [size],
    [elements] or [selectedId] changes.  [history] and [historyIndex] are
    not among these, and the seeding effect of the first render changes
    them alone: until one of the six changes, the attached [onPointerUp]
    commits with the history of the first render.  [onPointerUpFrom] is
    [onPointerUp] as created in a render with the given history and
    cursor. *)
Definition onPointerUpFrom (closureHistory : list Scene) (closureIndex : Z)
  (canvas : option Canvas.t) (e : PointerEvent.t) (s : State) : State :=
  match tool s, DragRef.mode (dragRef s), activeShapeRef s, activeStrokeRef s with
  | ToolSelect, ModeMove, _, _ =>
      let s1 := withDragRef (setDragMode ModeNone (dragRef s)) s in
      match truthyId (selectedId s), canvas with
      | Some id, Some cv =>
          let p := getCanvasPoint e cv in
          let dx := Point.x p - Point.x (DragRef.start (dragRef s)) in
          let dy := Point.y p - Point.y (DragRef.start (dragRef s)) in
          let next := map (moveShape id (DragRef.orig (dragRef s)) dx dy) (elements s) in
          pushHistoryFrom closureHistory closureIndex next (withElements next s1)
      | _, _ => s1
      end
  | ToolShape, _, Some sh, _ =>
      let next := elements s ++ [Shape sh] in
      pushHistoryFrom closureHistory closureIndex next
        (withElements next (withActiveShapeRef None s))
  | ToolPen, _, _, Some st | ToolEraser, _, _, Some st =>
      let next := elements s ++ [Stroke st] in
      pushHistoryFrom closureHistory closureIndex next
        (withElements next (withActiveStrokeRef None s))
  | _, _, _, _ => s
  end.

(** The render whose listeners handle a pointer event. *)
Inductive Binding : Type := FirstRender | CurrentRender.

Definition dispatchBound (random : nat -> R) (idText : nat -> string)
  (b : Binding) (canvas : option Canvas.t) (ty : PointerEventType)
  (e : PointerEvent.t) (s : State) : option State :=
  match b, ty, canvas with
  | FirstRender, pointerup, Some _ | FirstRender, pointercancel, Some _ =>
      Some (onPointerUpFrom (history initialState) (historyIndex initialState)
              canvas e s)
  | _, _, _ => dispatch random idText canvas ty e s
  end.

Inductive Command : Type :=
| Pointer (b : Binding) (ty : PointerEventType) (e : PointerEvent.t)
| Key (e : KeyboardEvent.t)
| ClickUndo
| ClickRedo
| ClickClear
| ClickDelete
| PickTool (t : Tool)
| PickShape (k : ShapeType)
| PickBrush (b : Brush)
| PickColor (c : string)
| PickSize (n : number).

Definition step (random : nat -> R) (idText : nat -> string)
  (canvas : option Canvas.t) (c : Command) (s : State) : option State :=
  match c with
  | Pointer b ty e => dispatchBound random idText b canvas ty e s
  | Key e => Some (onKey e s)
  | ClickUndo => Some (undo s)
  | ClickRedo => Some (redo s)
  | ClickClear => Some (clearBoard s)
  | ClickDelete => Some (deleteSelected s)
  | PickTool t => Some (withTool t s)
  | PickShape k => Some (withShapeTypeRef k s)
  | PickBrush b => Some (withBrush b s)
  | PickColor c => Some (withColor c s)
  | PickSize n => Some (withSize n s)
  end.

Fixpoint runCommands (random : nat -> R) (idText : nat -> string)
  (canvas : option Canvas.t) (cs : list Command) (s : State) : option State :=
  match cs with
  | [] => Some s
  | c :: rest =>
      match step random idText canvas c s with
      | Some s' => runCommands random idText canvas rest s'
      | None => None
      end
  end.

(** The document is the snapshot under the history cursor. *)
Definition historySynced (s : State) : Prop :=
  historyAt s (historyIndex s) = Some (elements s).

(** A stroke as [onPointerDown] builds it: at least one point, and a
    [dots] array exactly when it is a pen stroke with the airbrush. *)
Definition strokeOk (st : StrokeElement.t) : bool :=
  match StrokeElement.points st with
  | [] => false
  | _ :: _ => true
  end
  && Bool.eqb (match StrokeElement.dots st with
               | Some _ => true
               | None => false
               end)
       (isAirbrushPen (StrokeElement.style st)).

Definition elementOk (el : Element) : bool :=
  match el with
  | Stroke st => strokeOk st
  | Shape _ => true
  end.

Definition sceneOk (scene : Scene) : bool := forallb elementOk scene.

Definition strokesOk (s : State) : bool :=
  sceneOk (elements s)
  && forallb sceneOk (history s)
  && match activeStrokeRef s with
     | Some st => strokeOk st
     | None => true
     end.

(** ** The themed variant ([whiteboard-themed/src/App.tsx])

    It knows two shape kinds and tests the kind with a single [if]. *)
Module Themed.

Inductive ShapeType : Type := Rect | Ellipse.

Module ShapeElement.
Record t : Type := mk {
  id : string;
  shape : ShapeType;
  x1 : number;
  y1 : number;
  x2 : number;
  y2 : number;
  color : string;
  size : number
}.
End ShapeElement.

Definition hitTestShape (shape : ShapeElement.t) (p : Point.t) : bool :=
  let r := normalizeRect (ShapeElement.x1 shape) (ShapeElement.y1 shape)
             (ShapeElement.x2 shape) (ShapeElement.y2 shape) in
  let pad := Math.max (Fin 6) (ShapeElement.size shape) in
  let x := Point.x p in
  let y := Point.y p in
  match ShapeElement.shape shape with
  | Rect =>
      (x >=? NRect.left r - pad) && (x <=? NRect.right r + pad)
      && (y >=? NRect.top r - pad) && (y <=? NRect.bottom r + pad)
  | Ellipse =>
      let cx := NRect.left r + NRect.w r / Fin 2 in
      let cy := NRect.top r + NRect.h r / Fin 2 in
      let rx := Math.max (Fin 1) (NRect.w r / Fin 2) + pad in
      let ry := Math.max (Fin 1) (NRect.h r / Fin 2) + pad in
      let nx := (x - cx) / rx in
      let ny := (y - cy) / ry in
      nx * nx + ny * ny <=? Fin 1
  end.

Definition drawShape (el : ShapeElement.t) : list CanvasCall :=
  let r := normalizeRect (ShapeElement.x1 el) (ShapeElement.y1 el)
             (ShapeElement.x2 el) (ShapeElement.y2 el) in
  [ save;
    set_globalCompositeOperation "source-over";
    set_strokeStyle (ShapeElement.color el);
    set_lineWidth (Math.max (Fin 1) (ShapeElement.size el));
    set_lineJoin "round";
    set_lineCap "round" ]
  ++ match ShapeElement.shape el with
     | Rect => [ strokeRect (NRect.left r) (NRect.top r) (NRect.w r) (NRect.h r) ]
     | Ellipse =>
         let cx := NRect.left r + NRect.w r / Fin 2 in
         let cy := NRect.top r + NRect.h r / Fin 2 in
         [ beginPath;
           ellipse cx cy (Math.max (Fin 1) (NRect.w r / Fin 2))
             (Math.max (Fin 1) (NRect.h r / Fin 2))
             (Fin 0) (Fin 0) (Math.PI * Fin 2);
           stroke ]
     end
  ++ [ restore ].

End Themed.

(** A shape of the themed variant as a shape of the main one. *)
Definition ofThemed (el : Themed.ShapeElement.t) : ShapeElement.t :=
  ShapeElement.mk (Themed.ShapeElement.id el)
    (match Themed.ShapeElement.shape el with
     | Themed.Rect => Rect
     | Themed.Ellipse => Ellipse
     end)
    (Themed.ShapeElement.x1 el) (Themed.ShapeElement.y1 el)
    (Themed.ShapeElement.x2 el) (Themed.ShapeElement.y2 el)
    (Themed.ShapeElement.color el) (Themed.ShapeElement.size el).

(** ** Further vocabulary *)

(** A selection that is not empty names a shape of the document. *)
Definition selectionOk (s : State) : Prop :=
  forall id : string,
    truthyId (selectedId s) = Some id ->
    exists sh, In (Shape sh) (elements s) /\ ShapeElement.id sh = id.

(** The calls that build or paint a path or a rectangle, as opposed to
    [save], [restore] and the calls that set a property of the context. *)
Definition isDrawing (c : PaintCall) : bool :=
  match c with
  | ctx beginPath | ctx (moveTo _ _) | ctx (lineTo _ _) | ctx closePath
  | ctx stroke | ctx (strokeRect _ _ _ _) | ctx (ellipse _ _ _ _ _ _ _)
  | ctx (quadraticCurveTo _ _ _ _) | ctx (bezierCurveTo _ _ _ _ _ _)
  | ctx (arc _ _ _ _ _ _) | fill | rect _ _ _ _ | clearRect _ _ _ _ => true
  | _ => false
  end.

(** No gesture of the current tool is in progress: no drag with the
    select tool, no shape preview with the shape tool, no stroke with the
    pen or the eraser. *)
Definition idle (s : State) : Prop :=
  match tool s with
  | ToolSelect => DragRef.mode (dragRef s) <> ModeMove
  | ToolShape => activeShapeRef s = None
  | ToolPen | ToolEraser => activeStrokeRef s = None
  end.

(** The pen stroke drawn on a fresh board, the release handled by the
    listeners of the given render. *)
Definition afterStroke (b : Binding) : option State :=
  bind (onPointerDown demoRandom demoIdText (Some demoCanvas) (at_ 0 0) firstRender)
    (fun s1 =>
       bind (onPointerMove demoRandom (Some demoCanvas) (at_ 10 0) s1)
         (fun s2 =>
            bind (onPointerMove demoRandom (Some demoCanvas) (at_ 10 10) s2)
              (fun s3 =>
                 dispatchBound demoRandom demoIdText b (Some demoCanvas)
                   pointerup (at_ 10 10) s3))).

(** ** Inputs of the worked instances of the further properties

    A session that draws a rectangle and a one-point stroke and undoes
    the stroke; the board with the drawn rectangle and the select tool,
    the same board in the middle of a drag of the rectangle, the Escape
    key, and a first render over a stored document. *)
Definition demoCommands : list Command :=
  [ PickTool ToolShape;
    Pointer CurrentRender pointerdown (at_ 10 10);
    Pointer CurrentRender pointermove (at_ 50 40);
    Pointer CurrentRender pointerup (at_ 50 40);
    PickTool ToolPen;
    Pointer CurrentRender pointerdown (at_ 0 0);
    Pointer FirstRender pointerup (at_ 0 0);
    ClickUndo ].

Definition afterCommands : State :=
  match runCommands demoRandom demoIdText (Some demoCanvas) demoCommands
          firstRender with
  | Some s => s
  | None => firstRender
  end.

Definition selectState : State :=
  withTool ToolSelect (commit [Shape rectDrawn] firstRender).


Definition escapeKey : KeyboardEvent.t :=
  KeyboardEvent.mk "Escape" false false false.

Definition storedState : State :=
  withLocalStorage (Some (TextOf (persisted [Shape rectA] 1))) initialState.

(** A session that draws the rectangle and then presses the pointer on it
    with the select tool, and the state it ends in. *)
Definition drawCommands : list Command :=
  [ PickTool ToolShape;
    Pointer CurrentRender pointerdown (at_ 10 10);
    Pointer CurrentRender pointermove (at_ 50 40);
    Pointer CurrentRender pointerup (at_ 50 40);
    PickTool ToolSelect ].

Definition afterDraw : State :=
  match runCommands demoRandom demoIdText (Some demoCanvas) drawCommands
          firstRender with
  | Some s => s
  | None => firstRender
  end.

Definition pressedState : State :=
  withDragRef
    (DragRef.mk ModeMove "a" (getCanvasPoint (at_ 30 25) demoCanvas)
       (Anchors.mk (ShapeElement.x1 rectDrawn) (ShapeElement.y1 rectDrawn)
          (ShapeElement.x2 rectDrawn) (ShapeElement.y2 rectDrawn)))
    (withSelectedId (Some "a") afterDraw).

(** * Properties *)

(** ** Numbers *)

Ltac rdec :=
  repeat match goal with
         | |- context [Rle_dec ?a ?b] => destruct (Rle_dec a b)
         | |- context [Rlt_dec ?a ?b] => destruct (Rlt_dec a b)
         | |- context [Req_dec_T ?a ?b] => destruct (Req_dec_T a b)
         | H : context [Rle_dec ?a ?b] |- _ => destruct (Rle_dec a b)
         | H : context [Rlt_dec ?a ?b] |- _ => destruct (Rlt_dec a b)
         | H : context [Req_dec_T ?a ?b] |- _ => destruct (Req_dec_T a b)
         end.

Lemma nle_Fin (a b : R) : (Fin a <=? Fin b) = true <-> (a <= b)%R.
Proof. simpl; rdec; split; intros; try easy; lra. Qed.

Lemma nlt_Fin (a b : R) : (Fin a <? Fin b) = true <-> (a < b)%R.
Proof. simpl; rdec; split; intros; try easy; lra. Qed.

Lemma ndiv_Fin (a b : R) : b <> 0%R -> Fin a / Fin b = Fin (a / b).
Proof. intros Hb; simpl; rdec; [contradiction | reflexivity]. Qed.

Lemma min_comm (a b : number) : Math.min a b = Math.min b a.
Proof. destruct a, b; simpl; try reflexivity; now rewrite Rmin_comm. Qed.

Lemma max_comm (a b : number) : Math.max a b = Math.max b a.
Proof. destruct a, b; simpl; try reflexivity; now rewrite Rmax_comm. Qed.

Lemma normalizeRect_swap (x1 y1 x2 y2 : number) :
  normalizeRect x1 y1 x2 y2 = normalizeRect x2 y2 x1 y1.
Proof.
  unfold normalizeRect.
  now rewrite (min_comm x1 x2), (min_comm y1 y2), (max_comm x1 x2), (max_comm y1 y2).
Qed.

Lemma normalizeRect_Fin (x1 y1 x2 y2 : R) :
  normalizeRect (Fin x1) (Fin y1) (Fin x2) (Fin y2)
  = NRect.mk (Fin (Rmin x1 x2)) (Fin (Rmin y1 y2))
      (Fin (Rmax x1 x2)) (Fin (Rmax y1 y2))
      (Fin (Rmax x1 x2 - Rmin x1 x2)) (Fin (Rmax y1 y2 - Rmin y1 y2)).
Proof. reflexivity. Qed.

Lemma Rmax_sub_Rmin_nonneg (a b : R) : (0 <= Rmax a b - Rmin a b)%R.
Proof. unfold Rmax, Rmin; rdec; lra. Qed.

(** ** Direction invariance *)

(** C2.  [normalizeRect] gives the same box for a drag and for its
    reverse; for finite anchors the width and the height of the box are
    at least zero ([w >= 0] and [h >= 0] hold); and the canvas calls
    [drawShape] makes for a shape that is not a line are the same for a
    drag and for its reverse. *)
Theorem normalizeRect_direction_invariant :
  (forall x1 y1 x2 y2 : number,
      normalizeRect x1 y1 x2 y2 = normalizeRect x2 y2 x1 y1)
  /\ (forall x1 y1 x2 y2 : R,
         let r := normalizeRect (Fin x1) (Fin y1) (Fin x2) (Fin y2) in
         (NRect.w r >=? Fin 0) = true /\ (NRect.h r >=? Fin 0) = true)
  /\ (forall el : ShapeElement.t,
         ShapeElement.shape el <> Line ->
         drawShape (reverseDrag el) = drawShape el).
Proof.
  split; [exact normalizeRect_swap | split].
  - intros x1 y1 x2 y2 r; subst r; rewrite normalizeRect_Fin; cbn [NRect.w NRect.h].
    unfold nge; split; apply nle_Fin; apply Rmax_sub_Rmin_nonneg.
  - intros [i k a1 b1 a2 b2 c sz] Hk; unfold drawShape, reverseDrag.
    cbn [ShapeElement.shape ShapeElement.x1 ShapeElement.y1 ShapeElement.x2
         ShapeElement.y2 ShapeElement.color ShapeElement.size ShapeElement.id] in *.
    rewrite (normalizeRect_swap a2 b2 a1 b1).
    destruct k; try reflexivity; now contradiction Hk.
Qed.

(** ** Hit testing *)

Lemma checkedDiv_ok (a b : number) :
  (forall s, b = Fin s -> s <> 0%R) -> checkedDiv a b = Some (a / b).
Proof.
  intros H; unfold checkedDiv; destruct b as [s| | |]; try reflexivity.
  destruct (Req_dec_T s 0) as [e|]; [now destruct (H s eq_refl) | reflexivity].
Qed.

Lemma max_Fin_lower (c : R) (a : number) (r : R) :
  Math.max (Fin c) a = Fin r -> (c <= r)%R.
Proof.
  destruct a as [s| | |]; simpl; intros H; inversion H; subst.
  - apply Rmax_l.
  - lra.
Qed.

Lemma nadd_Fin_inv (a b : number) (r : R) :
  a + b = Fin r -> exists s t, a = Fin s /\ b = Fin t /\ r = (s + t)%R.
Proof.
  destruct a as [s| | |], b as [t| | |]; simpl; intros H; inversion H.
  now exists s, t.
Qed.

(** The padded radius of the ellipse test is never zero. *)
Lemma padded_radius_nonzero (half size : number) (s : R) :
  Math.max (Fin 1) half + Math.max (Fin 6) size = Fin s -> s <> 0%R.
Proof.
  intros H; apply nadd_Fin_inv in H as (u & v & Hu & Hv & ->).
  apply max_Fin_lower in Hu, Hv; lra.
Qed.

Lemma not_below_epsilon_nonzero (len2 : number) (s : R) :
  (len2 <? epsilon) = false -> len2 = Fin s -> s <> 0%R.
Proof.
  intros H ->; unfold epsilon in H; simpl in H; rdec; [discriminate | lra].
Qed.

(** No division of [hitTestShape] has a zero divisor, whatever the shape
    and the point. *)
Lemma hitTestShapeChecked_total (shape : ShapeElement.t) (p : Point.t) :
  hitTestShapeChecked shape p = Some (hitTestShape shape p).
Proof.
  unfold hitTestShapeChecked, hitTestShape.
  destruct (ShapeElement.shape shape); try reflexivity.
  - (* ellipse *)
    rewrite !(checkedDiv_ok _ (Fin 2)) by (intros s [= <-]; lra).
    rewrite !checkedDiv_ok; [reflexivity | |];
      intros s Hs; eapply padded_radius_nonzero; exact Hs.
  - (* line *)
    match goal with |- context [if ?c then _ else _] => destruct c eqn:Hlen end;
      [reflexivity |].
    rewrite checkedDiv_ok; [reflexivity |].
    intros s Hs; exact (not_below_epsilon_nonzero _ _ Hlen Hs).
Qed.

(** The clamp [Math.max(0, Math.min(1, t))] is NaN or lies in [0, 1]. *)
Lemma clamp01_range (t : number) :
  let c := Math.max (Fin 0) (Math.min (Fin 1) t) in
  c = NaN \/ ((Fin 0 <=? c) = true /\ (c <=? Fin 1) = true).
Proof.
  destruct t as [r| | |]; simpl; auto; right.
  - unfold Rmax, Rmin; rdec; split; try reflexivity; lra.
  - rewrite Rmax_right by lra. rdec; split; try reflexivity; lra.
  - rdec; split; try reflexivity; lra.
Qed.

(** C8.  The line branch of [hitTestShape] never divides by zero and
    always returns: evaluated with checked division it yields the same
    boolean and no zero-divisor report.  When the squared length of the
    segment is below [1e-6] the result is the point-distance test around
    the start point with radius [pad + 2]; otherwise the divisor is not
    zero, the projection parameter is clamped to [[0, 1]] (or is NaN, for
    non-finite input), and the result is the distance test at the clamped
    projection. *)
Theorem hitTest_line_total :
  forall (shape : ShapeElement.t) (p : Point.t),
    ShapeElement.shape shape = Line ->
    let pad := Math.max (Fin 6) (ShapeElement.size shape) in
    let x1 := ShapeElement.x1 shape in
    let y1 := ShapeElement.y1 shape in
    let dx := ShapeElement.x2 shape - x1 in
    let dy := ShapeElement.y2 shape - y1 in
    let len2 := dx * dx + dy * dy in
    let px := Point.x p in
    let py := Point.y p in
    hitTestShapeChecked shape p = Some (hitTestShape shape p)
    /\ ((len2 <? epsilon) = true ->
        hitTestShape shape p
        = ((px - x1) * (px - x1) + (py - y1) * (py - y1)
           <=? (pad + Fin 2) * (pad + Fin 2)))
    /\ ((len2 <? epsilon) = false ->
        len2 <> Fin 0
        /\ exists t : number,
            t = Math.max (Fin 0)
                  (Math.min (Fin 1) (((px - x1) * dx + (py - y1) * dy) / len2))
            /\ (t = NaN \/ ((Fin 0 <=? t) = true /\ (t <=? Fin 1) = true))
            /\ hitTestShape shape p
               = ((px - (x1 + t * dx)) * (px - (x1 + t * dx))
                  + (py - (y1 + t * dy)) * (py - (y1 + t * dy))
                  <=? (pad + Fin 2) * (pad + Fin 2))).
Proof.
  intros shape p Hline pad x1 y1 dx dy len2 px py.
  split; [apply hitTestShapeChecked_total | split].
  - intros Hlen; unfold hitTestShape; rewrite Hline.
    fold pad x1 y1 dx dy; fold len2; now rewrite Hlen.
  - intros Hlen; split.
    + intros E; eapply not_below_epsilon_nonzero; [exact Hlen | exact E | reflexivity].
    + eexists; split; [reflexivity | split; [apply clamp01_range |]].
      unfold hitTestShape; rewrite Hline.
      fold pad x1 y1 dx dy; fold len2; now rewrite Hlen.
Qed.

(** The clamped projection is the nearest point of the segment: no point
    of the segment is closer to [p]. *)
Lemma clamped_projection_is_nearest (ax ay bx by_ px py u : R) :
  let dx := (bx - ax)%R in
  let dy := (by_ - ay)%R in
  let len2 := (dx * dx + dy * dy)%R in
  let t := Rmax 0 (Rmin 1 (((px - ax) * dx + (py - ay) * dy) / len2)) in
  (0 < len2)%R -> (0 <= u <= 1)%R ->
  ((px - (ax + t * dx)) * (px - (ax + t * dx))
   + (py - (ay + t * dy)) * (py - (ay + t * dy))
   <= (px - (ax + u * dx)) * (px - (ax + u * dx))
      + (py - (ay + u * dy)) * (py - (ay + u * dy)))%R.
Proof.
  intros dx dy len2 t Hlen Hu.
  set (c := ((px - ax) * dx + (py - ay) * dy)%R) in *.
  set (t0 := (c / len2)%R) in *.
  assert (Hc : c = (t0 * len2)%R) by (unfold t0; field; lra).
  assert (E : forall v,
             ((px - (ax + v * dx)) * (px - (ax + v * dx))
              + (py - (ay + v * dy)) * (py - (ay + v * dy))
              = ((px - ax) * (px - ax) + (py - ay) * (py - ay))
                - 2 * v * c + v * v * len2)%R).
  { intros v; unfold c, len2; ring. }
  rewrite (E t), (E u), Hc.
  assert (D : ((u - t) * (u + t - 2 * t0) >= 0)%R).
  { unfold t, Rmax, Rmin.
    destruct (Rle_dec 1 t0) as [H1 | H1].
    - destruct (Rle_dec 0 1) as [_ | H0]; [| lra].
      assert (0 <= (1 - u) * (2 * t0 - u - 1))%R by (apply Rmult_le_pos; lra).
      nra.
    - destruct (Rle_dec 0 t0) as [H0 | H0].
      + pose proof (Rle_0_sqr (u - t0)) as Q; unfold Rsqr in Q.
        replace ((u - t0) * (u + t0 - 2 * t0))%R
          with ((u - t0) * (u - t0))%R by ring.
        lra.
      + assert (0 <= u * (u - 2 * t0))%R by (apply Rmult_le_pos; lra).
        nra. }
  assert (0 <= len2 * ((u - t) * (u + t - 2 * t0)))%R by nra.
  nra.
Qed.

(** For finite points and a segment that is not degenerate, the segment
    distance of the hit test is the squared distance from [p] to the
    nearest point of the segment. *)
Lemma distanceToSegmentSquared_nearest (ax ay bx by_ px py : R) :
  (1 / 1000000 <= (bx - ax) * (bx - ax) + (by_ - ay) * (by_ - ay))%R ->
  exists d2 : R,
    Spec.distanceToSegmentSquared (Point.mk (Fin ax) (Fin ay))
      (Point.mk (Fin bx) (Fin by_)) (Point.mk (Fin px) (Fin py))
    = Fin d2
    /\ (exists t : R,
           (0 <= t <= 1)%R
           /\ d2 = ((px - (ax + t * (bx - ax))) * (px - (ax + t * (bx - ax)))
                    + (py - (ay + t * (by_ - ay))) * (py - (ay + t * (by_ - ay))))%R)
    /\ (forall u : R,
           (0 <= u <= 1)%R ->
           (d2 <= (px - (ax + u * (bx - ax))) * (px - (ax + u * (bx - ax)))
                  + (py - (ay + u * (by_ - ay))) * (py - (ay + u * (by_ - ay))))%R).
Proof.
  intros Hlen.
  set (len2 := ((bx - ax) * (bx - ax) + (by_ - ay) * (by_ - ay))%R) in *.
  set (t := Rmax 0 (Rmin 1 (((px - ax) * (bx - ax) + (py - ay) * (by_ - ay)) / len2))).
  exists ((px - (ax + t * (bx - ax))) * (px - (ax + t * (bx - ax)))
          + (py - (ay + t * (by_ - ay))) * (py - (ay + t * (by_ - ay))))%R.
  split; [| split].
  - unfold Spec.distanceToSegmentSquared, Spec.pointDistanceSquared, epsilon.
    cbn [Point.x Point.y nsub nneg nadd nmul nlt].
    fold (bx - ax)%R (by_ - ay)%R (px - ax)%R (py - ay)%R; fold len2.
    destruct (Rlt_dec len2 (1 / 1000000)) as [H | _]; [lra |].
    rewrite ndiv_Fin by lra.
    cbn [Math.min Math.max nmul nadd nsub nneg Point.x Point.y]; fold t.
    reflexivity.
  - exists t; split; [| reflexivity].
    unfold t, Rmax, Rmin; rdec; lra.
  - intros u Hu.
    apply (clamped_projection_is_nearest ax ay bx by_ px py u); [fold len2; lra | exact Hu].
Qed.

Lemma find_rev_last {A : Type} (f : A -> bool) (l : list A) :
  match find f (rev l) with
  | Some a =>
      exists l1 l2, l = l1 ++ a :: l2 /\ f a = true
                    /\ forall b, In b l2 -> f b = false
  | None => forall b, In b l -> f b = false
  end.
Proof.
  induction l as [|a l IH] using rev_ind; simpl.
  - intros b [].
  - rewrite rev_app_distr; simpl.
    destruct (f a) eqn:Ha.
    + exists l, []; repeat split; auto. intros b [].
    + destruct (find f (rev l)) as [c|].
      * destruct IH as (l1 & l2 & -> & Hc & Hl2).
        exists l1, (l2 ++ [a]); split; [now rewrite <- app_assoc | split; auto].
        intros b Hb; apply in_app_or in Hb as [Hb | [<- | []]]; auto.
      * intros b Hb; apply in_app_or in Hb as [Hb | [<- | []]]; auto.
Qed.

Lemma shapesOf_In (scene : Scene) (sh : ShapeElement.t) :
  In sh (shapesOf scene) <-> In (Shape sh) scene.
Proof.
  induction scene as [|[st|sh'] scene IH]; simpl; [tauto | |].
  - rewrite IH; split; [tauto | intros [H | H]; [discriminate | exact H]].
  - rewrite IH; split; intros [H | H]; auto; [left; now f_equal | left; now injection H].
Qed.

Lemma shapesOf_split (scene : Scene) (l1 l2 : list ShapeElement.t)
  (sh : ShapeElement.t) :
  shapesOf scene = l1 ++ sh :: l2 ->
  exists before after,
    scene = before ++ Shape sh :: after /\ shapesOf after = l2.
Proof.
  revert l1; induction scene as [|[st|sh'] scene IH]; simpl; intros l1 H.
  - now destruct l1.
  - destruct (IH _ H) as (b & a & -> & Ha).
    now exists (Stroke st :: b), a.
  - destruct l1 as [|c l1]; simpl in H; injection H as -> H.
    + now exists [], scene.
    + destruct (IH _ H) as (b & a & -> & Ha).
      now exists (Shape c :: b), a.
Qed.

(** What [findHit] returns: the last shape of the scene that passes the
    test, or nothing when no shape passes. *)
Lemma findHit_spec (scene : Scene) (p : Point.t) :
  match findHit scene p with
  | Some hit =>
      exists before after,
        scene = before ++ Shape hit :: after
        /\ hitTestShape hit p = true
        /\ forall sh, In (Shape sh) after -> hitTestShape sh p = false
  | None => forall sh, In (Shape sh) scene -> hitTestShape sh p = false
  end.
Proof.
  unfold findHit.
  pose proof (find_rev_last (fun sh => hitTestShape sh p) (shapesOf scene)) as H.
  destruct (find _ (rev (shapesOf scene))) as [hit|].
  - destruct H as (l1 & l2 & Hs & Hh & Hl2).
    destruct (shapesOf_split _ _ _ _ Hs) as (b & a & -> & Ha).
    exists b, a; repeat split; auto.
    intros sh Hin; apply Hl2; rewrite <- Ha; now apply shapesOf_In.
  - intros sh Hin; apply H; now apply shapesOf_In.
Qed.



(** ** History *)

Lemma cloneElement_eq (el : Element) : cloneElement el = el.
Proof.
  destruct el as [[i ps [t b c z] ds]|[i k a1 b1 a2 b2 c z]]; simpl; [|reflexivity].
  f_equal; f_equal.
  - induction ps as [|[px py] ps IH]; simpl; [reflexivity | now rewrite IH].
  - destruct ds as [ds|]; simpl; [|reflexivity].
    f_equal; induction ds as [|[dx dy dr da] ds IH]; simpl;
      [reflexivity | now rewrite IH].
Qed.

(** A deep copy is equal to the scene it copies, element for element. *)
Lemma deepCloneScene_eq (scene : Scene) : deepCloneScene scene = scene.
Proof.
  unfold deepCloneScene; induction scene as [|el scene IH]; simpl;
    [reflexivity | now rewrite cloneElement_eq, IH].
Qed.

Lemma pushHistory_history (doc : Scene) (s : State) :
  (0 <= historyIndex s)%Z ->
  history (pushHistory doc s)
  = firstn (Z.to_nat (historyIndex s + 1)) (history s) ++ [deepCloneScene doc].
Proof.
  intros H; unfold pushHistory, pushHistoryFrom; simpl.
  now destruct (Z.leb_spec 0 (historyIndex s)); [|lia].
Qed.

Lemma pushHistory_index (doc : Scene) (s : State) :
  historyIndex (pushHistory doc s)
  = (Z.of_nat (List.length (history (pushHistory doc s))) - 1)%Z.
Proof.
  unfold pushHistory, pushHistoryFrom; simpl.
  destruct (0 <=? historyIndex s)%Z; rewrite length_app; simpl; lia.
Qed.

Lemma pushHistory_elements (doc : Scene) (s : State) :
  elements (pushHistory doc s) = elements s.
Proof. reflexivity. Qed.

Lemma canRedo_pushHistory (doc : Scene) (s : State) :
  canRedo (pushHistory doc s) = false.
Proof.
  unfold canRedo; rewrite pushHistory_index.
  apply andb_false_intro2, Z.ltb_irrefl.
Qed.

(** X28.  [pushHistory] with the history of the current render keeps the
    snapshots up to the cursor, drops the ones after it, appends a
    snapshot equal to the new document and sets the cursor to the new
    last index; [canUndo] holds exactly when the cursor is above 0 and
    [canRedo] exactly when the cursor is below the last index; after an
    undo followed by a commit, [canRedo] is false. *)
Theorem redo_branch_discard :
  forall (s : State) (doc : Scene),
    (0 <= historyIndex s)%Z ->
    let s' := pushHistory doc s in
    history s'
    = firstn (Z.to_nat (historyIndex s + 1)) (history s) ++ [doc]
    /\ historyIndex s' = (Z.of_nat (List.length (history s')) - 1)%Z
    /\ (canUndo s = true <-> (historyIndex s > 0)%Z)
    /\ (canRedo s = true
        <-> (historyIndex s < Z.of_nat (List.length (history s)) - 1)%Z)
    /\ canRedo (commit doc (undo s)) = false.
Proof.
  intros s doc Hidx s'; subst s'.
  split; [rewrite pushHistory_history by exact Hidx; now rewrite deepCloneScene_eq |].
  split; [apply pushHistory_index |].
  split; [unfold canUndo; rewrite Z.ltb_lt; lia |].
  split; [|apply canRedo_pushHistory].
  unfold canRedo; rewrite andb_true_iff, Z.leb_le, Z.ltb_lt; tauto.
Qed.

(** C5, at the failing input.  On a fresh board the history is the empty
    snapshot at cursor 0 when a first pen stroke is released at
    [(10, 10)], and the release is handled by the listeners of the first
    render.  The commit does not keep the snapshot at the cursor: the
    history after it is the new snapshot alone, not the seeded snapshot
    followed by the new one, and the cursor is still 0. *)
Theorem first_commit_drops_the_seed :
  history drawingState = [[]]
  /\ historyIndex drawingState = 0%Z
  /\ exists s1 : State,
       dispatchBound demoRandom demoIdText FirstRender (Some demoCanvas)
         pointerup (at_ 10 10) drawingState = Some s1
       /\ history s1 = [[Stroke drawingStroke]]
       /\ history s1
          <> firstn (Z.to_nat (historyIndex drawingState + 1)) (history drawingState)
             ++ [[Stroke drawingStroke]]
       /\ historyIndex s1 = 0%Z
       /\ canUndo s1 = false.
Proof.
  repeat (split; [reflexivity |]).
  eexists; split; [reflexivity |].
  split; [vm_compute; reflexivity |].
  split; [vm_compute; discriminate |].
  split; reflexivity.
Qed.

Lemma last_cons_default (A : Type) (a b c : A) (l : list A) :
  last (c :: l) a = last (c :: l) b.
Proof.
  revert c; induction l as [|d l IH]; intros c; [reflexivity |].
  change (last (d :: l) a = last (d :: l) b); apply IH.
Qed.

Lemma commitAll_spec (docs : list Scene) :
  forall s : State,
    historyIndex s = (Z.of_nat (List.length (history s)) - 1)%Z ->
    (0 <= historyIndex s)%Z ->
    history (commitAll docs s) = history s ++ docs
    /\ historyIndex (commitAll docs s)
       = (Z.of_nat (List.length (history s ++ docs)) - 1)%Z
    /\ elements (commitAll docs s) = last docs (elements s).
Proof.
  induction docs as [|d docs IH]; intros s Hidx Hpos; simpl.
  - now rewrite app_nil_r.
  - assert (Hh : history (commit d s) = history s ++ [d]).
    { unfold commit; rewrite pushHistory_history by exact Hpos.
      simpl history; simpl historyIndex; rewrite deepCloneScene_eq.
      rewrite firstn_all2; [reflexivity | lia]. }
    assert (Hi : historyIndex (commit d s)
                 = (Z.of_nat (List.length (history (commit d s))) - 1)%Z)
      by apply pushHistory_index.
    destruct (IH (commit d s) Hi) as (H1 & H2 & H3).
    { rewrite Hi, Hh, length_app; simpl; lia. }
    rewrite H1, H2, H3, Hh, <- app_assoc; simpl.
    repeat split; auto.
    destruct docs as [|c docs]; [reflexivity | apply last_cons_default].
Qed.

Lemma undo_step (s : State) (snap : Scene) :
  (0 < historyIndex s)%Z ->
  nth_error (history s) (Z.to_nat (historyIndex s - 1)) = Some snap ->
  undo s
  = withSelectedId None (withElements snap (withHistoryIndex (historyIndex s - 1) s)).
Proof.
  intros Hpos Hn; unfold undo, canUndo, historyAt.
  destruct (Z.ltb_spec 0 (historyIndex s)); [simpl negb; cbv iota | lia].
  destruct (Z.ltb_spec (historyIndex s - 1) 0); [lia | now rewrite Hn].
Qed.

Lemma redo_step (s : State) (snap : Scene) :
  (0 <= historyIndex s < Z.of_nat (List.length (history s)) - 1)%Z ->
  nth_error (history s) (Z.to_nat (historyIndex s + 1)) = Some snap ->
  redo s
  = withSelectedId None (withElements snap (withHistoryIndex (historyIndex s + 1) s)).
Proof.
  intros Hpos Hn; unfold redo, canRedo, historyAt.
  destruct (Z.leb_spec 0 (historyIndex s)); [| lia].
  destruct (Z.ltb_spec (historyIndex s) (Z.of_nat (List.length (history s)) - 1));
    [simpl negb; cbv iota | lia].
  destruct (Z.ltb_spec (historyIndex s + 1) 0); [lia | now rewrite Hn].
Qed.

Lemma undo_iter (k : nat) :
  forall s : State,
    (Z.of_nat k <= historyIndex s < Z.of_nat (List.length (history s)))%Z ->
    history (Nat.iter k undo s) = history s
    /\ historyIndex (Nat.iter k undo s) = (historyIndex s - Z.of_nat k)%Z
    /\ (0 < k ->
        nth_error (history s) (Z.to_nat (historyIndex s - Z.of_nat k))
        = Some (elements (Nat.iter k undo s)))%nat.
Proof.
  induction k as [|k IH]; intros s Hk.
  - simpl; repeat split; [lia | intros H; inversion H].
  - destruct (IH s) as (Hh & Hi & _); [lia |].
    change (Nat.iter (S k) undo s) with (undo (Nat.iter k undo s)).
    set (sk := Nat.iter k undo s) in *.
    destruct (nth_error (history sk) (Z.to_nat (historyIndex sk - 1)))
      as [snap|] eqn:En.
    + rewrite (undo_step sk snap); [| lia | exact En].
      simpl; repeat split; [exact Hh | lia |].
      intros _; rewrite <- Hh, <- En; f_equal; lia.
    + apply nth_error_None in En; rewrite Hh in En; lia.
Qed.

Lemma redo_iter (k : nat) :
  forall s : State,
    (0 <= historyIndex s)%Z ->
    (historyIndex s + Z.of_nat k < Z.of_nat (List.length (history s)))%Z ->
    history (Nat.iter k redo s) = history s
    /\ historyIndex (Nat.iter k redo s) = (historyIndex s + Z.of_nat k)%Z
    /\ (0 < k ->
        nth_error (history s) (Z.to_nat (historyIndex s + Z.of_nat k))
        = Some (elements (Nat.iter k redo s)))%nat.
Proof.
  induction k as [|k IH]; intros s Hpos Hk.
  - simpl; repeat split; [lia | intros H; inversion H].
  - destruct (IH s Hpos) as (Hh & Hi & _); [lia |].
    change (Nat.iter (S k) redo s) with (redo (Nat.iter k redo s)).
    set (sk := Nat.iter k redo s) in *.
    destruct (nth_error (history sk) (Z.to_nat (historyIndex sk + 1)))
      as [snap|] eqn:En.
    + rewrite (redo_step sk snap); [| rewrite Hh; lia | exact En].
      simpl; repeat split; [exact Hh | lia |].
      intros _; rewrite <- Hh, <- En; f_equal; lia.
    + apply nth_error_None in En; rewrite Hh in En; lia.
Qed.

Lemma nth_error_last_cons (A : Type) (a : A) (l : list A) :
  nth_error (a :: l) (List.length l) = Some (last l a).
Proof.
  revert a; induction l as [|b l IH]; intros a; [reflexivity |].
  change (nth_error (b :: l) (List.length l) = Some (last (b :: l) a)).
  rewrite IH; destruct l as [|c l]; [reflexivity |].
  f_equal; change (last (b :: c :: l) a) with (last (c :: l) a).
  apply last_cons_default.
Qed.

(** X27.  From the seeded history (one empty snapshot, cursor 0, empty
    document), after any sequence of commits made with the history of the
    current render, as many undos as there were commits give the empty
    document, and as many redos after them give back the document reached
    by the last commit, equal to the last committed document. *)
Theorem history_round_trip :
  forall (docs : list Scene) (s0 : State),
    history s0 = [[]] ->
    historyIndex s0 = 0%Z ->
    elements s0 = [] ->
    let n := List.length docs in
    let s := commitAll docs s0 in
    elements (Nat.iter n undo s) = []
    /\ elements (Nat.iter n redo (Nat.iter n undo s)) = elements s
    /\ elements s = last docs [].
Proof.
  intros docs s0 Hh Hi He n s.
  destruct (commitAll_spec docs s0) as (H1 & H2 & H3);
    [rewrite Hh, Hi; reflexivity | lia |].
  fold s in H1, H2, H3; rewrite Hh in H1, H2; rewrite He in H3.
  cbn [app List.length] in H1, H2.
  assert (Hidx : historyIndex s = Z.of_nat n) by (rewrite H2; subst n; lia).
  destruct (undo_iter n s) as (U1 & U2 & U3).
  { rewrite Hidx, H1; cbn [List.length]; subst n; lia. }
  set (u := Nat.iter n undo s) in *.
  destruct (redo_iter n u) as (R1 & R2 & R3).
  { rewrite U2; lia. }
  { rewrite U2, U1, H1, Hidx; cbn [List.length]; subst n; lia. }
  destruct docs as [|d docs].
  - subst n s u; simpl; auto.
  - assert (Hn : (0 < n)%nat) by (subst n; simpl; lia).
    specialize (U3 Hn); specialize (R3 Hn).
    rewrite Hidx, H1 in U3.
    replace (Z.to_nat (Z.of_nat n - Z.of_nat n)) with 0%nat in U3 by lia.
    simpl in U3; injection U3 as U3.
    rewrite U1, U2, H1, Hidx in R3.
    replace (Z.to_nat (Z.of_nat n - Z.of_nat n + Z.of_nat n)) with n in R3 by lia.
    subst n; rewrite (nth_error_last_cons Scene [] (d :: docs)) in R3.
    repeat split; [symmetry; exact U3 | | exact H3].
    rewrite H3; congruence.
Qed.

(** C1, at the failing input.  On a fresh board, seeded with the empty
    snapshot at cursor 0, a first stroke is pressed and released with the
    pen at [(10, 10)]; the release is handled by the listeners of the
    first render.  One commit was made, and one undo does not give the
    empty document: the stroke stays. *)
Theorem first_stroke_survives_undo :
  history firstRender = [[]]
  /\ historyIndex firstRender = 0%Z
  /\ elements firstRender = []
  /\ onPointerDown demoRandom demoIdText (Some demoCanvas) (at_ 10 10) firstRender
     = Some drawingState
  /\ exists s1 : State,
       dispatchBound demoRandom demoIdText FirstRender (Some demoCanvas)
         pointerup (at_ 10 10) drawingState = Some s1
       /\ elements s1 = [Stroke drawingStroke]
       /\ elements (Nat.iter 1 undo s1) = [Stroke drawingStroke]
       /\ elements (Nat.iter 1 undo s1) <> [].
Proof.
  repeat (split; [reflexivity |]).
  eexists; split; [reflexivity |].
  split; [vm_compute; reflexivity |].
  split; [vm_compute; reflexivity |].
  vm_compute; discriminate.
Qed.

(** ** Committing a gesture *)

Lemma historyAt_pushHistory (doc : Scene) (s : State) :
  historyAt (pushHistory doc s) (historyIndex (pushHistory doc s)) = Some doc.
Proof.
  unfold historyAt, pushHistory, pushHistoryFrom; simpl.
  rewrite deepCloneScene_eq.
  destruct (0 <=? historyIndex s)%Z.
  - set (base := firstn _ _).
    destruct (Z.ltb_spec (Z.of_nat (List.length base)) 0); [lia |].
    rewrite Nat2Z.id, nth_error_app2, Nat.sub_diag by lia; reflexivity.
  - reflexivity.
Qed.

(** C10.  When a pointer-up or a pointer-cancel ends a gesture that holds
    an in-progress stroke or shape, the handler returns, the new document
    is the previous document with that element appended at the end (so
    every earlier element keeps its contents and its place), the slot of
    the in-progress element is empty, and the snapshot under the history
    cursor is the new document. *)
Theorem commit_frame :
  forall (random : nat -> R) (idText : nat -> string) (cv : Canvas.t)
         (ty : PointerEventType) (e : PointerEvent.t) (s : State) (el : Element),
    ty = pointerup \/ ty = pointercancel ->
    InProgress s el ->
    exists s',
      dispatch random idText (Some cv) ty e s = Some s'
      /\ elements s' = elements s ++ [el]
      /\ slotCleared el s'
      /\ historyAt s' (historyIndex s') = Some (elements s').
Proof.
  intros random idText cv ty e s el Hty Hg.
  exists (onPointerUp (Some cv) e s); split.
  - destruct Hty as [-> | ->]; reflexivity.
  - unfold onPointerUp.
    destruct Hg as [st Htool Hst | sh Htool Hsh].
    + rewrite Hst.
      destruct Htool as [-> | ->];
        destruct (DragRef.mode (dragRef s)), (activeShapeRef s);
        (split; [reflexivity | split; [reflexivity | apply historyAt_pushHistory]]).
    + rewrite Htool, Hsh.
      destruct (DragRef.mode (dragRef s));
        (split; [reflexivity | split; [reflexivity | apply historyAt_pushHistory]]).
Qed.

(** ** Pointer coordinates are not validated *)

Lemma addAirbrushDots_points (random : nat -> R) (st st' : StrokeElement.t)
  (a b : Point.t) (k k' : nat) :
  addAirbrushDots random st a b k = Some (st', k') ->
  StrokeElement.points st' = StrokeElement.points st
  /\ StrokeElement.style st' = StrokeElement.style st
  /\ StrokeElement.id st' = StrokeElement.id st.
Proof.
  unfold addAirbrushDots.
  destruct (iterationsLe _) as [[|n]|]; [| |discriminate].
  - intros [= <- _]; auto.
  - destruct (iterationsLt _) as [count|]; [|discriminate].
    intros [= <- _]; auto.
Qed.

Lemma extendStroke_points (random : nat -> R) (st : StrokeElement.t)
  (p : Point.t) (s s' : State) :
  extendStroke random st p s = Some s' ->
  exists st',
    activeStrokeRef s' = Some st'
    /\ StrokeElement.points st' = StrokeElement.points st ++ [p].
Proof.
  unfold extendStroke.
  destruct (isAirbrushPen (StrokeElement.style st)).
  - destruct (lastPoint st) as [lst|].
    + destruct (addAirbrushDots random (pushPoint st p) lst p (randomCalls s))
        as [[st2 k]|] eqn:E; [|discriminate].
      intros [= <-]; exists st2; split; [reflexivity |].
      now destruct (addAirbrushDots_points _ _ _ _ _ _ _ E) as (-> & _).
    + intros [= <-]; now exists (pushPoint st p).
  - intros [= <-]; now exists (pushPoint st p).
Qed.

(** A [NaN] coordinate makes the distance [NaN]; an infinite coordinate
    without a [NaN] one makes the distance from a finite point
    [+Infinity]. *)
Lemma dist_NaN (a p : Point.t) :
  Point.x p = NaN \/ Point.y p = NaN -> dist a p = NaN.
Proof.
  destruct a as [ax ay], p as [px py]; cbn [Point.x Point.y]; unfold dist;
    cbn [Point.x Point.y].
  intros [-> | ->]; destruct ax, ay; try destruct px; try destruct py;
    cbn [nsub nneg nadd nmul nsign sign_mul signed_inf Math.sqrt];
    try reflexivity;
    unfold Rsign; rdec; reflexivity.
Qed.

Lemma dist_infinite (a p : Point.t) :
  finitePoint a = true ->
  Point.x p <> NaN -> Point.y p <> NaN ->
  finitePoint p = false ->
  dist a p = PInf.
Proof.
  destruct a as [ax ay], p as [px py]; unfold finitePoint, dist;
    cbn [Point.x Point.y].
  intros Ha Hx Hy Hp.
  destruct ax as [a1| | |], ay as [a2| | |]; try discriminate.
  destruct px as [u| | |], py as [v| | |]; try contradiction; try discriminate;
    reflexivity.
Qed.

Lemma addAirbrushDots_NaN (random : nat -> R) (st : StrokeElement.t)
  (a b : Point.t) (k : nat) :
  dist a b = NaN ->
  addAirbrushDots random st a b k
  = Some (StrokeElement.mk (StrokeElement.id st) (StrokeElement.points st)
            (StrokeElement.style st)
            (Some match StrokeElement.dots st with
                  | Some ds => ds
                  | None => []
                  end), k).
Proof. intros Hd; unfold addAirbrushDots; rewrite Hd; reflexivity. Qed.

Lemma addAirbrushDots_PInf (random : nat -> R) (st : StrokeElement.t)
  (a b : Point.t) (k : nat) :
  dist a b = PInf -> addAirbrushDots random st a b k = None.
Proof.
  intros Hd; unfold addAirbrushDots; rewrite Hd.
  cbn [ndiv nsign sign_mul signed_inf]; rdec; try lra; reflexivity.
Qed.

(** C7, as the code has it.  The handlers do not look at the coordinates
    of a pointer event.  During a stroke of any brush but the pen's
    airbrush, a pointer-move returns with the event's point appended to
    the in-progress stroke and nothing else changed, whatever the
    coordinates.  During a stroke of the pen's airbrush the point is
    appended whenever the handler returns; it returns, with no particle
    added and no random draw, when the point has a [NaN] coordinate, and
    it does not return when the point has an infinite coordinate and no
    [NaN] one and the last point of the stroke is finite.  During a shape
    preview a pointer-move sets [(x2, y2)] to the point and keeps
    [(x1, y1)]; a pointer-down with the shape tool sets both anchors to
    the point. *)
Theorem pointer_points_unchecked :
  forall (random : nat -> R) (idText : nat -> string) (cv : Canvas.t)
         (e : PointerEvent.t) (s : State),
    let p := getCanvasPoint e cv in
    (forall st : StrokeElement.t,
        tool s = ToolPen \/ tool s = ToolEraser ->
        activeStrokeRef s = Some st ->
        (isAirbrushPen (StrokeElement.style st) = false ->
         onPointerMove random (Some cv) e s
         = Some (withActiveStrokeRef (Some (pushPoint st p)) s))
        /\ (forall s',
               onPointerMove random (Some cv) e s = Some s' ->
               exists st',
                 activeStrokeRef s' = Some st'
                 /\ StrokeElement.points st' = StrokeElement.points st ++ [p])
        /\ (isAirbrushPen (StrokeElement.style st) = true ->
            forall last : Point.t,
              lastPoint st = Some last ->
              (Point.x p = NaN \/ Point.y p = NaN ->
               onPointerMove random (Some cv) e s
               = Some (withRandomCalls (randomCalls s)
                         (withActiveStrokeRef
                            (Some (StrokeElement.mk (StrokeElement.id st)
                                     (StrokeElement.points st ++ [p])
                                     (StrokeElement.style st)
                                     (Some match StrokeElement.dots st with
                                           | Some ds => ds
                                           | None => []
                                           end)))
                            s)))
              /\ (finitePoint last = true ->
                  Point.x p <> NaN -> Point.y p <> NaN ->
                  finitePoint p = false ->
                  onPointerMove random (Some cv) e s = None)))
    /\ (forall sh : ShapeElement.t,
           tool s = ToolShape ->
           activeShapeRef s = Some sh ->
           exists sh',
             onPointerMove random (Some cv) e s
             = Some (withActiveShapeRef (Some sh') s)
             /\ ShapeElement.x1 sh' = ShapeElement.x1 sh
             /\ ShapeElement.y1 sh' = ShapeElement.y1 sh
             /\ ShapeElement.x2 sh' = Point.x p
             /\ ShapeElement.y2 sh' = Point.y p)
    /\ (tool s = ToolShape ->
        exists s' sh,
          onPointerDown random idText (Some cv) e s = Some s'
          /\ activeShapeRef s' = Some sh
          /\ ShapeElement.x1 sh = Point.x p /\ ShapeElement.y1 sh = Point.y p
          /\ ShapeElement.x2 sh = Point.x p /\ ShapeElement.y2 sh = Point.y p).
Proof.
  intros random idText cv e s p; split; [|split].
  - intros st Htool Hst.
    assert (E : onPointerMove random (Some cv) e s = extendStroke random st p s).
    { unfold onPointerMove; fold p; rewrite Hst.
      destruct Htool as [-> | ->];
        destruct (DragRef.mode (dragRef s)), (activeShapeRef s); reflexivity. }
    rewrite E; split; [| split].
    + intros Hb; unfold extendStroke; now rewrite Hb.
    + intros s'; apply extendStroke_points.
    + intros Hb last Hlast; unfold extendStroke; rewrite Hb, Hlast; split.
      * intros Hnan.
        now rewrite (addAirbrushDots_NaN random (pushPoint st p) last p
                       (randomCalls s) (dist_NaN last p Hnan)).
      * intros Hl Hx Hy Hp.
        now rewrite (addAirbrushDots_PInf random (pushPoint st p) last p
                       (randomCalls s) (dist_infinite last p Hl Hx Hy Hp)).
  - intros sh Htool Hsh; eexists; split.
    + unfold onPointerMove; fold p; rewrite Htool, Hsh.
      destruct (DragRef.mode (dragRef s)); reflexivity.
    + repeat split.
  - intros Htool; unfold onPointerDown; fold p; rewrite Htool.
    do 2 eexists; split; [reflexivity | repeat split].
Qed.

(** C7 as stated fails: after a pointer-down at [(10, 10)] with the
    pencil, a pointer-move whose coordinates are NaN is appended to the
    in-progress stroke. *)
Lemma malformed_point_is_appended : ~ rejectsMalformedMoves.
Proof.
  intros H.
  destruct (onPointerDown demoRandom demoIdText (Some demoCanvas)
              (PointerEvent.mk (Fin 10) (Fin 10)) firstRender) as [s1|] eqn:E1;
    [|discriminate].
  injection E1 as E1.
  destruct (H demoRandom demoCanvas (PointerEvent.mk NaN NaN) s1
              (withActiveStrokeRef
                 (Some (StrokeElement.mk "a"
                          [getCanvasPoint (PointerEvent.mk (Fin 10) (Fin 10)) demoCanvas;
                           Point.mk NaN NaN]
                          (StrokeStyle.mk Pen Pencil "#111111" (Fin 6)) None))
                 s1)) as [Hs _].
  - now left.
  - now subst s1.
  - subst s1; discriminate Hs.
Qed.

(** ** Pentagon and star *)













(** ** Airbrush sampler *)

Section Sampler.

Variable random : nat -> R.
Hypothesis random_range : forall k, (0 <= random k < 1)%R.

Lemma airbrushDot_sprayed (radius x y : R) (k : nat) :
  (2 <= radius)%R ->
  sprayedAround radius x y (airbrushDot random (Fin radius) (Fin x) (Fin y) k).
Proof.
  intros Hr; unfold airbrushDot, sprayedAround, Math.PI.
  rewrite ndiv_Fin by lra; cbn [nmul nadd Math.cos Math.sin Math.max Dot.x Dot.y Dot.r Dot.a].
  set (ang := (random k * PI * 2)%R).
  set (r := (random (k + 1) * radius)%R).
  exists (cos ang * r)%R, (sin ang * r)%R, (Rmax 1 (random (k + 2) * (radius / 3))).
  repeat split.
  - pose proof (random_range (k + 1)) as Hu.
    assert (0 <= r < radius)%R by (unfold r; nra).
    pose proof (sin2_cos2 ang) as Hsc; unfold Rsqr in Hsc.
    replace (cos ang * r * (cos ang * r) + sin ang * r * (sin ang * r))%R
      with ((sin ang * sin ang + cos ang * cos ang) * (r * r))%R by ring.
    rewrite Hsc; nra.
  - apply Rmax_l.
  - pose proof (random_range (k + 2)) as Hu.
    apply Rmax_lub; [apply Rmax_l |].
    apply Rle_trans with (radius / 3)%R; [nra | apply Rmax_r].
Qed.

Lemma airbrushBurst_sprayed (radius x y : R) (count : nat) :
  (2 <= radius)%R ->
  forall k,
    List.length (airbrushBurst random (Fin radius) (Fin x) (Fin y) count k) = count
    /\ Forall (sprayedAround radius x y)
         (airbrushBurst random (Fin radius) (Fin x) (Fin y) count k).
Proof.
  intros Hr; induction count as [|c IH]; intros k; simpl.
  - split; [reflexivity | constructor].
  - destruct (IH (k + 3)%nat) as (Hl & Hf); split; [now rewrite Hl |].
    constructor; [now apply airbrushDot_sprayed | exact Hf].
Qed.

(** The particles of the outer loop, burst by burst. *)
Lemma airbrushSteps_bursts (fx fy tx ty steps radius : R) (count : nat) :
  (2 <= radius)%R -> steps <> 0%R ->
  forall n i k,
    exists bursts : list (list Dot.t),
      airbrushSteps random (Point.mk (Fin fx) (Fin fy)) (Point.mk (Fin tx) (Fin ty))
        (Fin steps) (Fin radius) count i n k
      = List.concat bursts
      /\ List.length bursts = n
      /\ forall j b,
          nth_error bursts j = Some b ->
          List.length b = count
          /\ Forall (sprayedAround radius
                       (fx + (tx - fx) * (INR (i + j) / steps))
                       (fy + (ty - fy) * (INR (i + j) / steps))) b.
Proof.
  intros Hr Hs; induction n as [|n IH]; intros i k.
  - exists []; split; [reflexivity | split; [reflexivity |]].
    intros [|j] b Hb; discriminate Hb.
  - destruct (IH (S i) (k + 3 * count)%nat) as (bursts & He & Hl & Hb).
    cbn [airbrushSteps Point.x Point.y]; unfold ofNat.
    rewrite ndiv_Fin by exact Hs; cbn [nsub nneg nadd nmul].
    eexists (_ :: bursts); split; [cbn [List.concat]; rewrite He; reflexivity |].
    split; [simpl; now rewrite Hl |].
    intros [|j] b Hj; simpl in Hj.
    + injection Hj as <-; rewrite Nat.add_0_r; now apply airbrushBurst_sprayed.
    + rewrite <- Nat.add_succ_comm; now apply Hb.
Qed.

End Sampler.

Lemma Rmax_IZR (a b : Z) : Rmax (IZR a) (IZR b) = IZR (Z.max a b).
Proof.
  destruct (Z.le_ge_cases a b) as [H | H].
  - rewrite Z.max_r by exact H. apply Rmax_right, IZR_le, H.
  - rewrite Z.max_l by exact H. apply Rmax_left, IZR_le, H.
Qed.

Lemma Zceil_IZR (z : Z) : Zceil (IZR z) = z.
Proof. unfold Zceil; rewrite ZfloorNZ; lia. Qed.

Lemma sqrt_dist_defined (a b : R) :
  Math.sqrt (Fin a * Fin a + Fin b * Fin b) = Fin (sqrt (a * a + b * b)).
Proof.
  cbn [nmul nadd Math.sqrt].
  destruct (Rlt_dec (a * a + b * b) 0) as [H|]; [nra | reflexivity].
Qed.

(** [addAirbrushDots] on finite input: it returns, after
    [max(1, floor(d / 2)) + 1] turns of the outer loop. *)
Lemma addAirbrushDots_finite (random : nat -> R) (st : StrokeElement.t)
  (fx fy tx ty t : R) (k : nat) :
  StrokeStyle.size (StrokeElement.style st) = Fin t ->
  let from := Point.mk (Fin fx) (Fin fy) in
  let to := Point.mk (Fin tx) (Fin ty) in
  let d := sqrt ((fx - tx) * (fx - tx) + (fy - ty) * (fy - ty)) in
  let steps := Z.max 1 (Zfloor (d / 2)) in
  let radius := Rmax 2 t in
  let count := Z.to_nat (Zfloor (radius * (16 / 10))) in
  let old := match StrokeElement.dots st with Some ds => ds | None => [] end in
  addAirbrushDots random st from to k
  = Some (StrokeElement.mk (StrokeElement.id st) (StrokeElement.points st)
            (StrokeElement.style st)
            (Some (old ++ airbrushSteps random from to (Fin (IZR steps))
                            (Fin radius) count 0 (S (Z.to_nat steps)) k)),
          (k + 3 * count * S (Z.to_nat steps))%nat).
Proof.
  intros Ht from to d steps radius count old.
  unfold addAirbrushDots, dist; rewrite Ht.
  cbn [Point.x Point.y from to nsub nneg nadd].
  rewrite sqrt_dist_defined.
  rewrite ndiv_Fin by lra.
  cbn [Math.floor Math.max nmul].
  change (sqrt ((fx + - tx) * (fx + - tx) + (fy + - ty) * (fy + - ty))) with d.
  rewrite (Rmax_IZR 1 (Zfloor (d / 2))); fold steps radius.
  cbn [iterationsLe iterationsLt]; rewrite ZfloorZ, Zceil_IZR; fold count.
  replace (Z.to_nat (steps + 1)) with (S (Z.to_nat steps)) by (subst steps; lia).
  reflexivity.
Qed.


(** C3, as the code has it.  For finite points [from], [to] and finite
    thickness [t], with every random draw in [[0, 1)], [addAirbrushDots]
    returns and appends one burst of particles for each [i = 0 .. steps],
    where [steps = max(1, floor(distance(from, to) / 2))]: that is
    [steps + 1] bursts.  Each burst has [count = floor(radius * 1.6)]
    particles with [radius = max(2, t)], sprayed strictly within [radius]
    of the point interpolated at [i / steps], each with alpha 0.20 and a
    radius of its own between 1 and [max(1, radius / 3)].  Three random
    draws are used per particle. *)
Theorem airbrush_sampler :
  forall (random : nat -> R) (st : StrokeElement.t) (fx fy tx ty t : R) (k : nat),
    (forall i, (0 <= random i < 1)%R) ->
    StrokeStyle.size (StrokeElement.style st) = Fin t ->
    let from := Point.mk (Fin fx) (Fin fy) in
    let to := Point.mk (Fin tx) (Fin ty) in
    let d := sqrt ((fx - tx) * (fx - tx) + (fy - ty) * (fy - ty)) in
    let steps := Z.max 1 (Zfloor (d / 2)) in
    let radius := Rmax 2 t in
    let count := Z.to_nat (Zfloor (radius * (16 / 10))) in
    let old := match StrokeElement.dots st with Some ds => ds | None => [] end in
    exists bursts : list (list Dot.t),
      addAirbrushDots random st from to k
      = Some (StrokeElement.mk (StrokeElement.id st) (StrokeElement.points st)
                (StrokeElement.style st) (Some (old ++ List.concat bursts)),
              (k + 3 * count * (Z.to_nat steps + 1))%nat)
      /\ List.length bursts = (Z.to_nat steps + 1)%nat
      /\ forall i b,
          nth_error bursts i = Some b ->
          List.length b = count
          /\ Forall (sprayedAround radius
                       (fx + (tx - fx) * (INR i / IZR steps))
                       (fy + (ty - fy) * (INR i / IZR steps))) b.
Proof.
  intros random st fx fy tx ty t k Hrand Ht; cbv zeta.
  pose proof (addAirbrushDots_finite random st fx fy tx ty t k Ht) as E.
  cbv zeta in E; rewrite E; clear E.
  set (steps := Z.max 1 (Zfloor _)).
  set (radius := Rmax 2 t).
  set (count := Z.to_nat _).
  assert (Hsteps : IZR steps <> 0%R).
  { apply not_0_IZR; subst steps; lia. }
  destruct (airbrushSteps_bursts random Hrand fx fy tx ty (IZR steps) radius count
              (Rmax_l 2 t) Hsteps (S (Z.to_nat steps)) 0 k)
    as (bursts & He & Hl & Hb).
  exists bursts; split; [|split].
  - rewrite He, Nat.add_1_r; reflexivity.
  - now rewrite Hl, Nat.add_1_r.
  - exact Hb.
Qed.

Lemma thinStroke_count : Z.to_nat (Zfloor (Rmax 2 2 * (16 / 10))) = 3%nat.
Proof.
  rewrite Rmax_left by lra.
  rewrite (Zfloor_eq 3); [reflexivity | lra].
Qed.

Lemma thinStroke_steps :
  Z.max 1 (Zfloor (sqrt ((0 - 0) * (0 - 0) + (0 - 0) * (0 - 0)) / 2)) = 1%Z.
Proof.
  replace ((0 - 0) * (0 - 0) + (0 - 0) * (0 - 0))%R with 0%R by ring.
  rewrite sqrt_0.
  replace (0 / 2)%R with (IZR 0) by lra.
  now rewrite ZfloorZ.
Qed.

(** C3 as stated fails: with thickness 2 the particles have radius 1,
    which is more than [2 / 3]. *)
Lemma thin_airbrush_dots_exceed :
  exists (st' : StrokeElement.t) (k' : nat),
    addAirbrushDots demoRandom thinStroke
      (Point.mk (Fin 0) (Fin 0)) (Point.mk (Fin 0) (Fin 0)) 0
    = Some (st', k')
    /\ ~ dotsAsStated 2 st'.
Proof.
  do 2 eexists; split.
  - apply (addAirbrushDots_finite demoRandom thinStroke 0 0 0 0 2 0); reflexivity.
  - rewrite thinStroke_count; intros H.
    cbn [airbrushSteps airbrushBurst thinStroke StrokeElement.dots app] in H.
    edestruct H as (r & Hr & Hle); [reflexivity | left; reflexivity |].
    unfold airbrushDot, demoRandom in Hr; cbn [Dot.r] in Hr.
    rewrite ndiv_Fin in Hr by lra; cbn [nmul Math.max] in Hr.
    injection Hr as <-.
    pose proof (Rmax_l 1 (1 / 2 * (Rmax 2 2 / 3))); lra.
Qed.

(** ** Persisted record *)

Lemma asNumber_numberJSON (a : number) :
  isFinite a = true -> asNumber (numberJSON a) = Some a.
Proof. destruct a; simpl; intros H; [reflexivity | discriminate ..]. Qed.

Lemma traverse_map (A : Type) (enc : A -> json) (dec : json -> option A)
  (ok : A -> bool) (l : list A) :
  (forall a, ok a = true -> dec (enc a) = Some a) ->
  forallb ok l = true ->
  traverse dec (map enc l) = Some l.
Proof.
  intros H; induction l as [|a l IH]; simpl; [reflexivity |].
  intros Hl; apply andb_true_iff in Hl as [Ha Hl].
  now rewrite (H a Ha), (IH Hl).
Qed.

Lemma asPoint_pointJSON (p : Point.t) :
  finitePoint p = true -> asPoint (pointJSON p) = Some p.
Proof.
  destruct p as [x y]; unfold finitePoint; cbn [Point.x Point.y].
  intros H; apply andb_true_iff in H as [Hx Hy].
  unfold pointJSON, asPoint;
    cbn [Point.x Point.y getMember member String.eqb Ascii.eqb Bool.eqb].
  now rewrite (asNumber_numberJSON x Hx), (asNumber_numberJSON y Hy).
Qed.

Lemma asDot_dotJSON (d : Dot.t) :
  finiteDot d = true -> asDot (dotJSON d) = Some d.
Proof.
  destruct d as [x y r a]; unfold finiteDot; cbn [Dot.x Dot.y Dot.r Dot.a].
  rewrite !andb_true_iff; intros [[[Hx Hy] Hr] Ha].
  unfold dotJSON, asDot;
    cbn [Dot.x Dot.y Dot.r Dot.a getMember member String.eqb Ascii.eqb Bool.eqb].
  now rewrite (asNumber_numberJSON x Hx), (asNumber_numberJSON y Hy),
    (asNumber_numberJSON r Hr), (asNumber_numberJSON a Ha).
Qed.

Lemma asStyle_styleJSON (st : StrokeStyle.t) :
  isFinite (StrokeStyle.size st) = true -> asStyle (styleJSON st) = Some st.
Proof.
  destruct st as [t b c z]; cbn [StrokeStyle.size]; intros Hz.
  unfold styleJSON, asStyle;
    cbn [StrokeStyle.tool StrokeStyle.brush StrokeStyle.color StrokeStyle.size
         getMember member String.eqb Ascii.eqb Bool.eqb].
  rewrite (asNumber_numberJSON z Hz).
  destruct t, b; reflexivity.
Qed.

Lemma asElement_elementJSON (el : Element) :
  finiteElement el = true -> asElement (elementJSON el) = Some el.
Proof.
  destruct el as [[i ps st ds]|[i k a1 b1 a2 b2 c z]]; simpl finiteElement.
  - rewrite !andb_true_iff; intros [[Hp Hs] Hd].
    unfold elementJSON, strokeJSON, asElement, asStroke;
      cbn [StrokeElement.id StrokeElement.points StrokeElement.style
           StrokeElement.dots getMember member app String.eqb Ascii.eqb Bool.eqb].
    rewrite (traverse_map _ pointJSON asPoint finitePoint ps asPoint_pointJSON Hp),
      (asStyle_styleJSON st Hs).
    destruct ds as [ds|];
      cbn [getMember member app String.eqb Ascii.eqb Bool.eqb option_map].
    + now rewrite (traverse_map _ dotJSON asDot finiteDot ds asDot_dotJSON Hd).
    + reflexivity.
  - rewrite !andb_true_iff; intros [[[[H1 H2] H3] H4] H5].
    unfold elementJSON, shapeJSON, asElement, asShape;
      cbn [ShapeElement.id ShapeElement.shape ShapeElement.x1 ShapeElement.y1
           ShapeElement.x2 ShapeElement.y2 ShapeElement.color ShapeElement.size
           getMember member String.eqb Ascii.eqb Bool.eqb].
    rewrite (asNumber_numberJSON a1 H1), (asNumber_numberJSON b1 H2),
      (asNumber_numberJSON a2 H3), (asNumber_numberJSON b2 H4),
      (asNumber_numberJSON z H5).
    destruct k; reflexivity.
Qed.

(** Reading back what was written gives the scene that was written. *)
Lemma asScene_sceneJSON (scene : Scene) :
  finiteScene scene = true -> asScene (map elementJSON scene) = Some scene.
Proof. apply traverse_map, asElement_elementJSON. Qed.





(** * Worked instances *)

Lemma history_round_trip_witness :
  elements (Nat.iter 2 undo (commitAll demoDocs firstRender)) = []
  /\ elements (Nat.iter 2 redo (Nat.iter 2 undo (commitAll demoDocs firstRender)))
     = elements (commitAll demoDocs firstRender)
  /\ elements (commitAll demoDocs firstRender) = [Shape rectA; Shape lineA].
Proof.
  exact (history_round_trip demoDocs firstRender eq_refl eq_refl eq_refl).
Defined.

Lemma normalizeRect_direction_invariant_witness :
  drawShape (reverseDrag smallPentagon) = drawShape smallPentagon.
Proof.
  apply (proj2 (proj2 normalizeRect_direction_invariant)).
  simpl; discriminate.
Defined.

Lemma airbrush_sampler_witness :
  exists (st' : StrokeElement.t) (bursts : list (list Dot.t)),
    addAirbrushDots demoRandom thinStroke
      (Point.mk (Fin 0) (Fin 0)) (Point.mk (Fin 0) (Fin 0)) 0
    = Some (st', 18%nat)
    /\ StrokeElement.dots st' = Some (List.concat bursts)
    /\ List.length bursts = 2%nat.
Proof.
  assert (Hr : forall i, (0 <= demoRandom i < 1)%R)
    by (intros i; unfold demoRandom; lra).
  destruct (airbrush_sampler demoRandom thinStroke 0 0 0 0 2 0 Hr eq_refl)
    as (bursts & H & Hl & _).
  rewrite thinStroke_count, thinStroke_steps in H.
  rewrite thinStroke_steps in Hl.
  eexists; exists bursts; split; [exact H | split; [reflexivity | exact Hl]].
Defined.


Lemma redo_branch_discard_witness :
  canRedo (commit [] (undo (commitAll demoDocs firstRender))) = false.
Proof.
  apply (redo_branch_discard (commitAll demoDocs firstRender) []).
  lazy; discriminate.
Defined.


Lemma pointer_points_unchecked_witness :
  onPointerMove demoRandom (Some demoCanvas) (PointerEvent.mk NaN PInf) drawingState
  = Some (withActiveStrokeRef
            (Some (pushPoint drawingStroke
                     (getCanvasPoint (PointerEvent.mk NaN PInf) demoCanvas)))
            drawingState).
Proof.
  apply (proj1 (pointer_points_unchecked demoRandom demoIdText demoCanvas
                  (PointerEvent.mk NaN PInf) drawingState)
           drawingStroke (or_introl eq_refl) eq_refl).
  reflexivity.
Defined.

Lemma hitTest_line_total_witness :
  hitTestShapeChecked lineA (Point.mk (Fin 5) (Fin 3))
  = Some (hitTestShape lineA (Point.mk (Fin 5) (Fin 3))).
Proof.
  exact (proj1 (hitTest_line_total lineA (Point.mk (Fin 5) (Fin 3)) eq_refl)).
Defined.


Lemma commit_frame_witness :
  exists s',
    dispatch demoRandom demoIdText (Some demoCanvas) pointercancel
      (PointerEvent.mk (Fin 12) (Fin 15)) drawingState = Some s'
    /\ elements s' = elements drawingState ++ [Stroke drawingStroke]
    /\ slotCleared (Stroke drawingStroke) s'
    /\ historyAt s' (historyIndex s') = Some (elements s').
Proof.
  apply commit_frame.
  - right; reflexivity.
  - apply Drawing; [left; reflexivity | reflexivity].
Defined.

(** * The scenarios of the specification, run on the model *)

Ltac decide_reals :=
  unfold Rmin, Rmax in *; rdec; try reflexivity; try discriminate; try lra.

Example rect_scenario_draw :
  option_map elements afterRect = Some [Shape rectDrawn]
  /\ option_map historyIndex afterRect = Some 1%Z
  /\ boxOf rectDrawn
     = NRect.mk (Fin 10) (Fin 10) (Fin 50) (Fin 40) (Fin 40) (Fin 30).
Proof.
  split; [reflexivity | split; [reflexivity |]].
  unfold boxOf, rectDrawn;
    cbn [ShapeElement.x1 ShapeElement.y1 ShapeElement.x2 ShapeElement.y2
         nsub nneg nadd].
  rewrite normalizeRect_Fin, !Rmin_left, !Rmax_right by lra.
  f_equal; f_equal; lra.
Qed.

Example rect_scenario_hit :
  findHit [Shape rectDrawn] (getCanvasPoint (at_ 30 25) demoCanvas)
  = Some rectDrawn.
Proof.
  unfold findHit; cbn [shapesOf rev app find].
  replace (hitTestShape rectDrawn (getCanvasPoint (at_ 30 25) demoCanvas))
    with true; [reflexivity |].
  symmetry; unfold hitTestShape, nge, rectDrawn.
  cbn [ShapeElement.shape ShapeElement.size ShapeElement.x1 ShapeElement.y1
       ShapeElement.x2 ShapeElement.y2 getCanvasPoint at_ demoCanvas
       PointerEvent.clientX PointerEvent.clientY Canvas.left Canvas.top
       Point.x Point.y nsub nneg nadd Math.max].
  rewrite normalizeRect_Fin;
    cbn [NRect.left NRect.right NRect.top NRect.bottom nsub nneg nadd nle].
  decide_reals.
Qed.

Lemma select_down (random : nat -> R) (idText : nat -> string) (cv : Canvas.t)
  (e : PointerEvent.t) (s : State) (hit : ShapeElement.t) :
  tool s = ToolSelect ->
  findHit (elements s) (getCanvasPoint e cv) = Some hit ->
  onPointerDown random idText (Some cv) e s
  = Some (withDragRef
            (DragRef.mk ModeMove (ShapeElement.id hit) (getCanvasPoint e cv)
               (Anchors.mk (ShapeElement.x1 hit) (ShapeElement.y1 hit)
                  (ShapeElement.x2 hit) (ShapeElement.y2 hit)))
            (withSelectedId (Some (ShapeElement.id hit)) s)).
Proof. intros Ht Hh; unfold onPointerDown; now rewrite Ht, Hh. Qed.

Example rect_scenario_move_undo :
  exists s,
    afterDrag = Some s
    /\ elements s = [Shape rectMoved]
    /\ historyIndex s = 2%Z
    /\ elements (undo s) = [Shape rectDrawn]
    /\ boxOf rectMoved
       = NRect.mk (Fin 15) (Fin 15) (Fin 55) (Fin 45) (Fin 40) (Fin 30).
Proof.
  unfold afterDrag.
  change afterRect with
    (Some (onPointerUp (Some demoCanvas) (at_ 50 40)
             (withActiveShapeRef (Some rectDrawn)
                (withRandomCalls 1 (withSelectedId None (withTool ToolShape firstRender)))))).
  cbn [bind].
  erewrite select_down; [| reflexivity | exact rect_scenario_hit].
  cbn [bind].
  eexists; split; [reflexivity |].
  split; [reflexivity | split; [reflexivity | split; [reflexivity |]]].
  unfold boxOf, rectMoved, rectDrawn;
    cbn [ShapeElement.x1 ShapeElement.y1 ShapeElement.x2 ShapeElement.y2
         nsub nneg nadd].
  rewrite normalizeRect_Fin, !Rmin_left, !Rmax_right by lra.
  f_equal; f_equal; lra.
Qed.

(** The stroke scenario.  On a fresh board the release is handled by the
    listeners of the first render, and the stroke survives the undo.
    With the listeners of the current render (after a change of tool,
    brush, colour, size or selection, or after any commit) the undo gives
    back the empty board and the redo the stroke. *)
Example stroke_scenario :
  option_map elements (afterStroke FirstRender) = Some [Stroke strokeDrawn]
  /\ option_map (fun s => elements (undo s)) (afterStroke FirstRender)
     = Some [Stroke strokeDrawn]
  /\ option_map elements (afterStroke CurrentRender) = Some [Stroke strokeDrawn]
  /\ option_map (fun s => elements (undo s)) (afterStroke CurrentRender) = Some []
  /\ option_map (fun s => elements (redo (undo s))) (afterStroke CurrentRender)
     = Some [Stroke strokeDrawn].
Proof. repeat split; vm_compute; reflexivity. Qed.

(** The readers of the stored record find the members of an element by
    name, in any order, and pass over a member the component does not
    read. *)
Example stored_members_in_any_order :
  asElement
    (JObject [("size", JNumber 6); ("kind", JString "shape");
              ("y2", JNumber 40); ("x2", JNumber 50);
              ("y1", JNumber 10); ("x1", JNumber 10);
              ("color", JString "#111111"); ("shape", JString "rect");
              ("note", JNull); ("id", JString "r")])
  = Some (Shape rectA).
Proof. reflexivity. Qed.

(** Hit-test tolerance: a point on the edge of the rectangle is hit, a
    point [pad + 1 = 7] pixels outside is not. *)
Example hit_test_tolerance :
  hitTestShape rectA (Point.mk (Fin 50) (Fin 25)) = true
  /\ hitTestShape rectA (Point.mk (Fin 57) (Fin 25)) = false.
Proof.
  unfold hitTestShape, nge, rectA;
    cbn [ShapeElement.shape ShapeElement.size ShapeElement.x1 ShapeElement.y1
         ShapeElement.x2 ShapeElement.y2 Point.x Point.y Math.max].
  rewrite normalizeRect_Fin;
    cbn [NRect.left NRect.right NRect.top NRect.bottom nsub nneg nadd nle].
  split; decide_reals.
Qed.

(** The handlers attached in the first render keep the history of that
    render ([[]], cursor -1) until [tool], [brush], [color], [size],
    [elements] or [selectedId] changes, and the seeding effect changes none
    of them.  A commit made through them right after the first render
    therefore replaces the seeded snapshot instead of following it, and
    that commit cannot be undone. *)
Remark first_render_closure :
  forall doc : Scene,
    let s := pushHistoryFrom (history initialState) (historyIndex initialState)
               doc (withElements doc firstRender) in
    history s = [doc] /\ historyIndex s = 0%Z /\ canUndo s = false.
Proof.
  intros doc s; subst s; unfold pushHistoryFrom; simpl.
  now rewrite deepCloneScene_eq.
Qed.

(** * Further properties of the code *)

(** ** What the pointer-down and pointer-move handlers leave alone *)

Lemma dispatch_down_move_same (random : nat -> R) (idText : nat -> string)
  (canvas : option Canvas.t) (ty : PointerEventType)
  (e : PointerEvent.t) (s s' : State) :
  ty = pointerdown \/ ty = pointermove ->
  dispatch random idText canvas ty e s = Some s' ->
  elements s' = elements s
  /\ history s' = history s
  /\ historyIndex s' = historyIndex s
  /\ localStorage s' = localStorage s.
Proof.
  intros Hty H.
  destruct canvas as [cv|]; [| injection H as <-; auto].
  cbn [dispatch] in H.
  destruct Hty as [-> | ->]; cbn iota in H.
  - unfold onPointerDown in H.
    destruct (tool s).
    + cbn [makeId] in H.
      match type of H with
      | (if ?b then _ else _) = _ => destruct b
      end;
        [destruct (addAirbrushDots _ _ _ _ _) as [[st' k']|]; [|discriminate] |];
        injection H as <-; auto.
    + cbn [makeId] in H.
      match type of H with
      | (if ?b then _ else _) = _ => destruct b
      end;
        [destruct (addAirbrushDots _ _ _ _ _) as [[st' k']|]; [|discriminate] |];
        injection H as <-; auto.
    + destruct (findHit _ _); injection H as <-; auto.
    + cbn [makeId] in H; injection H as <-; auto.
  - unfold onPointerMove, extendStroke in H.
    destruct (tool s), (DragRef.mode (dragRef s)), (activeShapeRef s),
      (activeStrokeRef s) as [st|];
      try (injection H as <-; auto; fail);
      (destruct (isAirbrushPen (StrokeElement.style st));
       [destruct (lastPoint st);
        [destruct (addAirbrushDots _ _ _ _ _) as [[st' k']|]; [|discriminate] |] |];
       injection H as <-; auto).
Qed.

(** X1.  A pointer-down or a pointer-move, whatever the tool and the
    event, changes neither the document nor the history, its cursor or
    the stored record: only a release commits. *)
Theorem pointer_down_move_frame :
  forall (random : nat -> R) (idText : nat -> string)
         (canvas : option Canvas.t) (ty : PointerEventType)
         (e : PointerEvent.t) (s s' : State),
    ty = pointerdown \/ ty = pointermove ->
    dispatch random idText canvas ty e s = Some s' ->
    elements s' = elements s
    /\ history s' = history s
    /\ historyIndex s' = historyIndex s
    /\ localStorage s' = localStorage s.
Proof.
  intros random idText canvas ty e s s' Hty H.
  exact (dispatch_down_move_same random idText canvas ty e s s' Hty H).
Qed.

(** ** The document and the history stay in step *)

Lemma historySynced_same (s s' : State) :
  elements s' = elements s -> history s' = history s ->
  historyIndex s' = historyIndex s ->
  historySynced s -> historySynced s'.
Proof.
  unfold historySynced, historyAt; intros -> -> ->; auto.
Qed.

Lemma historySynced_commit (doc : Scene) (s : State) :
  historySynced (pushHistory doc (withElements doc s)).
Proof.
  unfold historySynced.
  rewrite (historyAt_pushHistory doc (withElements doc s)); reflexivity.
Qed.

Lemma undo_cases (s : State) :
  undo s = s
  \/ exists snap,
      historyAt s (historyIndex s - 1) = Some snap
      /\ undo s
         = withSelectedId None
             (withElements snap (withHistoryIndex (historyIndex s - 1) s)).
Proof.
  unfold undo.
  destruct (negb (canUndo s)); [now left |].
  destruct (historyAt s (historyIndex s - 1)) as [snap|]; [right | now left].
  now exists snap.
Qed.

Lemma redo_cases (s : State) :
  redo s = s
  \/ exists snap,
      historyAt s (historyIndex s + 1) = Some snap
      /\ redo s
         = withSelectedId None
             (withElements snap (withHistoryIndex (historyIndex s + 1) s)).
Proof.
  unfold redo.
  destruct (negb (canRedo s)); [now left |].
  destruct (historyAt s (historyIndex s + 1)) as [snap|]; [right | now left].
  now exists snap.
Qed.

Lemma historySynced_undo (s : State) : historySynced s -> historySynced (undo s).
Proof.
  intros H; destruct (undo_cases s) as [-> | (snap & Hs & ->)]; [exact H | exact Hs].
Qed.

Lemma historySynced_redo (s : State) : historySynced s -> historySynced (redo s).
Proof.
  intros H; destruct (redo_cases s) as [-> | (snap & Hs & ->)]; [exact H | exact Hs].
Qed.

Lemma historySynced_deleteSelected (s : State) :
  historySynced s -> historySynced (deleteSelected s).
Proof.
  intros H; unfold deleteSelected.
  destruct (truthyId (selectedId s)); [| exact H].
  apply (historySynced_commit _ (withSelectedId None s)).
Qed.

Lemma historySynced_commitFrom (closureHistory : list Scene) (closureIndex : Z)
  (doc : Scene) (s : State) :
  closureHistory = history s \/ (closureIndex < 0)%Z ->
  historySynced (pushHistoryFrom closureHistory closureIndex doc (withElements doc s)).
Proof.
  intros Hc; unfold historySynced, historyAt, pushHistoryFrom;
    cbn [history historyIndex elements withLocalStorage withHistoryIndex
         withHistory withElements].
  rewrite deepCloneScene_eq.
  destruct (Z.leb_spec 0 closureIndex) as [Hle | Hlt].
  - destruct Hc as [-> | Hneg]; [| lia].
    destruct (Z.ltb_spec (Z.of_nat (List.length
                (firstn (Z.to_nat (closureIndex + 1)) (history s)))) 0); [lia |].
    rewrite Nat2Z.id, nth_error_app2 by lia.
    now rewrite Nat.sub_diag.
  - reflexivity.
Qed.

Lemma onPointerUp_current (canvas : option Canvas.t) (e : PointerEvent.t)
  (s : State) :
  onPointerUp canvas e s
  = onPointerUpFrom (history s) (historyIndex s) canvas e s.
Proof. reflexivity. Qed.

Lemma historySynced_onPointerUpFrom (closureHistory : list Scene)
  (closureIndex : Z) (canvas : option Canvas.t) (e : PointerEvent.t)
  (s : State) :
  closureHistory = history s \/ (closureIndex < 0)%Z ->
  historySynced s ->
  historySynced (onPointerUpFrom closureHistory closureIndex canvas e s).
Proof.
  intros Hc H; unfold onPointerUpFrom.
  destruct (tool s), (DragRef.mode (dragRef s)), (activeShapeRef s) as [sh|],
    (activeStrokeRef s) as [st|];
    try exact H;
    try apply (historySynced_commitFrom _ _ _ (withActiveStrokeRef None s) Hc);
    try apply (historySynced_commitFrom _ _ _ (withActiveShapeRef None s) Hc);
    (destruct (truthyId (selectedId s)), canvas;
     [apply (historySynced_commitFrom _ _ _
               (withDragRef (setDragMode ModeNone (dragRef s)) s) Hc)
     | exact H ..]).
Qed.

Lemma historySynced_onPointerUp (canvas : option Canvas.t) (e : PointerEvent.t)
  (s : State) :
  historySynced s -> historySynced (onPointerUp canvas e s).
Proof.
  rewrite onPointerUp_current; apply historySynced_onPointerUpFrom; now left.
Qed.

Lemma historySynced_onKey (e : KeyboardEvent.t) (s : State) :
  historySynced s -> historySynced (onKey e s).
Proof.
  intros H; unfold onKey.
  repeat match goal with
         | |- historySynced (if ?b then _ else _) => destruct b
         | |- historySynced (match ?o with Some _ => _ | None => _ end) =>
             destruct o
         end;
    auto using historySynced_undo, historySynced_redo, historySynced_deleteSelected.
Qed.

Lemma historySynced_dispatch (random : nat -> R) (idText : nat -> string)
  (canvas : option Canvas.t) (ty : PointerEventType) (e : PointerEvent.t)
  (s s' : State) :
  dispatch random idText canvas ty e s = Some s' ->
  historySynced s -> historySynced s'.
Proof.
  intros Hs H; destruct ty.
  - destruct (dispatch_down_move_same random idText canvas pointerdown e s s'
                (or_introl eq_refl) Hs) as (He & Hh & Hi & _).
    exact (historySynced_same s s' He Hh Hi H).
  - destruct (dispatch_down_move_same random idText canvas pointermove e s s'
                (or_intror eq_refl) Hs) as (He & Hh & Hi & _).
    exact (historySynced_same s s' He Hh Hi H).
  - unfold dispatch in Hs; destruct canvas; injection Hs as <-;
      auto using historySynced_onPointerUp.
  - unfold dispatch in Hs; destruct canvas; injection Hs as <-;
      auto using historySynced_onPointerUp.
Qed.

Lemma historySynced_dispatchBound (random : nat -> R) (idText : nat -> string)
  (b : Binding) (canvas : option Canvas.t) (ty : PointerEventType)
  (e : PointerEvent.t) (s s' : State) :
  dispatchBound random idText b canvas ty e s = Some s' ->
  historySynced s -> historySynced s'.
Proof.
  intros Hs H; unfold dispatchBound in Hs.
  destruct b, ty, canvas as [cv|];
    try exact (historySynced_dispatch random idText _ _ e s s' Hs H);
    injection Hs as <-; apply historySynced_onPointerUpFrom;
    solve [exact H | right; reflexivity].
Qed.

Lemma historySynced_step (random : nat -> R) (idText : nat -> string)
  (canvas : option Canvas.t) (c : Command) (s s' : State) :
  step random idText canvas c s = Some s' ->
  historySynced s -> historySynced s'.
Proof.
  intros Hs H; destruct c as [b ty e|e| | | | |t|k|br|c|n]; cbn [step] in Hs;
    try (injection Hs as <-);
    auto using historySynced_undo, historySynced_redo,
      historySynced_deleteSelected, historySynced_onKey.
  - exact (historySynced_dispatchBound random idText b canvas ty e s s' Hs H).
  - reflexivity.
Qed.

Lemma historySynced_run (random : nat -> R) (idText : nat -> string)
  (canvas : option Canvas.t) (cs : list Command) :
  forall s s' : State,
    runCommands random idText canvas cs s = Some s' ->
    historySynced s -> historySynced s'.
Proof.
  induction cs as [|c cs IH]; intros s s' Hr H; cbn [runCommands] in Hr.
  - now injection Hr as <-.
  - destruct (step random idText canvas c s) as [s1|] eqn:E; [|discriminate].
    exact (IH s1 s' Hr (historySynced_step random idText canvas c s s1 E H)).
Qed.

(** X2.  On a board that starts empty, after any sequence of pointer
    events, key presses, button clicks and control changes, each pointer
    event handled by the listeners of the current render or by those of
    the first one, the document is the snapshot under the history cursor
    (which therefore is a valid index): the history never gets out of
    step with the document. *)
Theorem history_stays_synced :
  forall (random : nat -> R) (idText : nat -> string)
         (canvas : option Canvas.t) (cs : list Command) (s : State),
    runCommands random idText canvas cs firstRender = Some s ->
    historyAt s (historyIndex s) = Some (elements s)
    /\ (0 <= historyIndex s < Z.of_nat (List.length (history s)))%Z.
Proof.
  intros random idText canvas cs s Hr.
  assert (H : historySynced s).
  { apply (historySynced_run random idText canvas cs firstRender s Hr).
    reflexivity. }
  split; [exact H |].
  unfold historySynced, historyAt in H.
  destruct (Z.ltb_spec (historyIndex s) 0); [discriminate |].
  assert (Hn : nth_error (history s) (Z.to_nat (historyIndex s)) <> None)
    by (rewrite H; discriminate).
  apply nth_error_Some in Hn; lia.
Qed.

(** ** Strokes stay well formed *)

Lemma addAirbrushDots_appends (random : nat -> R) (st st' : StrokeElement.t)
  (a b : Point.t) (k k' : nat) :
  addAirbrushDots random st a b k = Some (st', k') ->
  exists new : list Dot.t,
    StrokeElement.dots st'
    = Some (match StrokeElement.dots st with Some ds => ds | None => [] end
            ++ new).
Proof.
  unfold addAirbrushDots.
  destruct (iterationsLe _) as [[|n]|]; [| |discriminate].
  - intros [= <- _]; exists []; cbn [StrokeElement.dots]; now rewrite app_nil_r.
  - destruct (iterationsLt _) as [count|]; [|discriminate].
    intros [= <- _]; eexists; reflexivity.
Qed.

Lemma strokeOk_addAirbrushDots (random : nat -> R) (st st' : StrokeElement.t)
  (a b : Point.t) (k k' : nat) :
  addAirbrushDots random st a b k = Some (st', k') ->
  StrokeElement.points st <> [] ->
  isAirbrushPen (StrokeElement.style st) = true ->
  strokeOk st' = true.
Proof.
  intros H Hp Ha.
  destruct (addAirbrushDots_points _ _ _ _ _ _ _ H) as (Ep & Es & _).
  destruct (addAirbrushDots_appends _ _ _ _ _ _ _ H) as (new & Ed).
  unfold strokeOk; rewrite Ep, Es, Ed, Ha.
  destruct (StrokeElement.points st); [contradiction | reflexivity].
Qed.

Lemma strokeOk_points (st : StrokeElement.t) :
  strokeOk st = true -> StrokeElement.points st <> [].
Proof.
  unfold strokeOk; destruct (StrokeElement.points st); [discriminate | discriminate].
Qed.

Lemma strokeOk_extendStroke (random : nat -> R) (st : StrokeElement.t)
  (p : Point.t) (s s' : State) :
  strokeOk st = true ->
  extendStroke random st p s = Some s' ->
  exists st',
    activeStrokeRef s' = Some st' /\ strokeOk st' = true
    /\ elements s' = elements s /\ history s' = history s.
Proof.
  intros Hok; unfold extendStroke.
  assert (Hpush : strokeOk (pushPoint st p) = true).
  { unfold strokeOk, pushPoint in *; cbn [StrokeElement.points StrokeElement.dots
                                          StrokeElement.style].
    apply andb_true_iff in Hok as [_ Hd]; rewrite Hd.
    destruct (StrokeElement.points st); reflexivity. }
  destruct (isAirbrushPen (StrokeElement.style st)) eqn:Ha.
  - destruct (lastPoint st) as [lst|].
    + destruct (addAirbrushDots random (pushPoint st p) lst p (randomCalls s))
        as [[st2 k]|] eqn:E; [|discriminate].
      intros [= <-]; exists st2; repeat split.
      apply (strokeOk_addAirbrushDots _ _ _ _ _ _ _ E);
        [apply strokeOk_points, Hpush | exact Ha].
    + intros [= <-]; exists (pushPoint st p); repeat split; exact Hpush.
  - intros [= <-]; exists (pushPoint st p); repeat split; exact Hpush.
Qed.

Lemma forallb_firstn (A : Type) (f : A -> bool) (n : nat) (l : list A) :
  forallb f l = true -> forallb f (firstn n l) = true.
Proof.
  revert l; induction n as [|n IH]; intros [|a l]; simpl; auto.
  intros H; apply andb_true_iff in H as [Ha Hl]; now rewrite Ha, IH.
Qed.

Lemma historyOk_pushHistoryFrom (closureHistory : list Scene) (closureIndex : Z)
  (doc : Scene) (s : State) :
  sceneOk doc = true -> forallb sceneOk (history s) = true ->
  forallb sceneOk (history (pushHistoryFrom closureHistory closureIndex doc s))
  = true.
Proof.
  intros Hd Hh; unfold pushHistoryFrom; cbn [history withLocalStorage
    withHistoryIndex withHistory].
  rewrite forallb_app, deepCloneScene_eq; cbn [forallb]; rewrite Hd.
  destruct (0 <=? closureIndex)%Z; [rewrite forallb_firstn by exact Hh |];
    reflexivity.
Qed.

Lemma historyAt_ok (s : State) (i : Z) (snap : Scene) :
  forallb sceneOk (history s) = true ->
  historyAt s i = Some snap -> sceneOk snap = true.
Proof.
  unfold historyAt; intros Hh H.
  destruct (i <? 0)%Z; [discriminate |].
  apply nth_error_In in H.
  rewrite forallb_forall in Hh; auto.
Qed.

Lemma sceneOk_moveShape (id : string) (orig : Anchors.t) (dx dy : number)
  (scene : Scene) :
  sceneOk scene = true -> sceneOk (map (moveShape id orig dx dy) scene) = true.
Proof.
  unfold sceneOk; induction scene as [|[st|sh] scene IH]; simpl; auto.
  - intros H; apply andb_true_iff in H as [-> H]; auto.
  - intros H; rewrite (IH H).
    destruct (negb (String.eqb (ShapeElement.id sh) id)); reflexivity.
Qed.

Lemma sceneOk_filter (f : Element -> bool) (scene : Scene) :
  sceneOk scene = true -> sceneOk (filter f scene) = true.
Proof.
  unfold sceneOk; induction scene as [|el scene IH]; simpl; auto.
  intros H; apply andb_true_iff in H as [He H].
  destruct (f el); simpl; [rewrite He |]; auto.
Qed.

Lemma sceneOk_snoc (scene : Scene) (el : Element) :
  sceneOk scene = true -> elementOk el = true ->
  sceneOk (scene ++ [el]) = true.
Proof.
  unfold sceneOk; intros H He; rewrite forallb_app, H; simpl; now rewrite He.
Qed.

(** The three parts of [strokesOk]. *)
Lemma strokesOk_iff (s : State) :
  strokesOk s = true
  <-> sceneOk (elements s) = true
      /\ forallb sceneOk (history s) = true
      /\ match activeStrokeRef s with
         | Some st => strokeOk st = true
         | None => True
         end.
Proof.
  unfold strokesOk; rewrite !andb_true_iff.
  destruct (activeStrokeRef s); intuition.
Qed.

Lemma strokesOk_commitFrom (closureHistory : list Scene) (closureIndex : Z)
  (doc : Scene) (s : State) :
  sceneOk doc = true ->
  forallb sceneOk (history s) = true ->
  match activeStrokeRef s with Some st => strokeOk st = true | None => True end ->
  strokesOk (pushHistoryFrom closureHistory closureIndex doc (withElements doc s))
  = true.
Proof.
  intros Hd Hh Ha; apply strokesOk_iff; repeat split.
  - exact Hd.
  - apply (historyOk_pushHistoryFrom _ _ doc (withElements doc s) Hd Hh).
  - exact Ha.
Qed.

Lemma strokesOk_commit (doc : Scene) (s : State) :
  sceneOk doc = true ->
  forallb sceneOk (history s) = true ->
  match activeStrokeRef s with Some st => strokeOk st = true | None => True end ->
  strokesOk (pushHistory doc (withElements doc s)) = true.
Proof. apply strokesOk_commitFrom. Qed.

Lemma strokesOk_undo (s : State) : strokesOk s = true -> strokesOk (undo s) = true.
Proof.
  intros H; destruct (undo_cases s) as [-> | (snap & Hs & ->)]; [exact H |].
  apply strokesOk_iff in H as (He & Hh & Ha).
  apply strokesOk_iff; repeat split; auto.
  exact (historyAt_ok s _ snap Hh Hs).
Qed.

Lemma strokesOk_redo (s : State) : strokesOk s = true -> strokesOk (redo s) = true.
Proof.
  intros H; destruct (redo_cases s) as [-> | (snap & Hs & ->)]; [exact H |].
  apply strokesOk_iff in H as (He & Hh & Ha).
  apply strokesOk_iff; repeat split; auto.
  exact (historyAt_ok s _ snap Hh Hs).
Qed.

Lemma strokesOk_deleteSelected (s : State) :
  strokesOk s = true -> strokesOk (deleteSelected s) = true.
Proof.
  intros H; unfold deleteSelected.
  destruct (truthyId (selectedId s)); [| exact H].
  apply strokesOk_iff in H as (He & Hh & Ha).
  apply (strokesOk_commit _ (withSelectedId None s)); auto.
  now apply sceneOk_filter.
Qed.

Lemma strokesOk_onKey (e : KeyboardEvent.t) (s : State) :
  strokesOk s = true -> strokesOk (onKey e s) = true.
Proof.
  intros H; unfold onKey.
  repeat match goal with
         | |- strokesOk (if ?b then _ else _) = true => destruct b
         | |- strokesOk (match ?o with Some _ => _ | None => _ end) = true =>
             destruct o
         end;
    auto using strokesOk_undo, strokesOk_redo, strokesOk_deleteSelected.
Qed.

Lemma strokesOk_onPointerUpFrom (closureHistory : list Scene)
  (closureIndex : Z) (canvas : option Canvas.t) (e : PointerEvent.t)
  (s : State) :
  strokesOk s = true ->
  strokesOk (onPointerUpFrom closureHistory closureIndex canvas e s) = true.
Proof.
  intros H; pose proof H as H0; apply strokesOk_iff in H as (He & Hh & Ha).
  unfold onPointerUpFrom.
  destruct (tool s), (DragRef.mode (dragRef s)), (activeShapeRef s) as [sh|],
    (activeStrokeRef s) as [st|] eqn:Est;
    try exact H0;
    try (apply (strokesOk_commitFrom _ _ _ (withActiveStrokeRef None s));
         [apply sceneOk_snoc; [exact He | exact Ha] | exact Hh | exact I]);
    try (apply (strokesOk_commitFrom _ _ _ (withActiveShapeRef None s));
         [apply sceneOk_snoc; [exact He | reflexivity] | exact Hh
         | cbn [activeStrokeRef withActiveShapeRef]; rewrite ?Est; exact Ha]);
    (destruct (truthyId (selectedId s)), canvas;
     [apply (strokesOk_commitFrom _ _ _
               (withDragRef (setDragMode ModeNone (dragRef s)) s));
      [apply sceneOk_moveShape, He | exact Hh
      | cbn [activeStrokeRef withDragRef]; rewrite ?Est; exact Ha]
     | apply strokesOk_iff; cbn [activeStrokeRef withDragRef elements history];
       rewrite ?Est; auto ..]).
Qed.

Lemma strokesOk_onPointerUp (canvas : option Canvas.t) (e : PointerEvent.t)
  (s : State) :
  strokesOk s = true -> strokesOk (onPointerUp canvas e s) = true.
Proof. rewrite onPointerUp_current; apply strokesOk_onPointerUpFrom. Qed.

Lemma strokesOk_onPointerDown (random : nat -> R) (idText : nat -> string)
  (canvas : option Canvas.t) (e : PointerEvent.t) (s s' : State) :
  onPointerDown random idText canvas e s = Some s' ->
  strokesOk s = true -> strokesOk s' = true.
Proof.
  intros Hd H; pose proof H as H0; apply strokesOk_iff in H as (He & Hh & Ha).
  unfold onPointerDown in Hd.
  destruct canvas as [cv|]; [| now injection Hd as <-].
  destruct (tool s) eqn:Et.
  - (* pen *)
    cbn [makeId] in Hd.
    destruct (brush s) eqn:Eb; cbn [isAirbrushPen StrokeElement.style
      StrokeStyle.tool StrokeStyle.brush] in Hd;
      try (injection Hd as <-; apply strokesOk_iff; repeat split; auto; fail).
    destruct (addAirbrushDots _ _ _ _ _) as [[st' k']|] eqn:E; [|discriminate].
    injection Hd as <-; apply strokesOk_iff; repeat split; auto.
    cbn [activeStrokeRef withRandomCalls withActiveStrokeRef].
    apply (strokeOk_addAirbrushDots _ _ _ _ _ _ _ E); [discriminate | reflexivity].
  - (* eraser *)
    cbn [makeId isAirbrushPen StrokeElement.style StrokeStyle.tool] in Hd.
    injection Hd as <-; apply strokesOk_iff; repeat split; auto.
  - destruct (findHit _ _); injection Hd as <-; exact H0.
  - cbn [makeId] in Hd; injection Hd as <-; exact H0.
Qed.

Lemma strokesOk_onPointerMove (random : nat -> R)
  (canvas : option Canvas.t) (e : PointerEvent.t) (s s' : State) :
  onPointerMove random canvas e s = Some s' ->
  strokesOk s = true -> strokesOk s' = true.
Proof.
  intros Hm H; pose proof H as H0; apply strokesOk_iff in H as (He & Hh & Ha).
  unfold onPointerMove in Hm.
  destruct canvas as [cv|]; [| now injection Hm as <-].
  destruct (tool s), (DragRef.mode (dragRef s)), (activeShapeRef s) as [sh|],
    (activeStrokeRef s) as [st|] eqn:Est;
    try (injection Hm as <-; first [exact H0 | apply strokesOk_iff;
           cbn [activeStrokeRef withActiveShapeRef elements history];
           rewrite ?Est; auto]; fail);
    (destruct (strokeOk_extendStroke random st _ s s' Ha Hm)
       as (st' & E1 & E2 & E3 & E4);
     apply strokesOk_iff; rewrite E1, E3, E4; auto).
Qed.

Lemma strokesOk_dispatch (random : nat -> R) (idText : nat -> string)
  (canvas : option Canvas.t) (ty : PointerEventType) (e : PointerEvent.t)
  (s s' : State) :
  dispatch random idText canvas ty e s = Some s' ->
  strokesOk s = true -> strokesOk s' = true.
Proof.
  intros Hs H.
  unfold dispatch in Hs; destruct canvas as [cv|]; [| now injection Hs as <-].
  destruct ty.
  - exact (strokesOk_onPointerDown random idText _ e s s' Hs H).
  - exact (strokesOk_onPointerMove random _ e s s' Hs H).
  - injection Hs as <-; now apply strokesOk_onPointerUp.
  - injection Hs as <-; now apply strokesOk_onPointerUp.
Qed.

Lemma strokesOk_step (random : nat -> R) (idText : nat -> string)
  (canvas : option Canvas.t) (c : Command) (s s' : State) :
  step random idText canvas c s = Some s' ->
  strokesOk s = true -> strokesOk s' = true.
Proof.
  intros Hs H; destruct c as [b ty e|e| | | | |t|k|br|c|n]; cbn [step] in Hs;
    try (injection Hs as <-);
    auto using strokesOk_undo, strokesOk_redo, strokesOk_deleteSelected,
      strokesOk_onKey.
  - unfold dispatchBound in Hs.
    destruct b, ty, canvas as [cv|];
      try exact (strokesOk_dispatch random idText _ _ e s s' Hs H);
      injection Hs as <-; now apply strokesOk_onPointerUpFrom.
  - apply strokesOk_iff in H as (He & Hh & Ha).
    apply strokesOk_iff; cbn [clearBoard elements history activeStrokeRef
      withLocalStorage withHistoryIndex withHistory withElements withSelectedId];
      auto.
Qed.

Lemma strokesOk_run (random : nat -> R) (idText : nat -> string)
  (canvas : option Canvas.t) (cs : list Command) :
  forall s s' : State,
    runCommands random idText canvas cs s = Some s' ->
    strokesOk s = true -> strokesOk s' = true.
Proof.
  induction cs as [|c cs IH]; intros s s' Hr H; cbn [runCommands] in Hr.
  - now injection Hr as <-.
  - destruct (step random idText canvas c s) as [s1|] eqn:E; [|discriminate].
    exact (IH s1 s' Hr (strokesOk_step random idText canvas c s s1 E H)).
Qed.

(** X3.  On a board that starts empty, after any sequence of pointer
    events, key presses, button clicks and control changes, each pointer
    event handled by the listeners of the current render or by those of
    the first one, every stroke
    of the document, of every history snapshot and the in-progress one has
    at least one point, and has a particle array exactly when it is a pen
    stroke made with the airbrush. *)
Theorem strokes_stay_well_formed :
  forall (random : nat -> R) (idText : nat -> string)
         (canvas : option Canvas.t) (cs : list Command) (s : State),
    runCommands random idText canvas cs firstRender = Some s ->
    (forall st, In (Stroke st) (elements s) -> strokeOk st = true)
    /\ (forall snap st,
           In snap (history s) -> In (Stroke st) snap -> strokeOk st = true)
    /\ (forall st, activeStrokeRef s = Some st -> strokeOk st = true).
Proof.
  intros random idText canvas cs s Hr.
  assert (H : strokesOk s = true).
  { apply (strokesOk_run random idText canvas cs firstRender s Hr); reflexivity. }
  apply strokesOk_iff in H as (He & Hh & Ha).
  unfold sceneOk in He; rewrite forallb_forall in He, Hh.
  split; [| split].
  - intros st Hin; exact (He (Stroke st) Hin).
  - intros snap st Hs Hin; specialize (Hh snap Hs).
    unfold sceneOk in Hh; rewrite forallb_forall in Hh; exact (Hh (Stroke st) Hin).
  - intros st Est; now rewrite Est in Ha.
Qed.

(** ** Undo, redo, clear and delete *)

Lemma historySynced_range (s : State) :
  historySynced s ->
  (0 <= historyIndex s < Z.of_nat (List.length (history s)))%Z
  /\ nth_error (history s) (Z.to_nat (historyIndex s)) = Some (elements s).
Proof.
  unfold historySynced, historyAt; intros H.
  destruct (Z.ltb_spec (historyIndex s) 0); [discriminate |].
  split; [| exact H].
  assert (Hn : nth_error (history s) (Z.to_nat (historyIndex s)) <> None)
    by (rewrite H; discriminate).
  apply nth_error_Some in Hn; lia.
Qed.

Lemma nth_error_in_range (A : Type) (l : list A) (n : nat) :
  (n < List.length l)%nat -> exists a, nth_error l n = Some a.
Proof.
  intros H; destruct (nth_error l n) as [a|] eqn:E; [now exists a |].
  apply nth_error_None in E; lia.
Qed.

(** X4.  In a state whose document is the snapshot under the cursor, an
    undo that is possible moves the cursor one down and keeps the history,
    and a redo right after it gives back the cursor and the document; the
    same holds for a redo followed by an undo. *)
Theorem undo_redo_round_trip :
  forall s : State,
    historyAt s (historyIndex s) = Some (elements s) ->
    (canUndo s = true ->
     historyIndex (undo s) = (historyIndex s - 1)%Z
     /\ history (undo s) = history s
     /\ canRedo (undo s) = true
     /\ elements (redo (undo s)) = elements s
     /\ historyIndex (redo (undo s)) = historyIndex s
     /\ history (redo (undo s)) = history s)
    /\ (canRedo s = true ->
        historyIndex (redo s) = (historyIndex s + 1)%Z
        /\ history (redo s) = history s
        /\ canUndo (redo s) = true
        /\ elements (undo (redo s)) = elements s
        /\ historyIndex (undo (redo s)) = historyIndex s
        /\ history (undo (redo s)) = history s).
Proof.
  intros s Hsync; destruct (historySynced_range s Hsync) as (Hr & Hn).
  split.
  - unfold canUndo; rewrite Z.ltb_lt; intros Hu.
    destruct (nth_error_in_range _ (history s) (Z.to_nat (historyIndex s - 1)))
      as (snap & Hs); [lia |].
    rewrite (undo_step s snap Hu Hs).
    set (u := withSelectedId None _).
    assert (Hredo : redo u
                    = withSelectedId None
                        (withElements (elements s)
                           (withHistoryIndex (historyIndex u + 1) u))).
    { apply redo_step; subst u; cbn [historyIndex history withSelectedId
        withElements withHistoryIndex]; [lia |].
      replace (Z.to_nat (historyIndex s - 1 + 1)) with (Z.to_nat (historyIndex s))
        by lia.
      exact Hn. }
    rewrite Hredo; subst u; cbn [historyIndex history elements withSelectedId
      withElements withHistoryIndex].
    repeat split; try lia.
    unfold canRedo; cbn [historyIndex history withSelectedId withElements
      withHistoryIndex].
    apply andb_true_iff; split; [apply Z.leb_le | apply Z.ltb_lt]; lia.
  - unfold canRedo; rewrite andb_true_iff, Z.leb_le, Z.ltb_lt; intros [H0 H1].
    destruct (nth_error_in_range _ (history s) (Z.to_nat (historyIndex s + 1)))
      as (snap & Hs); [lia |].
    rewrite (redo_step s snap (conj H0 H1) Hs).
    set (r := withSelectedId None _).
    assert (Hundo : undo r
                    = withSelectedId None
                        (withElements (elements s)
                           (withHistoryIndex (historyIndex r - 1) r))).
    { apply undo_step; subst r; cbn [historyIndex history withSelectedId
        withElements withHistoryIndex]; [lia |].
      replace (Z.to_nat (historyIndex s + 1 - 1)) with (Z.to_nat (historyIndex s))
        by lia.
      exact Hn. }
    rewrite Hundo; subst r; cbn [historyIndex history elements withSelectedId
      withElements withHistoryIndex].
    repeat split; try lia.
    unfold canUndo; cbn [historyIndex withSelectedId withElements withHistoryIndex].
    apply Z.ltb_lt; lia.
Qed.



Lemma loadEffect_stored (s : State) (doc : Scene) (n : R) :
  finiteScene doc = true ->
  storedValue s
  = Some (JObject [("scene", JArray (map elementJSON doc));
                   ("historyIndex", JNumber n)]) ->
  loadEffect s
  = Some (withSelectedId None
            (withHistoryIndex 0%Z
               (withHistory [doc] (withElements doc s)))).
Proof.
  intros Hfin Hst; unfold storedValue in Hst; unfold loadEffect.
  destruct (localStorage s) as [[j|]|]; try discriminate.
  injection Hst as ->; cbn [member String.eqb Ascii.eqb Bool.eqb].
  now rewrite (asScene_sceneJSON doc Hfin), deepCloneScene_eq.
Qed.



(** X6.  Clearing the board leaves an empty document and a history of
    one empty snapshot: the clear can be neither undone nor redone, and a
    reload right after it gives the same state. *)
Theorem clear_board_resets :
  forall s : State,
    let c := clearBoard s in
    elements c = [] /\ history c = [[]] /\ historyIndex c = 0%Z
    /\ selectedId c = None
    /\ canUndo c = false /\ canRedo c = false
    /\ undo c = c /\ redo c = c
    /\ loadEffect c = Some c.
Proof. intros s c; subst c; repeat split. Qed.

Lemma truthyId_Some (i : option string) (sel : string) :
  truthyId i = Some sel -> i = Some sel /\ sel <> "".
Proof.
  destruct i as [[|c r]|]; simpl; intros H; try discriminate.
  injection H as <-; split; [reflexivity | discriminate].
Qed.


(** ** Dragging a shape *)


Lemma onPointerUp_move (cv : Canvas.t) (e : PointerEvent.t) (s : State)
  (id : string) :
  tool s = ToolSelect ->
  DragRef.mode (dragRef s) = ModeMove ->
  truthyId (selectedId s) = Some id ->
  let p := getCanvasPoint e cv in
  let dx := Point.x p - Point.x (DragRef.start (dragRef s)) in
  let dy := Point.y p - Point.y (DragRef.start (dragRef s)) in
  onPointerUp (Some cv) e s
  = commit (map (moveShape id (DragRef.orig (dragRef s)) dx dy) (elements s))
      (withDragRef (setDragMode ModeNone (dragRef s)) s).
Proof.
  intros Ht Hm Hs p dx dy; unfold onPointerUp; rewrite Ht, Hm, Hs.
  destruct (activeShapeRef s), (activeStrokeRef s); reflexivity.
Qed.


(** X9.  After a pointer-down that hits a shape, every pointer-move
    leaves the state as it is, and the document committed on release is
    the preview painted for the same pointer position.  If Escape is
    pressed during the drag, the release commits nothing: document,
    history and cursor stay as they were. *)
Theorem drag_preview_is_committed :
  forall (random : nat -> R) (idText : nat -> string) (cv : Canvas.t)
         (e0 e : PointerEvent.t) (s : State) (hit : ShapeElement.t)
         (escape : KeyboardEvent.t),
    tool s = ToolSelect ->
    findHit (elements s) (getCanvasPoint e0 cv) = Some hit ->
    ShapeElement.id hit <> "" ->
    KeyboardEvent.key escape = "Escape" ->
    exists s1,
      onPointerDown random idText (Some cv) e0 s = Some s1
      /\ onPointerMove random (Some cv) e s1 = Some s1
      /\ elements (onPointerUp (Some cv) e s1) = dragPreview cv e s1
      /\ elements (onPointerUp (Some cv) e (onKey escape s1)) = elements s
      /\ history (onPointerUp (Some cv) e (onKey escape s1)) = history s
      /\ historyIndex (onPointerUp (Some cv) e (onKey escape s1)) = historyIndex s.
Proof.
  intros random idText cv e0 e s hit escape Ht Hh Hid Hk.
  eexists; split; [apply (select_down random idText cv e0 s hit Ht Hh) |].
  set (s1 := withDragRef _ _).
  assert (Hsel : truthyId (selectedId s1) = Some (ShapeElement.id hit)).
  { subst s1; cbn [selectedId withDragRef withSelectedId truthyId].
    destruct (ShapeElement.id hit); [contradiction | reflexivity]. }
  split; [| split].
  - subst s1; unfold onPointerMove; cbn [tool dragRef withDragRef withSelectedId
      DragRef.mode]; now rewrite Ht.
  - assert (Ht1 : tool s1 = ToolSelect) by exact Ht.
    assert (Hm1 : DragRef.mode (dragRef s1) = ModeMove) by reflexivity.
    rewrite (onPointerUp_move cv e s1 (ShapeElement.id hit) Ht1 Hm1 Hsel).
    reflexivity.
  - unfold onKey; rewrite Hk; cbn [String.eqb Ascii.eqb Bool.eqb].
    unfold onPointerUp; subst s1;
      cbn [tool dragRef selectedId withDragRef withSelectedId DragRef.mode
           truthyId activeShapeRef activeStrokeRef].
    rewrite Ht.
    destruct (activeShapeRef s), (activeStrokeRef s); repeat split.
Qed.

(** ** A click without a drag *)






(** ** The history after the first render *)

(** X11.  A release handled by the listeners of the first render commits
    with the empty history of that render: the history becomes the one
    snapshot of the new document, the seeded empty snapshot is dropped,
    and undo and redo do nothing, so the first element drawn on a fresh
    board cannot be undone unless a tool, brush, colour or size was picked
    or a shape selected before. *)
Theorem first_render_commit_not_undoable :
  forall (random : nat -> R) (idText : nat -> string) (cv : Canvas.t)
         (ty : PointerEventType) (e : PointerEvent.t) (s : State) (el : Element),
    ty = pointerup \/ ty = pointercancel ->
    InProgress s el ->
    exists s',
      dispatchBound random idText FirstRender (Some cv) ty e s = Some s'
      /\ elements s' = elements s ++ [el]
      /\ history s' = [elements s ++ [el]]
      /\ historyIndex s' = 0%Z
      /\ canUndo s' = false /\ canRedo s' = false
      /\ undo s' = s' /\ redo s' = s'.
Proof.
  intros random idText cv ty e s el Hty Hg.
  exists (onPointerUpFrom (history initialState) (historyIndex initialState)
            (Some cv) e s); split.
  - destruct Hty as [-> | ->]; reflexivity.
  - unfold onPointerUpFrom.
    destruct Hg as [st Htool Hst | sh Htool Hsh].
    + rewrite Hst.
      destruct Htool as [-> | ->];
        destruct (DragRef.mode (dragRef s)), (activeShapeRef s);
        cbn; rewrite deepCloneScene_eq; repeat split.
    + rewrite Htool, Hsh.
      destruct (DragRef.mode (dragRef s));
        cbn; rewrite deepCloneScene_eq; repeat split.
Qed.

(** X12.  When the component mounts with a stored document, the document
    is restored but the history is seeded with the empty snapshot, not
    with the document: nothing can be undone at first, and after the next
    commit one undo shows an empty board instead of the restored
    document. *)
Theorem reload_seeds_empty_history :
  forall (s0 : State) (doc : Scene) (n : R),
    history s0 = [] ->
    historyIndex s0 = (-1)%Z ->
    finiteScene doc = true ->
    storedValue s0
    = Some (JObject [("scene", JArray (map elementJSON doc));
                     ("historyIndex", JNumber n)]) ->
    exists m,
      mountEffects s0 = Some m
      /\ elements m = doc
      /\ history m = [[]]
      /\ historyIndex m = 0%Z
      /\ canUndo m = false
      /\ forall next : Scene,
           canUndo (commit next m) = true
           /\ elements (undo (commit next m)) = [].
Proof.
  intros s0 doc n Hh Hi Hfin Hst.
  unfold mountEffects; rewrite (loadEffect_stored s0 doc n Hfin Hst), Hh, Hi.
  cbn [Z.eqb Pos.eqb List.length Nat.eqb andb].
  eexists; split; [reflexivity |].
  repeat split.
Qed.

(** ** Painting *)

(** X13.  The selection overlay of a shape of any kind is the same when
    its two anchors are exchanged.  For every kind but the line, so are
    the calls [drawShape] makes and the result of [hitTestShape]: they
    depend on the anchors only through the normalized box, and a shape
    dragged from the opposite corner is painted and hit in the same
    way. *)
Theorem box_kinds_direction_invariant :
  forall sh : ShapeElement.t,
    drawSelection (reverseDrag sh) = drawSelection sh
    /\ (ShapeElement.shape sh <> Line ->
        drawShape (reverseDrag sh) = drawShape sh
        /\ forall p : Point.t,
             hitTestShape (reverseDrag sh) p = hitTestShape sh p).
Proof.
  intros sh.
  assert (Hbox : normalizeRect (ShapeElement.x2 sh) (ShapeElement.y2 sh)
                   (ShapeElement.x1 sh) (ShapeElement.y1 sh)
                 = normalizeRect (ShapeElement.x1 sh) (ShapeElement.y1 sh)
                     (ShapeElement.x2 sh) (ShapeElement.y2 sh))
    by apply normalizeRect_swap.
  split.
  - unfold drawSelection, reverseDrag;
      cbn [ShapeElement.x1 ShapeElement.y1 ShapeElement.x2 ShapeElement.y2].
    now rewrite Hbox.
  - intros Hk; split.
    + unfold drawShape, reverseDrag;
        cbn [ShapeElement.x1 ShapeElement.y1 ShapeElement.x2 ShapeElement.y2
             ShapeElement.shape ShapeElement.color ShapeElement.size
             ShapeElement.id].
      rewrite Hbox; destruct (ShapeElement.shape sh); try reflexivity.
      now destruct Hk.
    + intros p; unfold hitTestShape, reverseDrag;
        cbn [ShapeElement.x1 ShapeElement.y1 ShapeElement.x2 ShapeElement.y2
             ShapeElement.shape ShapeElement.color ShapeElement.size
             ShapeElement.id].
      rewrite Hbox; destruct (ShapeElement.shape sh); try reflexivity.
      now destruct Hk.
Qed.

Lemma runCalls_app (S : Type) (effect : PaintCall -> S -> S)
  (a b : list PaintCall) (g : S * list S) :
  runCalls effect (a ++ b) g = runCalls effect b (runCalls effect a g).
Proof. unfold runCalls; apply fold_left_app. Qed.

(** Calls other than [save] and [restore] leave the stack alone. *)
Lemma runCalls_flat (S : Type) (effect : PaintCall -> S -> S)
  (body : list PaintCall) :
  (forall c, In c body -> c <> ctx save /\ c <> ctx restore) ->
  forall (cur : S) (stack : list S),
    snd (runCalls effect body (cur, stack)) = stack.
Proof.
  induction body as [|c body IH]; intros Hb cur stack; [reflexivity |].
  destruct (Hb c (or_introl eq_refl)) as (Hs & Hr).
  assert (Hrest : forall c', In c' body -> c' <> ctx save /\ c' <> ctx restore)
    by (intros c' Hin; apply Hb; now right).
  change (runCalls effect (c :: body) (cur, stack))
    with (runCalls effect body (runCall effect c (cur, stack))).
  destruct c as [[]| | | | | | |]; try contradiction;
    cbn [runCall fst snd]; apply IH; exact Hrest.
Qed.

Lemma runCalls_bracket (S : Type) (effect : PaintCall -> S -> S)
  (body : list PaintCall) :
  (forall c, In c body -> c <> ctx save /\ c <> ctx restore) ->
  forall g : S * list S,
    runCalls effect (ctx save :: body ++ [ctx restore]) g = g.
Proof.
  intros Hb [cur stack].
  change (runCalls effect (ctx save :: body ++ [ctx restore]) (cur, stack))
    with (runCalls effect (body ++ [ctx restore]) (cur, cur :: stack)).
  rewrite runCalls_app.
  pose proof (runCalls_flat S effect body Hb cur (cur :: stack)) as Hst.
  destruct (runCalls effect body (cur, cur :: stack)) as [cur' stack'].
  cbn [snd] in Hst; subst stack'; reflexivity.
Qed.

Lemma runCalls_drawShape (S : Type) (effect : PaintCall -> S -> S)
  (sh : ShapeElement.t) (g : S * list S) :
  runCalls effect (map ctx (drawShape sh)) g = g.
Proof.
  destruct g as [cur stack]; unfold drawShape.
  destruct (ShapeElement.shape sh); reflexivity.
Qed.

Lemma applyStrokeStyle_flat (s : StrokeStyle.t) (c : PaintCall) :
  In c (applyStrokeStyle s) -> c <> ctx save /\ c <> ctx restore.
Proof.
  unfold applyStrokeStyle.
  destruct (StrokeStyle.tool s); [destruct (StrokeStyle.brush s) |];
    cbn [app In]; intros H;
    repeat (destruct H as [<- | H]; [split; discriminate |]); contradiction.
Qed.

Lemma drawDots_flat (dots : list Dot.t) (c : PaintCall) :
  In c (flat_map drawDot dots) -> c <> ctx save /\ c <> ctx restore.
Proof.
  intros H; apply in_flat_map in H as (d & _ & H).
  cbn [drawDot In] in H.
  repeat (destruct H as [<- | H]; [split; discriminate |]); contradiction.
Qed.

Lemma runCalls_drawStroke (S : Type) (effect : PaintCall -> S -> S)
  (st : StrokeElement.t) (g : S * list S) :
  runCalls effect (drawStroke st) g = g.
Proof.
  unfold drawStroke.
  destruct (StrokeElement.points st) as [|p0 rest]; [reflexivity |].
  destruct (isAirbrushPen (StrokeElement.style st)).
  - change ([ctx save; ctx (set_globalCompositeOperation "source-over");
             set_fillStyle (StrokeStyle.color (StrokeElement.style st))]
            ++ flat_map drawDot
                 match StrokeElement.dots st with Some ds => ds | None => [] end
            ++ [ctx restore])
      with (ctx save
            :: ([ctx (set_globalCompositeOperation "source-over");
                 set_fillStyle (StrokeStyle.color (StrokeElement.style st))]
                ++ flat_map drawDot
                     match StrokeElement.dots st with Some ds => ds | None => [] end)
               ++ [ctx restore]).
    apply runCalls_bracket; intros c Hin.
    apply in_app_or in Hin as [Hin | Hin]; [| exact (drawDots_flat _ c Hin)].
    cbn [In] in Hin.
    repeat (destruct Hin as [<- | Hin]; [split; discriminate |]); contradiction.
  - replace ([ctx save] ++ applyStrokeStyle (StrokeElement.style st)
             ++ [ctx beginPath; ctx (moveTo (Point.x p0) (Point.y p0))]
             ++ map (fun p => ctx (lineTo (Point.x p) (Point.y p))) rest
             ++ [ctx stroke; ctx restore])
      with (ctx save
            :: (applyStrokeStyle (StrokeElement.style st)
                ++ [ctx beginPath; ctx (moveTo (Point.x p0) (Point.y p0))]
                ++ map (fun p => ctx (lineTo (Point.x p) (Point.y p))) rest
                ++ [ctx stroke])
               ++ [ctx restore])
      by (rewrite <- !app_assoc; reflexivity).
    apply runCalls_bracket; intros c Hin.
    apply in_app_or in Hin as [Hin | Hin];
      [exact (applyStrokeStyle_flat _ c Hin) |].
    apply in_app_or in Hin as [Hin | Hin].
    { cbn [In] in Hin.
      repeat (destruct Hin as [<- | Hin]; [split; discriminate |]); contradiction. }
    apply in_app_or in Hin as [Hin | Hin].
    { apply in_map_iff in Hin as (p & <- & _); split; discriminate. }
    cbn [In] in Hin.
    repeat (destruct Hin as [<- | Hin]; [split; discriminate |]); contradiction.
Qed.

Lemma runCalls_drawSelection (S : Type) (effect : PaintCall -> S -> S)
  (sh : ShapeElement.t) (g : S * list S) :
  runCalls effect (drawSelection sh) g = g.
Proof. destruct g as [cur stack]; reflexivity. Qed.

Lemma runCalls_drawElements (S : Type) (effect : PaintCall -> S -> S)
  (scene : Scene) (g : S * list S) :
  runCalls effect (flat_map drawElement scene) g = g.
Proof.
  induction scene as [|[st|sh] scene IH]; [reflexivity | |];
    cbn [flat_map drawElement]; rewrite runCalls_app, ?runCalls_drawStroke,
      ?runCalls_drawShape; exact IH.
Qed.

(** X14.  Whatever the document, the previews and the selection, and
    whatever the other calls do to the drawing state of the context, each
    paint routine and a whole repaint leave the drawing state and the
    stack of saved states as they found them: the scale set on a resize
    survives every repaint, and the composite operation, alpha and dash
    list of one element never reach the next. *)
Theorem redraw_restores_context :
  forall (S : Type) (effect : PaintCall -> S -> S) (g : S * list S)
         (sz : SizeRef.t) (sel : option string) (scene : Scene)
         (activeStroke : option StrokeElement.t)
         (activeShape : option ShapeElement.t),
    runCalls effect (redraw sz sel scene activeStroke activeShape) g = g
    /\ (forall el, runCalls effect (drawElement el) g = g)
    /\ (forall sh, runCalls effect (drawSelection sh) g = g).
Proof.
  intros S effect g sz sel scene activeStroke activeShape.
  split; [| split].
  - unfold redraw; rewrite !runCalls_app, runCalls_drawElements.
    replace (runCalls effect
               [ctx save;
                setTransform (Fin 1) (Fin 0) (Fin 0) (Fin 1) (Fin 0) (Fin 0);
                clearRect (Fin 0) (Fin 0) (SizeRef.w sz * SizeRef.dpr sz)
                  (SizeRef.h sz * SizeRef.dpr sz);
                ctx restore] g) with g by (destruct g; reflexivity).
    destruct activeStroke as [st|]; [rewrite runCalls_drawStroke |];
      (destruct activeShape as [sh|]; [rewrite runCalls_drawShape |]);
      (destruct (truthyId sel) as [id|]; [| reflexivity]);
      (destruct (findSelected scene id) as [found|]; [| reflexivity]);
      apply runCalls_drawSelection.
  - intros [st|sh]; [apply runCalls_drawStroke | apply runCalls_drawShape].
  - intros sh; apply runCalls_drawSelection.
Qed.

Lemma findSelected_snoc_stroke (scene : Scene) (st : StrokeElement.t)
  (sel : string) :
  findSelected (scene ++ [Stroke st]) sel = findSelected scene sel.
Proof.
  unfold findSelected.
  induction scene as [|[st0|sh] scene IH]; [reflexivity | exact IH |].
  cbn [app find].
  destruct (String.eqb (ShapeElement.id sh) sel); [reflexivity | exact IH].
Qed.

(** X15.  What is painted after a release is what the last preview
    showed: the repaint of the document with the finished stroke appended
    makes the same calls as the preview of that stroke over the document,
    whatever is selected, and so does the repaint with the finished shape
    when nothing is selected, which is the case while a shape is drawn. *)
Theorem preview_matches_commit :
  forall (sz : SizeRef.t) (scene : Scene),
    (forall (sel : option string) (st : StrokeElement.t),
        redraw sz sel (scene ++ [Stroke st]) None None
        = redraw sz sel scene (Some st) None)
    /\ (forall sh : ShapeElement.t,
           redraw sz None (scene ++ [Shape sh]) None None
           = redraw sz None scene None (Some sh)).
Proof.
  intros sz scene; split.
  - intros sel st; unfold redraw.
    rewrite flat_map_app; cbn [flat_map drawElement].
    destruct (truthyId sel) as [id|];
      rewrite ?findSelected_snoc_stroke, !app_nil_r, <- ?app_assoc; reflexivity.
  - intros sh; unfold redraw.
    rewrite flat_map_app; cbn [flat_map drawElement truthyId].
    now rewrite !app_nil_r, <- ?app_assoc.
Qed.

(** ** Shapes tested by their box can be picked *)

(** Every point of the normalized box of a finite shape passes the test
    of the kinds that are tested by their box. *)
Lemma box_points_are_hit (id color : string) (kind : ShapeType)
  (a1 b1 a2 b2 z x y : R) :
  kind <> Line -> kind <> Ellipse ->
  (Rmin a1 a2 <= x <= Rmax a1 a2)%R ->
  (Rmin b1 b2 <= y <= Rmax b1 b2)%R ->
  hitTestShape
    (ShapeElement.mk id kind (Fin a1) (Fin b1) (Fin a2) (Fin b2) color (Fin z))
    (Point.mk (Fin x) (Fin y)) = true.
Proof.
  intros Hl He Hx Hy; pose proof (Rmax_l 6 z) as Hpad.
  unfold hitTestShape, nge;
    cbn [ShapeElement.shape ShapeElement.size ShapeElement.x1 ShapeElement.y1
         ShapeElement.x2 ShapeElement.y2 Point.x Point.y Math.max].
  rewrite normalizeRect_Fin;
    cbn [NRect.left NRect.right NRect.top NRect.bottom nsub nneg nadd].
  destruct kind; try contradiction;
    rewrite !andb_true_iff, !nle_Fin; lra.
Qed.

(** X17.  A shape of a kind that is tested by its box (every kind but the
    line and the ellipse), with finite anchors and size, can be picked:
    every point of its normalized box passes its hit test, its two
    anchors among them, so a pointer-down on an anchor with the select
    tool finds a shape in any document that holds it.  (The margin
    [max(6, size)] only widens the tested box.) *)
Theorem box_shapes_can_be_picked :
  forall sh : ShapeElement.t,
    finiteElement (Shape sh) = true ->
    ShapeElement.shape sh <> Line ->
    ShapeElement.shape sh <> Ellipse ->
    let first := Point.mk (ShapeElement.x1 sh) (ShapeElement.y1 sh) in
    let second := Point.mk (ShapeElement.x2 sh) (ShapeElement.y2 sh) in
    (forall p : Point.t,
        (NRect.left (boxOf sh) <=? Point.x p) = true ->
        (Point.x p <=? NRect.right (boxOf sh)) = true ->
        (NRect.top (boxOf sh) <=? Point.y p) = true ->
        (Point.y p <=? NRect.bottom (boxOf sh)) = true ->
        hitTestShape sh p = true)
    /\ hitTestShape sh first = true
    /\ hitTestShape sh second = true
    /\ (forall scene : Scene,
           In (Shape sh) scene ->
           (exists hit, findHit scene first = Some hit)
           /\ (exists hit, findHit scene second = Some hit)).
Proof.
  intros [id kind x1 y1 x2 y2 color size] Hfin Hl He.
  cbn [finiteElement ShapeElement.x1 ShapeElement.y1 ShapeElement.x2
       ShapeElement.y2 ShapeElement.size ShapeElement.shape] in *.
  destruct x1 as [a1| | |], y1 as [b1| | |], x2 as [a2| | |], y2 as [b2| | |],
    size as [z| | |]; try discriminate.
  clear Hfin; cbv zeta.
  assert (H1 : hitTestShape
                 (ShapeElement.mk id kind (Fin a1) (Fin b1) (Fin a2) (Fin b2)
                    color (Fin z)) (Point.mk (Fin a1) (Fin b1)) = true)
    by (apply box_points_are_hit; auto; split;
        solve [apply Rmin_l | apply Rmax_l]).
  assert (H2 : hitTestShape
                 (ShapeElement.mk id kind (Fin a1) (Fin b1) (Fin a2) (Fin b2)
                    color (Fin z)) (Point.mk (Fin a2) (Fin b2)) = true)
    by (apply box_points_are_hit; auto; split;
        solve [apply Rmin_r | apply Rmax_r]).
  split; [| split; [exact H1 | split; [exact H2 |]]].
  - intros [px py] Hx1 Hx2 Hy1 Hy2.
    unfold boxOf in Hx1, Hx2, Hy1, Hy2;
      cbn [ShapeElement.x1 ShapeElement.y1 ShapeElement.x2 ShapeElement.y2
           Point.x Point.y] in Hx1, Hx2, Hy1, Hy2.
    rewrite normalizeRect_Fin in Hx1, Hx2, Hy1, Hy2;
      cbn [NRect.left NRect.right NRect.top NRect.bottom] in Hx1, Hx2, Hy1, Hy2.
    destruct px as [x| | |]; try discriminate;
      destruct py as [y| | |]; try discriminate.
    apply nle_Fin in Hx1, Hx2, Hy1, Hy2.
    apply box_points_are_hit; auto; lra.
  - intros scene Hin; split.
    + pose proof (findHit_spec scene (Point.mk (Fin a1) (Fin b1))) as Hspec.
      destruct (findHit scene _) as [hit|]; [now exists hit |].
      rewrite (Hspec _ Hin) in H1; discriminate.
    + pose proof (findHit_spec scene (Point.mk (Fin a2) (Fin b2))) as Hspec.
      destruct (findHit scene _) as [hit|]; [now exists hit |].
      rewrite (Hspec _ Hin) in H2; discriminate.
Qed.

(** ** The direction of a short line *)

(** X18.  The hit test of a line depends on the order of its two
    anchors: for a line shorter than [0.001], it measures the distance to
    the first anchor only, and there is such a line and a point that is
    hit with the anchors in one order and missed with them in the
    other. *)
Theorem short_line_hit_test_depends_on_direction :
  exists (sh : ShapeElement.t) (p : Point.t),
    ShapeElement.shape sh = Line
    /\ finiteElement (Shape sh) = true
    /\ finitePoint p = true
    /\ hitTestShape sh p = true
    /\ hitTestShape (reverseDrag sh) p = false.
Proof.
  exists (ShapeElement.mk "l" Line (Fin 0) (Fin 0) (Fin (1 / 2048)) (Fin 0)
            "#111111" (Fin 6)),
         (Point.mk (Fin (-8)) (Fin 0)).
  split; [reflexivity |].
  split; [reflexivity |].
  split; [reflexivity |].
  unfold hitTestShape, reverseDrag, epsilon;
    cbn [ShapeElement.shape ShapeElement.x1 ShapeElement.y1 ShapeElement.x2
         ShapeElement.y2 ShapeElement.size Point.x Point.y
         nsub nneg nadd nmul nlt nle Math.max].
  split; decide_reals.
Qed.

(** ** The airbrush sampler on numbers that are not finite *)

Lemma airbrushBurst_length (random : nat -> R) (radius x y : number)
  (count k : nat) :
  List.length (airbrushBurst random radius x y count k) = count.
Proof.
  revert k; induction count as [|c IH]; intros k; cbn [airbrushBurst List.length];
    [reflexivity | now rewrite IH].
Qed.

Lemma airbrushSteps_length (random : nat -> R) (from to : Point.t)
  (steps radius : number) (count : nat) :
  forall n i k,
    List.length (airbrushSteps random from to steps radius count i n k)
    = (count * n)%nat.
Proof.
  induction n as [|n IH]; intros i k; cbn [airbrushSteps List.length]; [lia |].
  rewrite length_app, airbrushBurst_length, IH; lia.
Qed.

(** X19.  [addAirbrushDots] does not return when the distance between
    the two points is [+Infinity], nor when that distance is finite and
    the brush size is [+Infinity].  When the distance is [NaN] it returns
    without a particle and without a random draw.  Whenever it returns,
    the particles the stroke had are kept in place and the new ones
    follow them, three random draws were made for each new particle, and
    points, style and identifier are untouched. *)
Theorem airbrush_on_numbers_that_are_not_finite :
  forall (random : nat -> R) (st : StrokeElement.t) (a b : Point.t) (k : nat),
    let old := match StrokeElement.dots st with Some ds => ds | None => [] end in
    let size := StrokeStyle.size (StrokeElement.style st) in
    (dist a b = PInf -> addAirbrushDots random st a b k = None)
    /\ (isFinite (dist a b) = true -> size = PInf ->
        addAirbrushDots random st a b k = None)
    /\ (dist a b = NaN ->
        addAirbrushDots random st a b k
        = Some (StrokeElement.mk (StrokeElement.id st) (StrokeElement.points st)
                  (StrokeElement.style st) (Some old), k))
    /\ (forall st' k',
           addAirbrushDots random st a b k = Some (st', k') ->
           exists new : list Dot.t,
             StrokeElement.dots st' = Some (old ++ new)
             /\ k' = (k + 3 * List.length new)%nat
             /\ StrokeElement.points st' = StrokeElement.points st
             /\ StrokeElement.style st' = StrokeElement.style st
             /\ StrokeElement.id st' = StrokeElement.id st).
Proof.
  intros random st a b k old size.
  split; [apply addAirbrushDots_PInf |].
  split; [| split; [apply addAirbrushDots_NaN |]].
  - intros Hd Hs; unfold addAirbrushDots; fold size; rewrite Hs.
    destruct (dist a b) as [r| | |]; try discriminate.
    rewrite ndiv_Fin by lra; cbn [Math.floor Math.max].
    rewrite (Rmax_IZR 1 (Zfloor (r / 2))); cbn [iterationsLe].
    rewrite ZfloorZ.
    destruct (Z.to_nat (Z.max 1 (Zfloor (r / 2)) + 1)) eqn:E; [lia |].
    cbn [nmul nsign sign_mul]; unfold Rsign; rdec; try lra; reflexivity.
  - intros st' k' H; unfold addAirbrushDots in H; fold old in H.
    destruct (iterationsLe _) as [[|n]|]; [| | discriminate].
    + injection H as <- <-; exists []; cbn [StrokeElement.dots
        StrokeElement.points StrokeElement.style StrokeElement.id List.length].
      rewrite app_nil_r; repeat split; lia.
    + destruct (iterationsLt _) as [count|]; [| discriminate].
      set (new := airbrushSteps _ _ _ _ _ _ _ _ _) in H.
      assert (Hlen : List.length new = (count * S n)%nat)
        by apply airbrushSteps_length.
      clearbody new; injection H as <- <-; exists new.
      split; [reflexivity |].
      split; [rewrite Hlen; lia | repeat split].
Qed.

(** ** The selection names a shape of the document *)

Lemma selectionOk_none (s : State) : selectedId s = None -> selectionOk s.
Proof. intros H id; rewrite H; discriminate. Qed.

Lemma selectionOk_same (s s' : State) :
  elements s' = elements s -> selectedId s' = selectedId s ->
  selectionOk s -> selectionOk s'.
Proof. unfold selectionOk; intros -> ->; auto. Qed.

Lemma selectionOk_grow (s s' : State) (el : Element) :
  elements s' = elements s ++ [el] -> selectedId s' = selectedId s ->
  selectionOk s -> selectionOk s'.
Proof.
  unfold selectionOk; intros -> -> H id Hid.
  destruct (H id Hid) as (sh & Hin & Hsh).
  exists sh; split; [apply in_or_app; now left | exact Hsh].
Qed.

Lemma selectionOk_moved (s s' : State) (id : string) (orig : Anchors.t)
  (dx dy : number) :
  elements s' = map (moveShape id orig dx dy) (elements s) ->
  selectedId s' = selectedId s ->
  selectionOk s -> selectionOk s'.
Proof.
  unfold selectionOk; intros -> -> H sel Hsel.
  destruct (H sel Hsel) as (sh & Hin & Hsh).
  apply (in_map (moveShape id orig dx dy)) in Hin; cbn [moveShape] in Hin.
  destruct (negb (String.eqb (ShapeElement.id sh) id));
    eexists; (split; [exact Hin | exact Hsh]).
Qed.

Lemma selectionOk_onPointerDown (random : nat -> R) (idText : nat -> string)
  (canvas : option Canvas.t) (e : PointerEvent.t) (s s' : State) :
  onPointerDown random idText canvas e s = Some s' ->
  selectionOk s -> selectionOk s'.
Proof.
  intros Hd H; unfold onPointerDown in Hd.
  destruct canvas as [cv|]; [| now injection Hd as <-].
  destruct (tool s).
  - cbn [makeId] in Hd.
    match type of Hd with
    | (if ?b then _ else _) = _ => destruct b
    end;
      [destruct (addAirbrushDots _ _ _ _ _) as [[st' k']|]; [| discriminate] |];
      injection Hd as <-; exact H.
  - cbn [makeId] in Hd.
    match type of Hd with
    | (if ?b then _ else _) = _ => destruct b
    end;
      [destruct (addAirbrushDots _ _ _ _ _) as [[st' k']|]; [| discriminate] |];
      injection Hd as <-; exact H.
  - pose proof (findHit_spec (elements s) (getCanvasPoint e cv)) as Hspec.
    destruct (findHit _ _) as [hit|]; injection Hd as <-.
    + destruct Hspec as (before & after & He & _).
      intros id Hid; exists hit; split.
      * cbn [elements withDragRef withSelectedId]; rewrite He.
        apply in_or_app; right; now left.
      * cbn [selectedId withDragRef withSelectedId] in Hid.
        now apply truthyId_Some in Hid as [[= ->] _].
    + now apply selectionOk_none.
  - cbn [makeId] in Hd; injection Hd as <-; now apply selectionOk_none.
Qed.

Lemma selectionOk_onPointerMove (random : nat -> R)
  (canvas : option Canvas.t) (e : PointerEvent.t) (s s' : State) :
  onPointerMove random canvas e s = Some s' ->
  selectionOk s -> selectionOk s'.
Proof.
  intros Hm H; unfold onPointerMove, extendStroke in Hm.
  destruct canvas as [cv|]; [| now injection Hm as <-].
  destruct (tool s), (DragRef.mode (dragRef s)), (activeShapeRef s),
    (activeStrokeRef s) as [st|];
    try (injection Hm as <-; exact H);
    (destruct (isAirbrushPen (StrokeElement.style st));
     [destruct (lastPoint st);
      [destruct (addAirbrushDots _ _ _ _ _) as [[st' k']|]; [| discriminate] |] |];
     injection Hm as <-; exact H).
Qed.

Lemma selectionOk_onPointerUpFrom (closureHistory : list Scene)
  (closureIndex : Z) (canvas : option Canvas.t) (e : PointerEvent.t)
  (s : State) :
  selectionOk s ->
  selectionOk (onPointerUpFrom closureHistory closureIndex canvas e s).
Proof.
  intros H; unfold onPointerUpFrom.
  destruct (tool s), (DragRef.mode (dragRef s)), (activeShapeRef s) as [sh|],
    (activeStrokeRef s) as [st|];
    try exact H;
    try (eapply selectionOk_grow; [reflexivity | reflexivity | exact H]);
    (destruct (truthyId (selectedId s)), canvas;
     [eapply selectionOk_moved; [reflexivity | reflexivity | exact H]
     | exact H ..]).
Qed.

Lemma selectionOk_undo (s : State) : selectionOk s -> selectionOk (undo s).
Proof.
  intros H; destruct (undo_cases s) as [-> | (snap & _ & ->)];
    [exact H | now apply selectionOk_none].
Qed.

Lemma selectionOk_redo (s : State) : selectionOk s -> selectionOk (redo s).
Proof.
  intros H; destruct (redo_cases s) as [-> | (snap & _ & ->)];
    [exact H | now apply selectionOk_none].
Qed.

Lemma selectionOk_deleteSelected (s : State) :
  selectionOk s -> selectionOk (deleteSelected s).
Proof.
  intros H; unfold deleteSelected.
  destruct (truthyId (selectedId s)); [now apply selectionOk_none | exact H].
Qed.

Lemma selectionOk_onKey (e : KeyboardEvent.t) (s : State) :
  selectionOk s -> selectionOk (onKey e s).
Proof.
  intros H; unfold onKey.
  destruct (String.eqb _ "Escape"); [now apply selectionOk_none |].
  repeat match goal with
         | |- selectionOk (if ?b then _ else _) => destruct b
         | |- selectionOk (match ?o with Some _ => _ | None => _ end) =>
             destruct o
         end;
    auto using selectionOk_undo, selectionOk_redo, selectionOk_deleteSelected.
Qed.

Lemma selectionOk_step (random : nat -> R) (idText : nat -> string)
  (canvas : option Canvas.t) (c : Command) (s s' : State) :
  step random idText canvas c s = Some s' ->
  selectionOk s -> selectionOk s'.
Proof.
  intros Hs H; destruct c as [b ty e|e| | | | |t|k|br|c|n]; cbn [step] in Hs;
    try (injection Hs as <-);
    auto using selectionOk_undo, selectionOk_redo, selectionOk_deleteSelected,
      selectionOk_onKey.
  - unfold dispatchBound, dispatch in Hs.
    destruct b, ty, canvas as [cv|];
      try (injection Hs as <-; first
             [ exact H
             | apply selectionOk_onPointerUpFrom; exact H
             | rewrite onPointerUp_current;
               apply selectionOk_onPointerUpFrom; exact H ]);
      first [ exact (selectionOk_onPointerDown random idText _ e s s' Hs H)
            | exact (selectionOk_onPointerMove random _ e s s' Hs H) ].
  - now apply selectionOk_none.
Qed.

Lemma selectionOk_run (random : nat -> R) (idText : nat -> string)
  (canvas : option Canvas.t) (cs : list Command) :
  forall s s' : State,
    runCommands random idText canvas cs s = Some s' ->
    selectionOk s -> selectionOk s'.
Proof.
  induction cs as [|c cs IH]; intros s s' Hr H; cbn [runCommands] in Hr.
  - now injection Hr as <-.
  - destruct (step random idText canvas c s) as [s1|] eqn:E; [| discriminate].
    exact (IH s1 s' Hr (selectionOk_step random idText canvas c s s1 E H)).
Qed.

Lemma findSelected_In (scene : Scene) (sh : ShapeElement.t) :
  In (Shape sh) scene ->
  exists found,
    findSelected scene (ShapeElement.id sh) = Some found
    /\ ShapeElement.id found = ShapeElement.id sh
    /\ In (Shape found) scene.
Proof.
  unfold findSelected.
  induction scene as [|[st|sh'] scene IH]; intros Hin; [destruct Hin | |].
  - destruct Hin as [Hin | Hin]; [discriminate |].
    destruct (IH Hin) as (found & Hf & Hid & Hin').
    exists found; cbn [find]; repeat split; auto; now right.
  - cbn [find].
    destruct (String.eqb (ShapeElement.id sh') (ShapeElement.id sh)) eqn:E.
    + exists sh'; apply String.eqb_eq in E; repeat split; auto; now left.
    + destruct Hin as [Hin | Hin]; [injection Hin as ->; now rewrite String.eqb_refl in E |].
      destruct (IH Hin) as (found & Hf & Hid & Hin').
      exists found; repeat split; auto; now right.
Qed.

(** X20.  On a board that starts empty, after any sequence of user
    actions the selection never dangles: a selected identifier that is
    not empty is the identifier of a shape of the document, so the
    repaint finds that shape and draws the selection overlay around
    it. *)
Theorem selection_names_a_shape :
  forall (random : nat -> R) (idText : nat -> string)
         (canvas : option Canvas.t) (cs : list Command) (s : State) (id : string),
    runCommands random idText canvas cs firstRender = Some s ->
    truthyId (selectedId s) = Some id ->
    exists found : ShapeElement.t,
      findSelected (elements s) id = Some found
      /\ ShapeElement.id found = id
      /\ In (Shape found) (elements s).
Proof.
  intros random idText canvas cs s id Hr Hid.
  assert (H : selectionOk s).
  { apply (selectionOk_run random idText canvas cs firstRender s Hr).
    now apply selectionOk_none. }
  destruct (H id Hid) as (sh & Hin & <-).
  now apply findSelected_In.
Qed.

(** ** Selecting with a click *)



(** ** What a stroke paints *)

Lemma applyStrokeStyle_sets_only (s : StrokeStyle.t) :
  filter isDrawing (applyStrokeStyle s) = [].
Proof.
  unfold applyStrokeStyle.
  destruct (StrokeStyle.tool s); [destruct (StrokeStyle.brush s) |]; reflexivity.
Qed.

Lemma filter_isDrawing_lines (pts : list Point.t) :
  filter isDrawing (map (fun p => ctx (lineTo (Point.x p) (Point.y p))) pts)
  = map (fun p => ctx (lineTo (Point.x p) (Point.y p))) pts.
Proof.
  induction pts as [|p pts IH]; [reflexivity |].
  cbn [map filter isDrawing]; now rewrite IH.
Qed.

Lemma filter_isDrawing_dots (dots : list Dot.t) :
  filter isDrawing (flat_map drawDot dots)
  = flat_map (fun d => [ ctx beginPath;
                         ctx (arc (Dot.x d) (Dot.y d) (Dot.r d) (Fin 0)
                                (Math.PI * Fin 2) false);
                         fill ]) dots.
Proof.
  induction dots as [|d dots IH]; [reflexivity |].
  cbn [flat_map]; rewrite filter_app, IH; reflexivity.
Qed.

(** X24.  A stroke without a point paints nothing.  Apart from [save],
    [restore] and the setting of styles, a stroke of any other brush than
    the pen's airbrush, the eraser included, makes exactly these calls: it
    begins one path, moves to its first point, draws a line to each
    further point in the order recorded, and strokes the path once.  A
    pen stroke of the airbrush draws no line through its points: for each
    stored particle, in order, it begins a path, adds the full circle of
    the particle's radius at the particle's place, and fills it. *)
Theorem stroke_painting :
  forall st : StrokeElement.t,
    let dots := match StrokeElement.dots st with Some ds => ds | None => [] end in
    (StrokeElement.points st = [] -> drawStroke st = [])
    /\ (forall (p0 : Point.t) (rest : list Point.t),
           StrokeElement.points st = p0 :: rest ->
           isAirbrushPen (StrokeElement.style st) = false ->
           filter isDrawing (drawStroke st)
           = [ ctx beginPath; ctx (moveTo (Point.x p0) (Point.y p0)) ]
             ++ map (fun p => ctx (lineTo (Point.x p) (Point.y p))) rest
             ++ [ ctx stroke ])
    /\ (StrokeElement.points st <> [] ->
        isAirbrushPen (StrokeElement.style st) = true ->
        filter isDrawing (drawStroke st)
        = flat_map (fun d => [ ctx beginPath;
                               ctx (arc (Dot.x d) (Dot.y d) (Dot.r d) (Fin 0)
                                      (Math.PI * Fin 2) false);
                               fill ]) dots).
Proof.
  intros st dots; subst dots; unfold drawStroke.
  split; [now intros -> |].
  split.
  - intros p0 rest -> ->.
    rewrite !filter_app, applyStrokeStyle_sets_only, filter_isDrawing_lines.
    reflexivity.
  - intros Hne ->.
    destruct (StrokeElement.points st) as [|p0 rest]; [contradiction |].
    rewrite !filter_app, filter_isDrawing_dots.
    cbn [filter isDrawing app]; now rewrite app_nil_r.
Qed.

(** ** The themed variant *)

(** X22.  On its two kinds, rectangle and ellipse, the themed variant
    tests and paints a shape exactly as the main variant does. *)
Theorem themed_agrees_with_main :
  forall (el : Themed.ShapeElement.t) (p : Point.t),
    Themed.hitTestShape el p = hitTestShape (ofThemed el) p
    /\ Themed.drawShape el = drawShape (ofThemed el).
Proof.
  intros [id kind x1 y1 x2 y2 color size] p.
  destruct kind; split; reflexivity.
Qed.

(** ** The canvas set-up and [clamp] *)

(** X23.  On a resize with a finite container size, the size kept in
    [sizeRef] is a pair of integers, at least one and at most the
    container's (or one); the pixel ratio is the device's, or one when
    the device reports zero or [NaN]; and for a finite positive ratio the
    backing store has integer sides of at least one, which the rectangle
    [redraw] clears covers as soon as [w * dpr] and [h * dpr] reach
    one. *)
Theorem resize_backing_store :
  forall (width height : R) (ratio : number),
    let b := resize (Fin width) (Fin height) ratio in
    let sz := Backing.sizeRef b in
    (exists w h : Z,
        (1 <= w)%Z /\ (1 <= h)%Z
        /\ SizeRef.w sz = Fin (IZR w) /\ SizeRef.h sz = Fin (IZR h)
        /\ (IZR w <= Rmax 1 width)%R /\ (IZR h <= Rmax 1 height)%R)
    /\ (ratio = Fin 0 \/ ratio = NaN -> SizeRef.dpr sz = Fin 1)
    /\ (ratio <> Fin 0 -> ratio <> NaN -> SizeRef.dpr sz = ratio)
    /\ (forall d : R,
           SizeRef.dpr sz = Fin d -> (0 < d)%R ->
           (exists W H : Z,
               (1 <= W)%Z /\ (1 <= H)%Z
               /\ Backing.width b = Fin (IZR W)
               /\ Backing.height b = Fin (IZR H))
           /\ ((Fin 1 <=? SizeRef.w sz * SizeRef.dpr sz) = true ->
               (Backing.width b <=? SizeRef.w sz * SizeRef.dpr sz) = true)
           /\ ((Fin 1 <=? SizeRef.h sz * SizeRef.dpr sz) = true ->
               (Backing.height b <=? SizeRef.h sz * SizeRef.dpr sz) = true)).
Proof.
  intros width height ratio b sz; subst sz b; unfold resize.
  cbn [Backing.sizeRef Backing.width Backing.height SizeRef.w SizeRef.h
       SizeRef.dpr Math.floor Math.max].
  rewrite !(Rmax_IZR 1).
  split; [| split; [| split]].
  - exists (Z.max 1 (Zfloor width)), (Z.max 1 (Zfloor height)).
    repeat split; try lia; rewrite <- Rmax_IZR;
      apply Rle_max_compat_l, Zfloor_bound.
  - intros [-> | ->]; cbn [orElse]; [| reflexivity].
    destruct (Req_dec_T 0 0); [reflexivity | contradiction].
  - intros H0 Hn; destruct ratio as [r| | |]; cbn [orElse]; try reflexivity;
      [| contradiction].
    destruct (Req_dec_T r 0) as [-> | _]; [contradiction | reflexivity].
  - intros d -> Hd; cbn [nmul Math.floor Math.max]; rewrite !(Rmax_IZR 1).
    split; [| split].
    + eexists _, _; repeat split; lia.
    + rewrite !nle_Fin; intros H1; rewrite <- Rmax_IZR.
      apply Rmax_lub; [exact H1 | apply Zfloor_bound].
    + rewrite !nle_Fin; intros H1; rewrite <- Rmax_IZR.
      apply Rmax_lub; [exact H1 | apply Zfloor_bound].
Qed.

(** X25.  [clamp(n, min, max)] on finite numbers with [min <= max] lies
    between the two bounds, leaves a number between them as it is, and
    applying it twice changes nothing more; with the bounds in the wrong
    order the result is [min]; and a [NaN] argument gives [NaN]. *)
Theorem clamp_range :
  forall n lo hi : R,
    (lo <= hi ->
     exists c : R,
       clamp (Fin n) (Fin lo) (Fin hi) = Fin c
       /\ (lo <= c <= hi)%R
       /\ (lo <= n <= hi -> c = n)%R
       /\ clamp (Fin c) (Fin lo) (Fin hi) = Fin c)%R
    /\ (hi < lo -> clamp (Fin n) (Fin lo) (Fin hi) = Fin lo)%R
    /\ clamp NaN (Fin lo) (Fin hi) = NaN.
Proof.
  intros n lo hi; unfold clamp; cbn [Math.max Math.min].
  split; [| split; [| reflexivity]].
  - intros Hle; exists (Rmax lo (Rmin hi n)).
    split; [reflexivity |].
    split; [unfold Rmax, Rmin; rdec; lra |].
    split; [intros Hn; unfold Rmax, Rmin; rdec; lra |].
    apply f_equal; unfold Rmax, Rmin; rdec; lra.
  - intros Hlt; apply f_equal; unfold Rmax, Rmin; rdec; lra.
Qed.

(** ** A release ends the gesture *)

(** X26.  Whatever the state, after a release (or a cancel) no gesture of
    the current tool is in progress; and while none is, a pointer-move
    and a further release change nothing.  So a cancel that follows a
    release commits nothing a second time, and moving the pointer over
    the canvas without pressing draws nothing. *)
Theorem release_ends_the_gesture :
  forall (random : nat -> R) (canvas : option Canvas.t)
         (e e' : PointerEvent.t) (s : State),
    idle (onPointerUp canvas e s)
    /\ (idle s ->
        onPointerUp canvas e' s = s
        /\ onPointerMove random canvas e' s = Some s)
    /\ onPointerUp canvas e' (onPointerUp canvas e s) = onPointerUp canvas e s.
Proof.
  intros random canvas e e' s.
  assert (Hidle : forall s0, idle (onPointerUp canvas e s0)).
  { intros s0; unfold idle, onPointerUp.
    destruct (tool s0) eqn:Et, (DragRef.mode (dragRef s0)) eqn:Em,
      (activeShapeRef s0) as [sh|] eqn:Esh, (activeStrokeRef s0) as [st|] eqn:Est;
      cbn [tool pushHistory pushHistoryFrom withLocalStorage withHistoryIndex
           withHistory withElements withActiveShapeRef withActiveStrokeRef
           withDragRef activeShapeRef activeStrokeRef dragRef];
      rewrite ?Et, ?Em; try assumption; try reflexivity; try discriminate;
      destruct (truthyId (selectedId s0)), canvas;
      cbn [tool pushHistory pushHistoryFrom withLocalStorage withHistoryIndex
           withHistory withElements withDragRef dragRef setDragMode DragRef.mode];
      rewrite ?Et; discriminate. }
  assert (Hnoop : forall s0, idle s0 ->
             onPointerUp canvas e' s0 = s0
             /\ onPointerMove random canvas e' s0 = Some s0).
  { intros s0; unfold idle, onPointerUp, onPointerMove.
    destruct canvas as [cv|];
      destruct (tool s0), (DragRef.mode (dragRef s0)),
        (activeShapeRef s0) as [sh|], (activeStrokeRef s0) as [st|];
      intros H; try discriminate; try (now destruct H); split; reflexivity. }
  split; [apply Hidle |].
  split; [apply Hnoop |].
  apply (Hnoop _ (Hidle s)).
Qed.

(** * Worked instances of the further properties *)

Lemma pointer_down_move_frame_witness :
  elements drawingState = elements firstRender
  /\ history drawingState = history firstRender
  /\ historyIndex drawingState = historyIndex firstRender
  /\ localStorage drawingState = localStorage firstRender.
Proof.
  apply (pointer_down_move_frame demoRandom demoIdText (Some demoCanvas)
           pointerdown (at_ 10 10) firstRender drawingState).
  - left; reflexivity.
  - reflexivity.
Defined.

Lemma history_stays_synced_witness :
  historyAt afterCommands (historyIndex afterCommands)
  = Some (elements afterCommands)
  /\ (0 <= historyIndex afterCommands
      < Z.of_nat (List.length (history afterCommands)))%Z.
Proof.
  apply (history_stays_synced demoRandom demoIdText (Some demoCanvas)
           demoCommands afterCommands).
  vm_compute; reflexivity.
Defined.

Lemma strokes_stay_well_formed_witness :
  (forall st, In (Stroke st) (elements afterCommands) -> strokeOk st = true)
  /\ (forall snap st,
         In snap (history afterCommands) -> In (Stroke st) snap ->
         strokeOk st = true)
  /\ (forall st, activeStrokeRef afterCommands = Some st -> strokeOk st = true).
Proof.
  apply (strokes_stay_well_formed demoRandom demoIdText (Some demoCanvas)
           demoCommands afterCommands).
  vm_compute; reflexivity.
Defined.

Lemma undo_redo_round_trip_witness :
  let s := commitAll demoDocs firstRender in
  historyIndex (undo s) = (historyIndex s - 1)%Z
  /\ history (undo s) = history s
  /\ canRedo (undo s) = true
  /\ elements (redo (undo s)) = elements s
  /\ historyIndex (redo (undo s)) = historyIndex s
  /\ history (redo (undo s)) = history s.
Proof.
  exact (proj1 (undo_redo_round_trip (commitAll demoDocs firstRender) eq_refl)
           eq_refl).
Defined.




Lemma drag_preview_is_committed_witness :
  exists s1,
    onPointerDown demoRandom demoIdText (Some demoCanvas) (at_ 30 25) selectState
    = Some s1
    /\ onPointerMove demoRandom (Some demoCanvas) (at_ 35 30) s1 = Some s1
    /\ elements (onPointerUp (Some demoCanvas) (at_ 35 30) s1)
       = dragPreview demoCanvas (at_ 35 30) s1
    /\ elements (onPointerUp (Some demoCanvas) (at_ 35 30) (onKey escapeKey s1))
       = elements selectState
    /\ history (onPointerUp (Some demoCanvas) (at_ 35 30) (onKey escapeKey s1))
       = history selectState
    /\ historyIndex (onPointerUp (Some demoCanvas) (at_ 35 30) (onKey escapeKey s1))
       = historyIndex selectState.
Proof.
  apply (drag_preview_is_committed demoRandom demoIdText demoCanvas
           (at_ 30 25) (at_ 35 30) selectState rectDrawn escapeKey).
  - reflexivity.
  - exact rect_scenario_hit.
  - discriminate.
  - reflexivity.
Defined.


Lemma first_render_commit_not_undoable_witness :
  exists s',
    dispatchBound demoRandom demoIdText FirstRender (Some demoCanvas) pointerup
      (at_ 12 15) drawingState = Some s'
    /\ elements s' = elements drawingState ++ [Stroke drawingStroke]
    /\ history s' = [elements drawingState ++ [Stroke drawingStroke]]
    /\ historyIndex s' = 0%Z
    /\ canUndo s' = false /\ canRedo s' = false
    /\ undo s' = s' /\ redo s' = s'.
Proof.
  apply first_render_commit_not_undoable.
  - left; reflexivity.
  - apply Drawing; [left; reflexivity | reflexivity].
Defined.

Lemma reload_seeds_empty_history_witness :
  exists m,
    mountEffects storedState = Some m
    /\ elements m = [Shape rectA]
    /\ history m = [[]]
    /\ historyIndex m = 0%Z
    /\ canUndo m = false
    /\ forall next : Scene,
         canUndo (commit next m) = true
         /\ elements (undo (commit next m)) = [].
Proof.
  apply (reload_seeds_empty_history storedState [Shape rectA] (IZR 1));
    reflexivity.
Defined.

Lemma box_kinds_direction_invariant_witness :
  drawShape (reverseDrag rectA) = drawShape rectA
  /\ (forall p : Point.t, hitTestShape (reverseDrag rectA) p = hitTestShape rectA p)
  /\ drawSelection (reverseDrag rectA) = drawSelection rectA.
Proof.
  destruct (box_kinds_direction_invariant rectA) as (Hs & Hk).
  destruct Hk as (Hd & Hh); [discriminate |].
  split; [exact Hd | split; [exact Hh | exact Hs]].
Defined.

Lemma box_shapes_can_be_picked_witness :
  hitTestShape rectA (Point.mk (Fin 10) (Fin 10)) = true.
Proof.
  destruct (box_shapes_can_be_picked rectA) as (_ & H & _);
    [reflexivity | discriminate | discriminate | exact H].
Defined.

Lemma runCommands_pressed :
  runCommands demoRandom demoIdText (Some demoCanvas)
    (drawCommands ++ [Pointer CurrentRender pointerdown (at_ 30 25)]) firstRender
  = Some pressedState.
Proof.
  assert (Hdraw : runCommands demoRandom demoIdText (Some demoCanvas)
                    drawCommands firstRender = Some afterDraw)
    by (vm_compute; reflexivity).
  assert (Happ : forall a b s,
             runCommands demoRandom demoIdText (Some demoCanvas) (a ++ b) s
             = match runCommands demoRandom demoIdText (Some demoCanvas) a s with
               | Some s' => runCommands demoRandom demoIdText (Some demoCanvas) b s'
               | None => None
               end).
  { induction a as [|c a IH]; intros b s; cbn [app runCommands]; [reflexivity |].
    destruct (step _ _ _ c s); [apply IH | reflexivity]. }
  rewrite Happ, Hdraw; cbn [runCommands step dispatchBound dispatch].
  rewrite (select_down demoRandom demoIdText demoCanvas (at_ 30 25) afterDraw
             rectDrawn); [reflexivity | vm_compute; reflexivity |].
  replace (elements afterDraw) with [Shape rectDrawn] by (vm_compute; reflexivity).
  exact rect_scenario_hit.
Qed.

Lemma selection_names_a_shape_witness :
  exists found : ShapeElement.t,
    findSelected (elements pressedState) "a" = Some found
    /\ ShapeElement.id found = "a"
    /\ In (Shape found) (elements pressedState).
Proof.
  apply (selection_names_a_shape demoRandom demoIdText (Some demoCanvas)
           (drawCommands ++ [Pointer CurrentRender pointerdown (at_ 30 25)])
           pressedState "a").
  - exact runCommands_pressed.
  - reflexivity.
Defined.

